(** * tmux-nerd-icons: configuration parser, host command parser and icon resolver

    A shallow embedding of [scripts/yaml_parser.py], [scripts/ssh_parser.py]
    and [scripts/icon_resolver.py], with the properties of the specification
    stated and proved over it.

    Conventions of the embedding.
    - A Python [str] is a [string].  The characters the programs inspect
      (whitespace, line breaks, quotes, colons, hashes, dashes, letters to
      lower) are taken as ASCII; any other text (the glyphs) is carried as
      its UTF-8 bytes, which no operation below changes.  [len] is therefore
      the number of bytes, which is the number of characters on ASCII text.
      Whitespace, line separators and case mappings outside ASCII are not
      modelled.
    - A Python [dict] is an association list in insertion order with unique
      keys; assignment to an existing key keeps its position.
    - [None] is [option]'s [None]; an exception is an error value, passed
      on by every caller that does not catch it.
    - What the loader depends on besides its arguments is the record
      [FileSystem]: the calls to the operating system and the recursion
      depth the interpreter has left.  What the resolver asks of the [re]
      module, of [str] on a dictionary and of the process table is the
      record [Runtime]; a search may find the pattern, not find it, raise
      [re.error] or raise something else.
    - A modification time is an integer count of clock ticks since the
      epoch; the programs only compare modification times. *)

From Stdlib Require Import String Ascii List ZArith Lia Bool.
From Stdlib Require Import Sorted.
Import ListNotations.
Local Open Scope string_scope.
Local Open Scope list_scope.
Local Open Scope nat_scope.

(** ** Python string operations *)

Module PyStr.

Definition code (c : ascii) : nat := nat_of_ascii c.

(** [str.isspace] on ASCII: tab, newline, vertical tab, form feed,
    carriage return, the four separators 28..31 and the space. *)
Definition is_space (c : ascii) : bool :=
  let n := code c in
  ((9 <=? n) && (n <=? 13)) || ((28 <=? n) && (n <=? 31)) || (n =? 32).

Definition lower_char (c : ascii) : ascii :=
  let n := code c in
  if (65 <=? n) && (n <=? 90) then ascii_of_nat (n + 32) else c.

(** [s.lower()] on ASCII text: the letters A to Z are lowered and every
    other byte is kept.  [str.lower] also lowers the letters outside ASCII,
    a few of them to ASCII letters (U+212A, the Kelvin sign, gives [k]);
    texts with such letters are outside this model. *)
Fixpoint lower (s : string) : string :=
  match s with
  | EmptyString => EmptyString
  | String c s' => String (lower_char c) (lower s')
  end.

(** [s.lstrip()] *)
Fixpoint lstrip (s : string) : string :=
  match s with
  | EmptyString => EmptyString
  | String c s' => if is_space c then lstrip s' else s
  end.

(** [s.rstrip()] *)
Fixpoint rstrip (s : string) : string :=
  match s with
  | EmptyString => EmptyString
  | String c s' =>
      match rstrip s' with
      | EmptyString => if is_space c then EmptyString else String c EmptyString
      | r => String c r
      end
  end.

(** [s.strip()] *)
Definition strip (s : string) : string := rstrip (lstrip s).

(** [bool(s)]: a string is true when it is not empty. *)
Definition nonempty (s : string) : bool :=
  match s with EmptyString => false | _ => true end.

(** [s.startswith(p)] *)
Definition startswith (s p : string) : bool := String.prefix p s.

(** [s[n:]] *)
Fixpoint drop (n : nat) (s : string) : string :=
  match n, s with
  | O, _ => s
  | S _, EmptyString => EmptyString
  | S n', String _ s' => drop n' s'
  end.

(** [s.split(sep, 1)] when [sep] occurs in [s]: the text before the first
    occurrence and the text after it; [None] when [sep] does not occur. *)
Fixpoint split_once (sep s : string) : option (string * string) :=
  if String.prefix sep s then Some (EmptyString, drop (String.length sep) s)
  else match s with
       | EmptyString => None
       | String c s' =>
           match split_once sep s' with
           | Some (a, b) => Some (String c a, b)
           | None => None
           end
       end.

(** [sub in s] *)
Definition contains (sub s : string) : bool :=
  match split_once sub s with Some _ => true | None => false end.

(** [s.find(sub)] *)
Definition find (sub s : string) : Z :=
  match split_once sub s with
  | Some (a, _) => Z.of_nat (String.length a)
  | None => (-1)%Z
  end.

(** [s[i:j]] for [0 <= i] and [0 <= j] *)
Definition slice (s : string) (i j : Z) : string :=
  String.substring (Z.to_nat i) (Z.to_nat j - Z.to_nat i) s.

(** [s.replace(a, b)] for one-character [a] and [b] *)
Fixpoint replace_char (a b : ascii) (s : string) : string :=
  match s with
  | EmptyString => EmptyString
  | String c s' =>
      String (if Ascii.eqb c a then b else c) (replace_char a b s')
  end.

(** [s[-1]] of a string that is not empty *)
Fixpoint last_char (s : string) (d : ascii) : ascii :=
  match s with
  | EmptyString => d
  | String c s' => last_char s' c
  end.

(** [s[1:-1]] *)
Fixpoint drop_last (s : string) : string :=
  match s with
  | EmptyString => EmptyString
  | String c EmptyString => EmptyString
  | String c s' => String c (drop_last s')
  end.

Definition strip_ends (s : string) : string :=
  match s with
  | EmptyString => EmptyString
  | String _ s' => drop_last s'
  end.

(** [re.split] on a pattern [[...]+] whose character class is given by
    [is_sep]: the pieces between maximal runs of separators, the empty
    pieces at both ends included. *)
Fixpoint split_runs_aux (is_sep : ascii -> bool) (cur : string)
         (prev_sep : bool) (s : string) : list string :=
  match s with
  | EmptyString => [cur]
  | String c s' =>
      if is_sep c then
        if prev_sep then split_runs_aux is_sep cur true s'
        else cur :: split_runs_aux is_sep EmptyString true s'
      else split_runs_aux is_sep (cur ++ String c EmptyString)%string false s'
  end.

Definition split_runs (is_sep : ascii -> bool) (s : string) : list string :=
  split_runs_aux is_sep EmptyString false s.

(** [s.split()]: the maximal runs of characters that are not whitespace. *)
Definition split_ws (s : string) : list string :=
  filter nonempty (split_runs is_space s).

(** [sep.join(parts)] *)
Definition join (sep : string) (parts : list string) : string :=
  String.concat sep parts.

(** [s.splitlines()]: lines end at a line feed, a carriage return (with a
    following line feed), a vertical tab, a form feed or one of the
    separators 28..30; the terminators are dropped and a final terminator
    opens no empty line. *)
Definition is_linebreak (c : ascii) : bool :=
  let n := code c in
  ((10 <=? n) && (n <=? 13)) || ((28 <=? n) && (n <=? 30)).

Fixpoint splitlines_aux (cur : string) (s : string) : list string :=
  match s with
  | EmptyString => if nonempty cur then [cur] else []
  | String c s' =>
      if is_linebreak c then
        match c, s' with
        | "013"%char, String "010"%char s'' => cur :: splitlines_aux EmptyString s''
        | _, _ => cur :: splitlines_aux EmptyString s'
        end
      else splitlines_aux (cur ++ String c EmptyString)%string s'
  end.

Definition splitlines (s : string) : list string :=
  splitlines_aux EmptyString s.

(** [c * n] *)
Fixpoint replicate (n : nat) (c : ascii) : string :=
  match n with O => EmptyString | S n' => String c (replicate n' c) end.

(** [os.path.basename(p)]: the text after the last slash. *)
Fixpoint basename_aux (acc p : string) : string :=
  match p with
  | EmptyString => acc
  | String c p' =>
      if Ascii.eqb c "/"%char then basename_aux EmptyString p'
      else basename_aux (acc ++ String c EmptyString)%string p'
  end.

Definition basename (p : string) : string := basename_aux EmptyString p.

(** [k in xs] for a tuple or frozenset of strings *)
Definition mem (k : string) (xs : list string) : bool :=
  existsb (String.eqb k) xs.

(** No character of the string is whitespace. *)
Fixpoint no_space (s : string) : bool :=
  match s with
  | EmptyString => true
  | String c s' => negb (is_space c) && no_space s'
  end.

(** The line feed, and lines joined into a text. *)
Definition nl : string := String "010"%char EmptyString.

Definition text (lines : list string) : string :=
  String.concat EmptyString (map (fun l => (l ++ nl)%string) lines).

End PyStr.

(** ** scripts/ssh_parser.py *)

Module SshParser.
Import PyStr.

Definition _SSH_COMMANDS : list string :=
  ["ssh"; "slogin"; "mosh"; "mosh-client"].

Definition _SSH_OPTIONS_WITH_ARG : list string :=
  ["-b"; "-c"; "-D"; "-E"; "-F"; "-I"; "-i"; "-J"; "-L"; "-l";
   "-m"; "-O"; "-o"; "-p"; "-Q"; "-R"; "-S"; "-W"; "-w"; "-B"].

(** The argument of [parse_ssh_host]: a command line in one string, or a
    sequence of arguments. *)
Inductive Cmdline :=
| CmdStr (s : string)
| CmdSeq (args : list string).

(** [cmdline.split() if isinstance(cmdline, str) else list(cmdline)] *)
Definition argv_of (cmdline : Cmdline) : list string :=
  match cmdline with
  | CmdStr s => split_ws s
  | CmdSeq args => args
  end.

(** The inner [for opt in _SSH_OPTIONS_WITH_ARG] loop: does some option
    letter start [arg] with more text after it? *)
Definition has_attached_value (arg : string) : bool :=
  existsb (fun opt => startswith arg opt
                      && (String.length opt <? String.length arg))
          _SSH_OPTIONS_WITH_ARG.

(** The [while i < len(args)] loop over the arguments from position [i]
    on; [i += 2] is the tail of the tail. *)
Fixpoint _take_first_non_option (args : list string) : option string :=
  match args with
  | [] => None
  | arg :: rest =>
      if String.eqb arg "--" then
        match rest with next :: _ => Some next | [] => None end
      else if startswith arg "-" then
        if mem arg _SSH_OPTIONS_WITH_ARG then
          match rest with
          | _ :: rest' => _take_first_non_option rest'
          | [] => None
          end
        else if has_attached_value arg then _take_first_non_option rest
        else _take_first_non_option rest
      else Some arg
  end.

Definition _normalize_hostname (host : string) : string :=
  let host := match split_once "@" host with
              | Some (_, after) => after
              | None => host
              end in
  let host := strip host in
  let host :=
    if startswith host "[" then
      let bracket_end := find "]" host in
      if (0 <? bracket_end)%Z then slice host 1 bracket_end
      else drop 1 host
    else if contains ":" host then
      match split_once ":" host with
      | Some (before, _) => before
      | None => host
      end
    else host in
  lower host.

Definition parse_ssh_host (cmdline : Cmdline) : option string :=
  let argv := argv_of cmdline in
  match argv with
  | [] => None
  | argv0 :: rest =>
      let prog := basename argv0 in
      if negb (mem prog _SSH_COMMANDS) then None
      else match _take_first_non_option rest with
           | None => None
           | Some host =>
               if negb (nonempty host) then None
               else Some (_normalize_hostname host)
           end
  end.

(** The steps of the normalisation as the specification words them. *)

(** Strip an optional [user@] prefix, splitting on the first [@]. *)
Definition strip_user (target : string) : string :=
  match split_once "@" target with
  | Some (_, after) => after
  | None => target
  end.

(** A leading bracket opens an IPv6 address that runs up to the first
    closing bracket, or to the end when there is none; otherwise everything
    from the first colon on is dropped. *)
Definition strip_brackets_or_port (h : string) : string :=
  match h with
  | String "["%char r =>
      match split_once "]" r with
      | Some (address, _) => address
      | None => r
      end
  | _ =>
      match split_once ":" h with
      | Some (before, _) => before
      | None => h
      end
  end.

Definition normalize_spec (target : string) : string :=
  lower (strip_brackets_or_port (strip_user target)).

End SshParser.


(** ** scripts/yaml_parser.py *)

Module YamlParser.
Import PyStr.

Definition MAX_CONFIG_SIZE : Z := 1024 * 1024.
Definition MAX_REGEX_LENGTH : nat := 500.

(** A parsed value: [str | dict[str, Any]]. *)
#[warnings="-register-all"]
Inductive Value :=
| Str (s : string)
| Dict (d : list (string * Value)).

Definition dict (V : Type) : Type := list (string * V).

(** [d[k] = v] *)
Fixpoint dict_set {V : Type} (d : dict V) (k : string) (v : V) : dict V :=
  match d with
  | [] => [(k, v)]
  | (k', v') :: d' =>
      if String.eqb k' k then (k', v) :: d' else (k', v') :: dict_set d' k v
  end.

(** [d.get(k)] *)
Fixpoint dict_get {V : Type} (d : dict V) (k : string) : option V :=
  match d with
  | [] => None
  | (k', v') :: d' => if String.eqb k' k then Some v' else dict_get d' k
  end.

(** [k in d] *)
Definition dict_has {V : Type} (d : dict V) (k : string) : bool :=
  match dict_get d k with Some _ => true | None => false end.

(** [bool(d)] *)
Definition dict_nonempty {V : Type} (d : dict V) : bool :=
  match d with [] => false | _ => true end.

(** The default glyph U+F0D59, as its UTF-8 bytes. *)
Definition default_fallback_icon : string :=
  String (ascii_of_nat 243) (String (ascii_of_nat 176)
    (String (ascii_of_nat 181) (String (ascii_of_nat 153) EmptyString))).

Record IconConfig := mkIconConfig {
  fallback_icon : string;
  show_name : bool;
  use_process_name : bool;
  prefer_host_icon : bool;
  ring_color_active : string;
  ring_color_inactive : string;
  icon_color : string;
  alert_color : string;
  multi_pane_icon : string;
  layout_glyphs : dict string
}.

(** [IconConfig()] *)
Definition IconConfig_default : IconConfig :=
  {| fallback_icon := default_fallback_icon;
     show_name := false;
     use_process_name := false;
     prefer_host_icon := true;
     ring_color_active := "#875fff";
     ring_color_inactive := "#45475a";
     icon_color := "#cdd6f4";
     alert_color := "#f38ba8";
     multi_pane_icon := EmptyString;
     layout_glyphs := [] |}.

Record ParsedConfig := mkParsedConfig {
  config : IconConfig;
  icons : dict Value;
  title_icons : dict string;
  sessions : dict string;
  hosts : dict Value
}.

(** The exceptions of the programs.  The message texts are left out; what
    they are built from is kept.  [ReadError] is whatever [open] or [read]
    raises; [RecursionError] is the interpreter's, for calls nested too
    deep; [OverflowError] is one that [re.search] raises. *)
Inductive Exception :=
| FileNotFoundError (path : string)
| ValueError_too_large (size : Z)
| YamlParseError (pattern_length : nat) (line_number : option nat)
| ReadError
| AssertionError
| RecursionError
| OverflowError.

Inductive result (A : Type) :=
| Ok (a : A)
| Raise (e : Exception).
Arguments Ok {A} a.
Arguments Raise {A} e.

(** Sequencing: an exception of the first step is passed on. *)
Definition bind {A B : Type} (r : result A) (k : A -> result B) : result B :=
  match r with
  | Ok a => k a
  | Raise e => Raise e
  end.

Notation "x <- r ;; k" := (bind r (fun x => k))
  (at level 61, r at next level, right associativity).

Definition is_quote (c : ascii) : bool :=
  Ascii.eqb c "034"%char || Ascii.eqb c "039"%char.

(** A string of at least two characters that starts with a single or a
    double quote and ends with the same character. *)
Definition has_matching_quotes (s : string) : bool :=
  match s with
  | EmptyString => false
  | String c s' =>
      (2 <=? String.length s) && is_quote c && Ascii.eqb (last_char s' c) c
  end.

Definition _strip_yaml_value (val : string) : string :=
  let val := strip val in
  let val := if contains " #" val then
               match split_once " #" val with
               | Some (before, _) => strip before
               | None => val
               end
             else val in
  if nonempty val && has_matching_quotes val then strip_ends val else val.

Definition _normalize_yaml_key (raw : string) (lowercase : bool) : string :=
  let key := strip raw in
  let key := if has_matching_quotes key then strip_ends key else key in
  if lowercase then lower key else key.

Definition _get_indent_level (line : string) : nat :=
  String.length line - String.length (lstrip line).

Definition _parse_bool (val : string) : bool :=
  let v := strip (lower val) in
  if mem v ["true"; "yes"; "1"; "on"] then true
  else if mem v ["false"; "no"; "0"; "off"] then false
  else false.

Definition _is_inline_yaml_value (rest : string) : bool :=
  match rest with
  | EmptyString => false
  | String c r =>
      if existsb (Ascii.eqb c) ["|"%char; ">"%char; "{"%char; "["%char]
      then false
      else negb (Ascii.eqb c "#"%char
                 && ((String.length rest =? 1)
                     || match r with
                        | String c1 _ => Ascii.eqb c1 " "%char
                        | EmptyString => false
                        end))
  end.

(** Returns normally ([None]) or raises. *)
Definition _validate_pattern_length (pattern : string) (line_number : nat)
  : option Exception :=
  if MAX_REGEX_LENGTH <? String.length pattern
  then Some (YamlParseError (String.length pattern) (Some line_number))
  else None.

(** What [_iter_yaml_block] yields: key, inline value or [None], line index
    and indent. *)
Definition BlockItem : Type := (string * option string * nat * nat)%type.

Definition item_value (item : BlockItem) : option string :=
  snd (fst (fst item)).

(** The [for idx, raw in enumerate(lines)] loop of [_iter_yaml_block] from
    line [idx] on, with the loop's variables [in_block] and [block_indent]. *)
Fixpoint _iter_yaml_block_from (target_label : string) (in_block : bool)
         (block_indent : option nat) (idx : nat) (lines : list string)
  : list BlockItem :=
  match lines with
  | [] => []
  | raw :: rest =>
      let stripped := strip raw in
      if negb in_block then
        if String.eqb stripped target_label
           || startswith stripped (target_label ++ " ")%string
        then _iter_yaml_block_from target_label true block_indent (S idx) rest
        else _iter_yaml_block_from target_label false block_indent (S idx) rest
      else if negb (nonempty stripped) || startswith stripped "#" then
        _iter_yaml_block_from target_label in_block block_indent (S idx) rest
      else
        let current_indent := _get_indent_level raw in
        let block_indent := match block_indent with
                            | None => current_indent
                            | Some b => b
                            end in
        let continue :=
          _iter_yaml_block_from target_label in_block (Some block_indent)
                                (S idx) rest in
        if current_indent <? block_indent then []
        else if negb (current_indent =? block_indent) then continue
        else if negb (contains ":" stripped) then continue
        else match split_once ":" stripped with
             | None => continue
             | Some (key_part, val_part) =>
                 let key := _normalize_yaml_key key_part false in
                 let rest := strip val_part in
                 if negb (nonempty key) then continue
                 else if _is_inline_yaml_value rest
                      then (key, Some (_strip_yaml_value rest), idx, current_indent)
                             :: continue
                      else (key, None, idx, current_indent) :: continue
             end
  end.

Definition _iter_yaml_block (lines : list string) (block_label : string)
  : list BlockItem :=
  _iter_yaml_block_from (block_label ++ ":")%string false None 0 lines.

(** The [while idx < len(lines)] loop of [_parse_nested_block], with the
    loop's variables [result], [idx] and [block_indent].  Each turn of the
    loop and each recursive call takes one unit of [fuel]; [None] is fuel
    exhausted.  [depth] is the number of nested calls the interpreter still
    allows: a recursive call takes one, and a recursive call with none left
    raises [RecursionError]. *)
Fixpoint _parse_nested_block_loop (fuel depth : nat) (lines : list string)
         (base_indent : nat) (block_indent : option nat)
         (result : dict Value) (idx : nat)
  : option (YamlParser.result (dict Value * nat)) :=
  match fuel with
  | O => None
  | S fuel' =>
      match nth_error lines idx with
      | None => Some (Ok (result, idx))
      | Some raw =>
          let stripped := strip raw in
          if negb (nonempty stripped) || startswith stripped "#" then
            _parse_nested_block_loop fuel' depth lines base_indent
                                     block_indent result (S idx)
          else
            let current_indent := _get_indent_level raw in
            if current_indent <=? base_indent then Some (Ok (result, idx))
            else
              let block_indent := match block_indent with
                                  | None => current_indent
                                  | Some b => b
                                  end in
              let continue r i :=
                _parse_nested_block_loop fuel' depth lines base_indent
                                         (Some block_indent) r i in
              if block_indent <? current_indent then continue result (S idx)
              else if negb (contains ":" stripped) then continue result (S idx)
              else match split_once ":" stripped with
                   | None => continue result (S idx)
                   | Some (key_part, val_part) =>
                       let key := _normalize_yaml_key key_part false in
                       let rest := strip val_part in
                       if negb (nonempty key) then continue result (S idx)
                       else if _is_inline_yaml_value rest then
                         continue (dict_set result key
                                            (Str (_strip_yaml_value rest)))
                                  (S idx)
                       else
                         match depth with
                         | O => Some (Raise RecursionError)
                         | S depth' =>
                             match _parse_nested_block_loop fuel' depth' lines
                                     current_indent None [] (S idx) with
                             | None => None
                             | Some (Raise e) => Some (Raise e)
                             | Some (Ok (nested, idx')) =>
                                 continue (if dict_nonempty nested
                                           then dict_set result key
                                                         (Dict nested)
                                           else result)
                                          idx'
                             end
                         end
                   end
      end
  end.

(** [_parse_nested_block(lines, start_idx, base_indent)] with [depth]
    nested calls left.  One more unit of fuel than there are lines is always
    enough ([_parse_nested_block_returns] below), so the second branch is
    never taken. *)
Definition _parse_nested_block (depth : nat) (lines : list string)
           (start_idx : nat) (base_indent : nat)
  : result (dict Value * nat) :=
  match _parse_nested_block_loop (S (List.length lines)) depth lines
                                 base_indent None [] start_idx with
  | Some r => r
  | None => Ok ([], start_idx)
  end.

(** Assignments to the fields of an [IconConfig]. *)
Definition set_fallback_icon (v : string) (c : IconConfig) : IconConfig :=
  mkIconConfig v (show_name c) (use_process_name c) (prefer_host_icon c)
               (ring_color_active c) (ring_color_inactive c) (icon_color c)
               (alert_color c) (multi_pane_icon c) (layout_glyphs c).
Definition set_show_name (v : bool) (c : IconConfig) : IconConfig :=
  mkIconConfig (fallback_icon c) v (use_process_name c) (prefer_host_icon c)
               (ring_color_active c) (ring_color_inactive c) (icon_color c)
               (alert_color c) (multi_pane_icon c) (layout_glyphs c).
Definition set_use_process_name (v : bool) (c : IconConfig) : IconConfig :=
  mkIconConfig (fallback_icon c) (show_name c) v (prefer_host_icon c)
               (ring_color_active c) (ring_color_inactive c) (icon_color c)
               (alert_color c) (multi_pane_icon c) (layout_glyphs c).
Definition set_prefer_host_icon (v : bool) (c : IconConfig) : IconConfig :=
  mkIconConfig (fallback_icon c) (show_name c) (use_process_name c) v
               (ring_color_active c) (ring_color_inactive c) (icon_color c)
               (alert_color c) (multi_pane_icon c) (layout_glyphs c).
Definition set_ring_color_active (v : string) (c : IconConfig) : IconConfig :=
  mkIconConfig (fallback_icon c) (show_name c) (use_process_name c)
               (prefer_host_icon c) v (ring_color_inactive c) (icon_color c)
               (alert_color c) (multi_pane_icon c) (layout_glyphs c).
Definition set_ring_color_inactive (v : string) (c : IconConfig) : IconConfig :=
  mkIconConfig (fallback_icon c) (show_name c) (use_process_name c)
               (prefer_host_icon c) (ring_color_active c) v (icon_color c)
               (alert_color c) (multi_pane_icon c) (layout_glyphs c).
Definition set_icon_color (v : string) (c : IconConfig) : IconConfig :=
  mkIconConfig (fallback_icon c) (show_name c) (use_process_name c)
               (prefer_host_icon c) (ring_color_active c)
               (ring_color_inactive c) v (alert_color c) (multi_pane_icon c)
               (layout_glyphs c).
Definition set_alert_color (v : string) (c : IconConfig) : IconConfig :=
  mkIconConfig (fallback_icon c) (show_name c) (use_process_name c)
               (prefer_host_icon c) (ring_color_active c)
               (ring_color_inactive c) (icon_color c) v (multi_pane_icon c)
               (layout_glyphs c).
Definition set_multi_pane_icon (v : string) (c : IconConfig) : IconConfig :=
  mkIconConfig (fallback_icon c) (show_name c) (use_process_name c)
               (prefer_host_icon c) (ring_color_active c)
               (ring_color_inactive c) (icon_color c) (alert_color c) v
               (layout_glyphs c).
Definition set_layout_glyphs (v : dict string) (c : IconConfig) : IconConfig :=
  mkIconConfig (fallback_icon c) (show_name c) (use_process_name c)
               (prefer_host_icon c) (ring_color_active c)
               (ring_color_inactive c) (icon_color c) (alert_color c)
               (multi_pane_icon c) v.

(** [key.lower().replace("-", "_")] *)
Definition norm_config_key (key : string) : string :=
  replace_char "-"%char "_"%char (lower key).

(** The body of the [for] loop of [_parse_config_section]: what one yielded
    item does to the configuration built so far. *)
Definition _parse_config_entry (config : IconConfig) (item : BlockItem)
  : IconConfig :=
  match item with
  | (key, value, _, _) =>
      match value with
      | None => config
      | Some value =>
          let norm_key := norm_config_key key in
          if String.eqb norm_key "fallback_icon" && nonempty value then
            set_fallback_icon value config
          else if String.eqb norm_key "show_name" then
            set_show_name (_parse_bool value) config
          else if String.eqb norm_key "use_process_name" then
            set_use_process_name (_parse_bool value) config
          else if String.eqb norm_key "prefer_host_icon" then
            set_prefer_host_icon (_parse_bool value) config
          else if mem norm_key ["ring_color_active"; "index_color_active"]
                  && nonempty value then
            set_ring_color_active value config
          else if mem norm_key ["ring_color_inactive"; "index_color_inactive"]
                  && nonempty value then
            set_ring_color_inactive value config
          else if String.eqb norm_key "icon_color" && nonempty value then
            set_icon_color value config
          else if String.eqb norm_key "alert_color" && nonempty value then
            set_alert_color value config
          else if String.eqb norm_key "multi_pane_icon" && nonempty value then
            set_multi_pane_icon value config
          else config
      end
  end.

(** The string-valued settings of a configuration. *)
Definition string_settings (c : IconConfig)
  : string * string * string * string * string * string :=
  (fallback_icon c, ring_color_active c, ring_color_inactive c,
   icon_color c, alert_color c, multi_pane_icon c).

Definition _parse_config_section (lines : list string) : IconConfig :=
  fold_left _parse_config_entry (_iter_yaml_block lines "config")
            IconConfig_default.

(** The body of the [for] loop of [_parse_nested_section]. *)
Definition _parse_nested_entry (depth : nat) (lines : list string)
           (result : dict Value) (item : BlockItem)
  : YamlParser.result (dict Value) :=
  match item with
  | (key, value, line_idx, indent) =>
      match value with
      | Some value => Ok (dict_set result key (Str value))
      | None =>
          parsed <- _parse_nested_block depth lines (line_idx + 1) indent ;;
          let nested := fst parsed in
          Ok (if dict_nonempty nested then dict_set result key (Dict nested)
              else result)
      end
  end.

(** The [for] loop of [_parse_nested_section]: an exception ends it. *)
Definition _parse_nested_section (depth : nat) (lines : list string)
           (section : string) : result (dict Value) :=
  fold_left (fun acc item =>
               result <- acc ;; _parse_nested_entry depth lines result item)
            (_iter_yaml_block lines section) (Ok []).

(** The body of the [for] loops of [_parse_simple_section] and
    [_parse_layout_glyphs]. *)
Definition _parse_simple_entry (result : dict string) (item : BlockItem)
  : dict string :=
  match item with
  | (key, value, _, _) =>
      match value with
      | Some value => dict_set result key value
      | None => result
      end
  end.

Definition _parse_simple_section (lines : list string) (section : string)
  : dict string :=
  fold_left _parse_simple_entry (_iter_yaml_block lines section) [].

Definition _parse_layout_glyphs (lines : list string) : dict string :=
  fold_left
    (fun result section =>
       fold_left _parse_simple_entry (_iter_yaml_block lines section) result)
    ["layout-glyps"; "layout-glyphs"] [].

(** [load_config_from_string(content)] with [depth] nested calls left for
    the nested blocks. *)
Definition load_config_from_string (depth : nat) (content : string)
  : result ParsedConfig :=
  let lines := splitlines content in
  let config := _parse_config_section lines in
  icons <- _parse_nested_section depth lines "icons" ;;
  let title_icons := _parse_simple_section lines "title_icons" in
  let sessions := _parse_simple_section lines "sessions" in
  hosts <- _parse_nested_section depth lines "hosts" ;;
  let layout_glyphs := _parse_layout_glyphs lines in
  let config := set_layout_glyphs layout_glyphs config in
  Ok {| config := config;
        icons := icons;
        title_icons := title_icons;
        sessions := sessions;
        hosts := hosts |}.

(** What [load_config] and [get_config] depend on besides their arguments:
    [os.path.expanduser], [os.path.getmtime] and [os.path.getsize] ([None]
    when they raise [OSError]), [open(path).read()] ([None] when it raises)
    and the number of nested calls the interpreter still allows when the
    nested blocks are parsed. *)
Record FileSystem := mkFileSystem {
  expanduser : string -> string;
  getmtime : string -> option Z;
  getsize : string -> option Z;
  read_text : string -> option string;
  recursion_depth : nat
}.

Definition load_config (fs : FileSystem) (path : string)
  : result ParsedConfig :=
  let path := expanduser fs path in
  match getsize fs path with
  | None => Raise (FileNotFoundError path)
  | Some size =>
      if (MAX_CONFIG_SIZE <? size)%Z then Raise (ValueError_too_large size)
      else match read_text fs path with
           | None => Raise ReadError
           | Some content =>
               load_config_from_string (recursion_depth fs) content
           end
  end.

End YamlParser.

(** ** fnmatch.fnmatch

    The library function the host tier calls, after [fnmatch.translate] on a
    POSIX system (where [os.path.normcase] changes nothing): [*] matches any
    text, [?] any one character, [[seq]] any character of [seq] and [[!seq]]
    any character not in it; in [seq] a leading [!] negates, a leading [[]]
    is a member, [lo-hi] is a range (empty when [hi] is below [lo]) and a
    bracket that is never closed is an ordinary character. *)

Module Fnmatch.
Import PyStr.

Inductive GlobItem :=
| GStar
| GAny
| GLit (c : ascii)
| GSet (negated : bool) (body : string).

(** Is there a closing bracket for an opening bracket followed by [rest]?
    A [!] and then a [[]]] right after the opening bracket do not close it. *)
Definition bracket_closes (rest : string) : bool :=
  let r1 := match rest with
            | String "!"%char r => r
            | _ => rest
            end in
  let r2 := match r1 with
            | String "]"%char r => r
            | _ => r1
            end in
  contains "]" r2.

(** The pattern as a list of items.  [st] is [Some (negated, seen, body)]
    while the scan is inside a bracket that has a closing bracket; [seen]
    says that the place for the leading [!] is behind. *)
Fixpoint translate_from (st : option (bool * bool * string)) (pat : string)
  : list GlobItem :=
  match pat with
  | EmptyString => []
  | String c rest =>
      match st with
      | Some (negated, seen, body) =>
          if Ascii.eqb c "!"%char && negb seen then
            translate_from (Some (true, true, body)) rest
          else if Ascii.eqb c "]"%char && nonempty body then
            GSet negated body :: translate_from None rest
          else
            translate_from
              (Some (negated, true, (body ++ String c EmptyString)%string)) rest
      | None =>
          if Ascii.eqb c "*"%char then GStar :: translate_from None rest
          else if Ascii.eqb c "?"%char then GAny :: translate_from None rest
          else if Ascii.eqb c "["%char then
            if bracket_closes rest
            then translate_from (Some (false, false, EmptyString)) rest
            else GLit c :: translate_from None rest
          else GLit c :: translate_from None rest
      end
  end.

Definition translate (pat : string) : list GlobItem :=
  translate_from None pat.

(** Membership in the body of a bracket. *)
Fixpoint set_mem (c : ascii) (body : string) : bool :=
  match body with
  | EmptyString => false
  | String lo (String "-"%char (String hi rest)) =>
      ((code lo <=? code c) && (code c <=? code hi)) || set_mem c rest
  | String x rest => Ascii.eqb c x || set_mem c rest
  end.

Definition item_matches (it : GlobItem) (c : ascii) : bool :=
  match it with
  | GStar => true
  | GAny => true
  | GLit x => Ascii.eqb c x
  | GSet negated body => xorb negated (set_mem c body)
  end.

(** Does the whole of [name] match the items? *)
Fixpoint glob_match (items : list GlobItem) (name : string) : bool :=
  match items with
  | [] => negb (nonempty name)
  | GStar :: items' =>
      (fix try (s : string) : bool :=
         glob_match items' s
         || match s with
            | EmptyString => false
            | String _ s' => try s'
            end) name
  | it :: items' =>
      match name with
      | EmptyString => false
      | String c name' => item_matches it c && glob_match items' name'
      end
  end.

(** [fnmatch(name, pat)] *)
Definition fnmatch (name pat : string) : bool :=
  glob_match (translate pat) name.

End Fnmatch.

(** ** scripts/icon_resolver.py *)

Module IconResolver.
Import PyStr SshParser YamlParser Fnmatch.

Definition _MAX_PATTERN_LENGTH : nat := 500.

(** The values of the field [source]. *)
Inductive Source :=
| SrcHost
| SrcTitlePattern
| SrcTitleIcon
| SrcProcess
| SrcSession
| SrcFallback.

Definition source_name (s : Source) : string :=
  match s with
  | SrcHost => "host"
  | SrcTitlePattern => "title_pattern"
  | SrcTitleIcon => "title_icon"
  | SrcProcess => "process"
  | SrcSession => "session"
  | SrcFallback => "fallback"
  end.

(** [IconResult].  The annotations say [str]; at run time the icon and the
    colours of a detailed entry are whatever the parser stored under the
    key, a string or a nested mapping. *)
Record IconResult := mkIconResult {
  icon : Value;
  ring_color : option Value;
  icon_color : option Value;
  alert_color : option Value;
  source : Source
}.

(** What a call [re.search(pattern, title, re.IGNORECASE)] can do: return
    a match object, return [None], raise [re.error], or raise another
    exception (the pattern [a{4294967295}] raises [OverflowError]). *)
Inductive SearchOutcome :=
| Found
| NotFound
| PatternError
| SearchRaises (e : Exception).

(** What the resolver asks of its surroundings: [re.search]; [str] of a
    dictionary; and the command line of the foreground process of a pane. *)
Record Runtime := mkRuntime {
  re_search : string -> string -> SearchOutcome;
  str_of_dict : dict Value -> string;
  get_foreground_cmdline : Z -> list string
}.

(** The module's global variables. *)
Record Cache := mkCache {
  _config_cache : option ParsedConfig;
  _config_mtime : Z;
  _config_path_cache : string
}.

Definition initial_cache : Cache :=
  {| _config_cache := None; _config_mtime := 0%Z; _config_path_cache := EmptyString |}.

(** [current_mtime] of [get_config]: the modification time, 0 when the
    stat raises [OSError]. *)
Definition current_mtime_of (fs : FileSystem) (path : string) : Z :=
  match getmtime fs path with
  | Some t => t
  | None => 0%Z
  end.

(** [cache_invalid] of [get_config] *)
Definition cache_invalid (st : Cache) (path : string) (current_mtime : Z)
  : bool :=
  match _config_cache st with None => true | Some _ => false end
  || negb (String.eqb path (_config_path_cache st))
  || (_config_mtime st <? current_mtime)%Z.

(** The body of [if cache_invalid]: load the file and, when that returns,
    assign the three globals. *)
Definition reload (fs : FileSystem) (st : Cache) (path : string)
           (current_mtime : Z) : result ParsedConfig * Cache :=
  match load_config fs path with
  | Raise e => (Raise e, st)
  | Ok c =>
      (Ok c, {| _config_cache := Some c;
                _config_mtime := current_mtime;
                _config_path_cache := path |})
  end.

(** [get_config]: the result and the globals after the call. *)
Definition get_config (fs : FileSystem) (st : Cache) (config_path : string)
  : result ParsedConfig * Cache :=
  let path := expanduser fs config_path in
  let current_mtime := current_mtime_of fs path in
  if cache_invalid st path current_mtime then
    reload fs st path current_mtime
  else
    match _config_cache st with
    | Some c => (Ok c, st)
    | None => (Raise AssertionError, st)
    end.

(** [bool(v)] of an optional value *)
Definition truthy (v : option Value) : bool :=
  match v with
  | None => false
  | Some (Str s) => nonempty s
  | Some (Dict d) => dict_nonempty d
  end.

(** [a or b] *)
Definition py_or (a b : option Value) : option Value :=
  if truthy a then a else b.

Definition _extract_host_result (value : Value) (cfg : IconConfig)
  : IconResult :=
  match value with
  | Str s =>
      {| icon := Str s; ring_color := None; icon_color := None;
         alert_color := None; source := SrcHost |}
  | Dict d =>
      {| icon := match dict_get d "icon" with
                 | Some v => v
                 | None => Str (fallback_icon cfg)
                 end;
         ring_color := py_or (dict_get d "ring-color")
                             (dict_get d "index-color");
         icon_color := dict_get d "icon-color";
         alert_color := dict_get d "alert-color";
         source := SrcHost |}
  end.

(** The [for pattern, value in hosts.items()] loop of [_match_host]. *)
Fixpoint _match_host_loop (host_lower : string) (hosts : dict Value)
         (cfg : IconConfig) : option IconResult :=
  match hosts with
  | [] => None
  | (pattern, value) :: rest =>
      let pattern_lower := lower pattern in
      if String.eqb pattern_lower host_lower then
        Some (_extract_host_result value cfg)
      else if fnmatch host_lower pattern_lower then
        Some (_extract_host_result value cfg)
      else _match_host_loop host_lower rest cfg
  end.

Definition _match_host (host : string) (hosts : dict Value)
           (cfg : IconConfig) : option IconResult :=
  _match_host_loop (lower host) hosts cfg.

(** [str(icon)] *)
Definition py_str (rt : Runtime) (v : Value) : string :=
  match v with
  | Str s => s
  | Dict d => str_of_dict rt d
  end.

(** The [for pattern, icon in title_patterns.items()] loop.  Only
    [re.error] is caught; any other exception of the search leaves the
    function. *)
Fixpoint _match_title_patterns_inner (rt : Runtime) (title : string)
         (value : dict Value) (title_patterns : dict Value)
  : result (option IconResult) :=
  match title_patterns with
  | [] => Ok None
  | (pattern, icon) :: rest =>
      if _MAX_PATTERN_LENGTH <? String.length pattern then
        _match_title_patterns_inner rt title value rest
      else
        match re_search rt pattern title with
        | Found =>
            Ok (Some {| icon := Str (py_str rt icon);
                        ring_color := None;
                        icon_color := dict_get value "icon-color";
                        alert_color := None;
                        source := SrcTitlePattern |})
        | NotFound => _match_title_patterns_inner rt title value rest
        | PatternError => _match_title_patterns_inner rt title value rest
        | SearchRaises e => Raise e
        end
  end.

(** The [for _app, value in icons.items()] loop. *)
Fixpoint _match_title_patterns_loop (rt : Runtime) (title : string)
         (icons : dict Value) : result (option IconResult) :=
  match icons with
  | [] => Ok None
  | (_app, value) :: rest =>
      match value with
      | Str _ => _match_title_patterns_loop rt title rest
      | Dict d =>
          match dict_get d "title" with
          | Some (Dict title_patterns) =>
              if negb (dict_nonempty title_patterns) then
                _match_title_patterns_loop rt title rest
              else
                match _match_title_patterns_inner rt title d title_patterns with
                | Raise e => Raise e
                | Ok (Some r) => Ok (Some r)
                | Ok None => _match_title_patterns_loop rt title rest
                end
          | _ => _match_title_patterns_loop rt title rest
          end
      end
  end.

Definition _match_title_patterns (rt : Runtime) (title : string)
           (icons : dict Value) (cfg : IconConfig)
  : result (option IconResult) :=
  if negb (nonempty title) then Ok None
  else _match_title_patterns_loop rt title icons.

Definition is_alnum (c : ascii) : bool :=
  let n := code c in
  ((65 <=? n) && (n <=? 90)) || ((97 <=? n) && (n <=? 122))
  || ((48 <=? n) && (n <=? 57)).

(** The class [[^A-Za-z0-9._+-]] *)
Definition is_title_sep (c : ascii) : bool :=
  negb (is_alnum c
        || existsb (Ascii.eqb c) ["."%char; "_"%char; "+"%char; "-"%char]).

(** The class [[^A-Za-z0-9]] *)
Definition is_session_sep (c : ascii) : bool := negb (is_alnum c).

Definition simple_result (icon : string) (src : Source) : IconResult :=
  {| icon := Str icon; ring_color := None; icon_color := None;
     alert_color := None; source := src |}.

(** The [for token in tokens] loop of [_match_title_icons]. *)
Fixpoint _match_title_icons_tokens (tokens : list string)
         (title_icons : dict string) : option IconResult :=
  match tokens with
  | [] => None
  | token :: rest =>
      match dict_get title_icons token with
      | Some icon => Some (simple_result icon SrcTitleIcon)
      | None => _match_title_icons_tokens rest title_icons
      end
  end.

(** The [for keyword, icon in title_icons.items()] loop. *)
Fixpoint _match_title_icons_substr (title_lower : string)
         (title_icons : dict string) : option IconResult :=
  match title_icons with
  | [] => None
  | (keyword, icon) :: rest =>
      if contains (lower keyword) title_lower
      then Some (simple_result icon SrcTitleIcon)
      else _match_title_icons_substr title_lower rest
  end.

Definition _match_title_icons (title : string) (title_icons : dict string)
           (cfg : IconConfig) : option IconResult :=
  if negb (nonempty title) || negb (dict_nonempty title_icons) then None
  else
    let title_lower := lower title in
    let tokens := filter nonempty (split_runs is_title_sep title_lower) in
    match _match_title_icons_tokens tokens title_icons with
    | Some r => Some r
    | None => _match_title_icons_substr title_lower title_icons
    end.

(** The [for key, value in icons.items()] loop of [_match_process]. *)
Fixpoint _match_process_loop (process_lower : string) (icons : dict Value)
         (cfg : IconConfig) : option IconResult :=
  match icons with
  | [] => None
  | (key, value) :: rest =>
      if negb (String.eqb (lower key) process_lower) then
        _match_process_loop process_lower rest cfg
      else
        match value with
        | Str s => Some {| icon := Str s; ring_color := None;
                           icon_color := None; alert_color := None;
                           source := SrcProcess |}
        | Dict d =>
            Some {| icon := match dict_get d "icon" with
                            | Some v => v
                            | None => Str (fallback_icon cfg)
                            end;
                    ring_color := None;
                    icon_color := dict_get d "icon-color";
                    alert_color := None;
                    source := SrcProcess |}
        end
  end.

Definition _match_process (process : string) (icons : dict Value)
           (cfg : IconConfig) : option IconResult :=
  if negb (nonempty process) then None
  else _match_process_loop (lower process) icons cfg.

(** The inner [for key, icon in sessions.items()] loop of [_match_session]. *)
Fixpoint _match_session_keys (token : string) (sessions : dict string)
  : option IconResult :=
  match sessions with
  | [] => None
  | (key, icon) :: rest =>
      if String.eqb (lower key) token
      then Some (simple_result icon SrcSession)
      else _match_session_keys token rest
  end.

(** The [for token in tokens] loop of [_match_session]. *)
Fixpoint _match_session_tokens (tokens : list string)
         (sessions : dict string) : option IconResult :=
  match tokens with
  | [] => None
  | token :: rest =>
      match dict_get sessions token with
      | Some icon => Some (simple_result icon SrcSession)
      | None =>
          match _match_session_keys token sessions with
          | Some r => Some r
          | None => _match_session_tokens rest sessions
          end
      end
  end.

Definition _match_session (session : string) (sessions : dict string)
           (cfg : IconConfig) : option IconResult :=
  if negb (nonempty session) || negb (dict_nonempty sessions) then None
  else
    let session_lower := lower session in
    let tokens := filter nonempty (split_runs is_session_sep session_lower) in
    _match_session_tokens tokens sessions.

(** [effective_cmdline] of [resolve_icon] *)
Definition effective_cmdline (rt : Runtime) (cmdline : option string)
           (pane_pid : option Z) : option string :=
  match cmdline, pane_pid with
  | None, Some pid =>
      let cmdline_parts := get_foreground_cmdline rt pid in
      match cmdline_parts with
      | [] => None
      | _ => Some (join " " cmdline_parts)
      end
  | _, _ => cmdline
  end.

(** [ssh_host] of [resolve_icon] *)
Definition detect_ssh_host (effective : option string) : option string :=
  match effective with
  | Some c => if nonempty c then parse_ssh_host (CmdStr c) else None
  | None => None
  end.

(** [resolve_icon] after [get_config] has returned [config]: the six
    tiers.  The title patterns are the one tier that can raise. *)
Definition resolve_with (rt : Runtime) (config : ParsedConfig)
           (process title session : string) (cmdline : option string)
           (pane_pid : option Z) : result IconResult :=
  let cfg := YamlParser.config config in
  let ssh_host := detect_ssh_host (effective_cmdline rt cmdline pane_pid) in
  let tier1 :=
    match ssh_host with
    | Some h =>
        if prefer_host_icon cfg && nonempty h
        then _match_host h (hosts config) cfg
        else None
    | None => None
    end in
  match tier1 with
  | Some result => Ok result
  | None =>
  match _match_title_patterns rt title (icons config) cfg with
  | Raise e => Raise e
  | Ok (Some result) => Ok result
  | Ok None =>
  match _match_title_icons title (title_icons config) cfg with
  | Some result => Ok result
  | None =>
  match _match_process process (icons config) cfg with
  | Some result => Ok result
  | None =>
  match _match_session session (sessions config) cfg with
  | Some result => Ok result
  | None => Ok (simple_result (fallback_icon cfg) SrcFallback)
  end end end end end.

(** *** The match conditions of the tiers

    Each is the condition under which the tier's function returns a
    result, said without the loops. *)

Definition is_some {A : Type} (o : option A) : bool :=
  match o with Some _ => true | None => false end.

(** A key of [hosts] matches a lower-cased host name when, lower-cased, it
    equals it or matches it as a shell pattern. *)
Definition host_key_matches (host_lower pattern : string) : bool :=
  String.eqb (lower pattern) host_lower || fnmatch host_lower (lower pattern).

Definition host_tier_matches (rt : Runtime) (config : ParsedConfig)
           (cmdline : option string) (pane_pid : option Z) : bool :=
  prefer_host_icon (YamlParser.config config)
  && match detect_ssh_host (effective_cmdline rt cmdline pane_pid) with
     | Some h =>
         nonempty h
         && existsb (fun kv => host_key_matches (lower h) (fst kv))
                    (hosts config)
     | None => false
     end.

(** A pattern is tried when it has at most 500 characters, and matches when
    the search finds it in the title. *)
Definition pattern_matches (rt : Runtime) (title pattern : string) : bool :=
  (String.length pattern <=? _MAX_PATTERN_LENGTH)
  && match re_search rt pattern title with
     | Found => true
     | _ => false
     end.

(** The search of a pattern that is tried raises an exception other than
    [re.error]. *)
Definition pattern_raises (rt : Runtime) (title pattern : string) : bool :=
  (String.length pattern <=? _MAX_PATTERN_LENGTH)
  && match re_search rt pattern title with
     | SearchRaises _ => true
     | _ => false
     end.

Definition entry_title_matches (rt : Runtime) (title : string) (value : Value)
  : bool :=
  match value with
  | Str _ => false
  | Dict d =>
      match dict_get d "title" with
      | Some (Dict title_patterns) =>
          existsb (fun pv => pattern_matches rt title (fst pv)) title_patterns
      | _ => false
      end
  end.

(** The tier's condition in the code: the function returns at once for
    an empty title. *)
Definition title_pattern_tier_matches (rt : Runtime) (config : ParsedConfig)
           (title : string) : bool :=
  nonempty title
  && existsb (fun kv => entry_title_matches rt title (snd kv)) (icons config).

(** The tier's condition as the specification words it: some pattern of at
    most 500 characters of some entry is found in the title, whatever the
    title. *)
Definition title_pattern_tier_spec (rt : Runtime) (config : ParsedConfig)
           (title : string) : bool :=
  existsb (fun kv => entry_title_matches rt title (snd kv)) (icons config).

Definition entry_title_raises (rt : Runtime) (title : string) (value : Value)
  : bool :=
  match value with
  | Str _ => false
  | Dict d =>
      match dict_get d "title" with
      | Some (Dict title_patterns) =>
          existsb (fun pv => pattern_raises rt title (fst pv)) title_patterns
      | _ => false
      end
  end.

(** Some title pattern of the configuration makes the search raise on this
    title. *)
Definition title_search_raises (rt : Runtime) (config : ParsedConfig)
           (title : string) : bool :=
  existsb (fun kv => entry_title_raises rt title (snd kv)) (icons config).

Definition title_tokens (title : string) : list string :=
  filter nonempty (split_runs is_title_sep (lower title)).

Definition title_icon_tier_matches (config : ParsedConfig) (title : string)
  : bool :=
  nonempty title
  && dict_nonempty (title_icons config)
  && (existsb (dict_has (title_icons config)) (title_tokens title)
      || existsb (fun kv => contains (lower (fst kv)) (lower title))
                 (title_icons config)).

Definition process_tier_matches (config : ParsedConfig) (process : string)
  : bool :=
  nonempty process
  && existsb (fun kv => String.eqb (lower (fst kv)) (lower process))
             (icons config).

Definition session_tokens (session : string) : list string :=
  filter nonempty (split_runs is_session_sep (lower session)).

Definition session_tier_matches (config : ParsedConfig) (session : string)
  : bool :=
  nonempty session
  && dict_nonempty (sessions config)
  && existsb (fun token =>
                dict_has (sessions config) token
                || existsb (fun kv => String.eqb (lower (fst kv)) token)
                           (sessions config))
             (session_tokens session).

(** The optional result [o] is there exactly when [b] holds, and then its
    source is [s]. *)
Definition answers (o : option IconResult) (b : bool) (s : Source) : Prop :=
  is_some o = b /\ forall r, o = Some r -> source r = s.

(** The request of one resolution. *)
Record Request := mkRequest {
  req_process : string;
  req_title : string;
  req_session : string;
  req_cmdline : option string;
  req_pane_pid : option Z
}.

Definition tier_matches (rt : Runtime) (config : ParsedConfig) (rq : Request)
           (tier : Source) : bool :=
  match tier with
  | SrcHost =>
      host_tier_matches rt config (req_cmdline rq) (req_pane_pid rq)
  | SrcTitlePattern => title_pattern_tier_matches rt config (req_title rq)
  | SrcTitleIcon => title_icon_tier_matches config (req_title rq)
  | SrcProcess => process_tier_matches config (req_process rq)
  | SrcSession => session_tier_matches config (req_session rq)
  | SrcFallback => true
  end.

(** The fixed order of the tiers. *)
Definition tier_order : list Source :=
  [SrcHost; SrcTitlePattern; SrcTitleIcon; SrcProcess; SrcSession; SrcFallback].

(** The position of a tier in that order. *)
Definition tier_rank (tier : Source) : nat :=
  match tier with
  | SrcHost => 1
  | SrcTitlePattern => 2
  | SrcTitleIcon => 3
  | SrcProcess => 4
  | SrcSession => 5
  | SrcFallback => 6
  end.

(** The first tier, in that order, whose condition holds. *)
Definition first_matching_tier (rt : Runtime) (config : ParsedConfig)
           (rq : Request) : Source :=
  match List.find (tier_matches rt config rq) tier_order with
  | Some tier => tier
  | None => SrcFallback
  end.

(** [resolve_icon]: the result, or the exception of [get_config] or of
    the title patterns, and the globals after the call. *)
Definition resolve_icon (fs : FileSystem) (rt : Runtime) (st : Cache)
           (process title session : string) (cmdline : option string)
           (pane_pid : option Z) (config_path : string)
  : result IconResult * Cache :=
  match get_config fs st config_path with
  | (Raise e, st') => (Raise e, st')
  | (Ok config, st') =>
      (resolve_with rt config process title session cmdline pane_pid, st')
  end.

End IconResolver.

(** ** Concrete surroundings and inputs *)

Module Examples.
Import PyStr SshParser YamlParser IconResolver.

(** [expanduser] for a user whose home is [/home/user]. *)
Definition home_expanduser (p : string) : string :=
  if startswith p "~/" then ("/home/user/" ++ drop 2 p)%string else p.

(** A file system that holds one file. *)
Definition one_file_fs (name : string) (size mtime : Z) (content : string)
  : FileSystem :=
  {| expanduser := home_expanduser;
     getmtime := fun p => if String.eqb p name then Some mtime else None;
     getsize := fun p => if String.eqb p name then Some size else None;
     read_text := fun p => if String.eqb p name then Some content else None;
     recursion_depth := 900 |}.

(** A file system that holds no file. *)
Definition no_file_fs : FileSystem :=
  {| expanduser := home_expanduser;
     getmtime := fun _ => None;
     getsize := fun _ => None;
     read_text := fun _ => None;
     recursion_depth := 900 |}.

(** A file system whose one file can be sized but not read. *)
Definition unreadable_file_fs (name : string) (size : Z) : FileSystem :=
  {| expanduser := home_expanduser;
     getmtime := fun p => if String.eqb p name then Some 0%Z else None;
     getsize := fun p => if String.eqb p name then Some size else None;
     read_text := fun _ => None;
     recursion_depth := 900 |}.

(** The one-file system when the interpreter has [depth] nested calls
    left. *)
Definition shallow_stack_fs (depth : nat) (name : string) (size mtime : Z)
           (content : string) : FileSystem :=
  {| expanduser := home_expanduser;
     getmtime := fun p => if String.eqb p name then Some mtime else None;
     getsize := fun p => if String.eqb p name then Some size else None;
     read_text := fun p => if String.eqb p name then Some content else None;
     recursion_depth := depth |}.

(** A runtime whose search finds a pattern without special characters as
    a substring, case ignored, and whose panes run nothing. *)
Definition literal_runtime : Runtime :=
  {| re_search := fun pattern title =>
                    if contains (lower pattern) (lower title)
                    then Found else NotFound;
     str_of_dict := fun _ => "{}";
     get_foreground_cmdline := fun _ => [] |}.

(** The same runtime, which also knows three patterns with special
    characters: [.*] is found in every title, [(] does not compile, and the
    repeat count of [a{4294967295}] overflows. *)
Definition regex_runtime : Runtime :=
  {| re_search := fun pattern title =>
                    if String.eqb pattern ".*" then Found
                    else if String.eqb pattern "(" then PatternError
                    else if String.eqb pattern "a{4294967295}"
                         then SearchRaises OverflowError
                    else if contains (lower pattern) (lower title)
                         then Found else NotFound;
     str_of_dict := fun _ => "{}";
     get_foreground_cmdline := fun _ => [] |}.

(** A configuration with one title pattern. *)
Definition one_pattern_config (pattern : string) : string :=
  text ["config:";
        "  fallback-icon: F";
        "icons:";
        "  nvim:";
        "    icon: N";
        "    title:";
        ("      " ++ pattern ++ ": X")%string].

(** A configuration whose [icons] block nests [n] mappings below the entry
    [a]: line [i] is the key [a], indented by [i] spaces, and the last line
    gives [icon: N]. *)
Fixpoint nested_lines (indent n : nat) : list string :=
  match n with
  | O => [(replicate indent " "%char ++ "icon: N")%string]
  | S n' => (replicate indent " "%char ++ "a:")%string
            :: nested_lines (S indent) n'
  end.

Definition nested_config (n : nat) : string :=
  text ("icons:" :: nested_lines 1 n).

(** A configuration whose one title pattern has [n] characters; the
    pattern is on line 5. *)
Definition title_pattern_config (n : nat) : string :=
  text ["icons:";
        "  nvim:";
        "    icon: N";
        "    title:";
        ("      " ++ replicate n "a"%char ++ ": X")%string].

(** A configuration whose [config] block gives empty values. *)
Definition empty_values_config : string :=
  text ["config:";
        "  prefer-host-icon: ''";
        "  fallback-icon: ''";
        "  icon-color: ''   # none";
        "  show-name: yes"].

(** A configuration with detailed entries that have no [icon] key. *)
Definition no_icon_config : string :=
  text ["config:";
        "  fallback-icon: F";
        "icons:";
        "  nvim:";
        "    icon-color: '#00ff00'";
        "    ring-color: '#ff0000'";
        "    alert-color: '#0000ff'";
        "hosts:";
        "  *.local:";
        "    index-color: '#111111'";
        "    icon-color: '#222222'";
        "    alert-color: '#333333'";
        "  server.local: E";
        "title_icons:";
        "  htop: H";
        "sessions:";
        "  alpha: A"].

(** What the parser returns on a text with 900 nested calls left; the
    texts of this module are parsed with far fewer. *)
Definition parsed (content : string) : ParsedConfig :=
  match load_config_from_string 900 content with
  | Ok c => c
  | Raise _ =>
      {| config := IconConfig_default; icons := []; title_icons := [];
         sessions := []; hosts := [] |}
  end.

(** The globals after a load of [no_icon_config] from the default path at
    modification time 100. *)
Definition cached_config : ParsedConfig := parsed no_icon_config.

Definition cached_state : Cache :=
  {| _config_cache := Some cached_config;
     _config_mtime := 100%Z;
     _config_path_cache := "/home/user/.config/nerd-icons/config.yml" |}.

Definition default_path : string := "~/.config/nerd-icons/config.yml".
Definition default_path_expanded : string :=
  "/home/user/.config/nerd-icons/config.yml".

End Examples.

(** ** Notions the further properties are stated with *)

Module Notions.
Import PyStr SshParser YamlParser Fnmatch IconResolver.

(** What [lstrip] leaves is empty or starts with a character that is not
    whitespace. *)
Definition starts_clean (s : string) : Prop :=
  match s with
  | EmptyString => True
  | String c _ => is_space c = false
  end.

(** The parts of an item of a block. *)
Definition item_key (item : BlockItem) : string := fst (fst (fst item)).
Definition item_idx (item : BlockItem) : nat := snd (fst item).
Definition item_indent (item : BlockItem) : nat := snd item.

(** A line the parser passes over: blank, or a comment. *)
Definition is_skipped (raw : string) : bool :=
  negb (nonempty (strip raw)) || startswith (strip raw) "#".

(** A line that opens the block of [target_label], the label with its
    colon. *)
Definition is_header (target_label raw : string) : bool :=
  String.eqb (strip raw) target_label
  || startswith (strip raw) (target_label ++ " ")%string.

(** The item is what the line [raw] says: the line is not passed over,
    its indent is the item's, the text before its first colon, trimmed and
    unquoted, is the item's key and is not empty, and the text after the
    colon gives the item's value, inline or nested. *)
Definition item_from_line (raw : string) (item : BlockItem) : Prop :=
  is_skipped raw = false
  /\ item_indent item = _get_indent_level raw
  /\ item_key item <> EmptyString
  /\ exists key_part val_part,
       split_once ":" (strip raw) = Some (key_part, val_part)
       /\ item_key item = _normalize_yaml_key key_part false
       /\ item_value item
          = if _is_inline_yaml_value (strip val_part)
            then Some (_strip_yaml_value (strip val_part))
            else None.

(** What holds of the items a block yields from the lines after [pre]:
    each is what a line at its index says, the index is not in [pre], the
    indices ascend, and all items have one indent, the block's when it is
    already set. *)
Definition items_sound (pre rest : list string) (block_indent : option nat)
           (items : list BlockItem) : Prop :=
  Forall (fun item =>
            List.length pre <= item_idx item
            /\ exists raw,
                 nth_error (pre ++ rest) (item_idx item) = Some raw
                 /\ item_from_line raw item) items
  /\ StronglySorted lt (map item_idx items)
  /\ exists b,
       (forall b', block_indent = Some b' -> b = b')
       /\ Forall (fun item => item_indent item = b) items.

(** The line at index [i] belongs to a block below a key of indent
    [base]: it is passed over, or indented more than the key. *)
Definition inside_block (lines : list string) (base i : nat) : Prop :=
  exists raw,
    nth_error lines i = Some raw
    /\ (is_skipped raw = true \/ base < _get_indent_level raw).

(** The line at index [e] ends such a block: it is not passed over and is
    indented no more than the key. *)
Definition ends_block (lines : list string) (base e : nat) : Prop :=
  exists raw,
    nth_error lines e = Some raw
    /\ is_skipped raw = false
    /\ _get_indent_level raw <= base.

(** What the nested-block loop started at [idx] can give: a dictionary and
    an index that is not before [idx], or the recursion error. *)
Definition loop_outcome (idx : nat) (out : result (dict Value * nat)) : Prop :=
  match out with
  | Ok (_, idx') => idx <= idx'
  | Raise e => e = RecursionError
  end.

(** No line is indented by more than [depth] characters. *)
Definition shallow (depth : nat) (lines : list string) : bool :=
  forallb (fun raw => _get_indent_level raw <=? depth) lines.

(** A parsed value is well formed: a nested mapping is not empty, its keys
    are distinct and not empty, and its values are well formed. *)
Fixpoint well_formed (v : Value) : Prop :=
  match v with
  | Str _ => True
  | Dict d =>
      d <> []
      /\ NoDup (map fst d)
      /\ (fix all (l : list (string * Value)) : Prop :=
            match l with
            | [] => True
            | (k, v') :: l' => k <> EmptyString /\ well_formed v' /\ all l'
            end) d
  end.

Definition well_formed_dict (d : dict Value) : Prop :=
  NoDup (map fst d)
  /\ Forall (fun kv => fst kv <> EmptyString /\ well_formed (snd kv)) d.

(** The inline value of the last item with the key [key]. *)
Fixpoint last_inline (items : list BlockItem) (key : string)
  : option string :=
  match items with
  | [] => None
  | item :: rest =>
      match last_inline rest key with
      | Some v => Some v
      | None =>
          if String.eqb (item_key item) key then item_value item else None
      end
  end.

(** The item's key, normalised, is one of [keys]. *)
Definition names_setting (keys : list string) (item : BlockItem) : bool :=
  mem (norm_config_key (item_key item)) keys.

(** Every character of the string satisfies [P]. *)
Fixpoint all_chars (P : ascii -> bool) (s : string) : bool :=
  match s with
  | EmptyString => true
  | String c s' => P c && all_chars P s'
  end.

(** An argument as the process table gives it for a command typed without
    quoting: not empty and without whitespace. *)
Definition plain_arg (arg : string) : bool := nonempty arg && no_space arg.

(** The characters that make a shell pattern of a [hosts] key. *)
Definition is_glob_meta (c : ascii) : bool :=
  Ascii.eqb c "*"%char || Ascii.eqb c "?"%char || Ascii.eqb c "["%char.

(** A character that lower-casing leaves alone. *)
Definition is_lower_fixed (c : ascii) : bool := Ascii.eqb (lower_char c) c.

End Notions.

(** * Properties *)

(** ** Strings *)

Module PyStrFacts.
Import PyStr.

Lemma prefix_drop (sep s : string) :
  String.prefix sep s = true -> s = (sep ++ drop (String.length sep) s)%string.
Proof.
  revert s; induction sep as [|c sep IH]; intros s.
  - reflexivity.
  - destruct s as [|d s]; cbn [String.prefix]; [discriminate|].
    destruct (ascii_dec c d) as [->|]; [|discriminate].
    intros H. cbn [String.length drop String.append]. f_equal. now apply IH.
Qed.

Lemma split_once_app (sep s a b : string) :
  split_once sep s = Some (a, b) -> s = (a ++ sep ++ b)%string.
Proof.
  revert a b; induction s as [|c s IH]; intros a b; cbn [split_once].
  - destruct (String.prefix sep EmptyString) eqn:P; [|discriminate].
    intros H; injection H as <- <-. now apply prefix_drop.
  - destruct (String.prefix sep (String c s)) eqn:P.
    + intros H; injection H as <- <-. now apply prefix_drop.
    + destruct (split_once sep s) as [[a' b']|] eqn:E; [|discriminate].
      intros H; injection H as <- <-.
      cbn [String.append]. f_equal. now apply IH.
Qed.

Lemma substring_app_left (a x : string) :
  String.substring 0 (String.length a) (a ++ x) = a.
Proof.
  induction a as [|c a IH]; simpl.
  - now destruct x.
  - now rewrite IH.
Qed.

Lemma lstrip_no_space (s : string) : no_space s = true -> lstrip s = s.
Proof.
  destruct s as [|c s]; simpl; [reflexivity|].
  intros H. apply andb_prop in H as [H _].
  now destruct (is_space c).
Qed.

Lemma rstrip_no_space (s : string) : no_space s = true -> rstrip s = s.
Proof.
  induction s as [|c s IH]; simpl; [reflexivity|].
  intros H. apply andb_prop in H as [Hc Hs].
  rewrite (IH Hs). destruct s; [|reflexivity].
  now destruct (is_space c).
Qed.

Lemma strip_no_space (s : string) : no_space s = true -> strip s = s.
Proof.
  intros H. unfold strip. rewrite (lstrip_no_space _ H).
  now apply rstrip_no_space.
Qed.

Lemma no_space_drop (n : nat) (s : string) :
  no_space s = true -> no_space (drop n s) = true.
Proof.
  revert s; induction n as [|n IH]; intros s H; [exact H|].
  destruct s as [|c s]; [reflexivity|].
  simpl in *. apply andb_prop in H as [_ H]. now apply IH.
Qed.

Lemma no_space_split_once (sep s a b : string) :
  no_space s = true -> split_once sep s = Some (a, b) -> no_space b = true.
Proof.
  revert a b; induction s as [|c s IH]; intros a b H; cbn [split_once].
  - destruct (String.prefix sep EmptyString); [|discriminate].
    intros E; injection E as <- <-. now apply no_space_drop.
  - destruct (String.prefix sep (String c s)) eqn:P.
    + intros E; injection E as <- <-. now apply no_space_drop.
    + destruct (split_once sep s) as [[a' b']|] eqn:E'; [|discriminate].
      intros E; injection E as <- <-.
      cbn [no_space] in H. apply andb_prop in H as [_ H].
      now apply (IH a' b').
Qed.

End PyStrFacts.

(** ** The host command parser *)

Module SshParserFacts.
Import PyStr PyStrFacts SshParser.

Lemma startswith_bracket (h : string) :
  startswith h "[" = true -> exists r, h = String "["%char r.
Proof.
  unfold startswith.
  destruct h as [|c r]; cbn [String.prefix]; [discriminate|].
  destruct (ascii_dec "["%char c) as [<-|]; [|discriminate].
  now exists r.
Qed.

Lemma startswith_bracket_false (h : string) :
  startswith h "[" = false ->
  strip_brackets_or_port h =
  match split_once ":" h with Some (before, _) => before | None => h end.
Proof.
  destruct h as [|c r]; [reflexivity|].
  unfold startswith. cbn [String.prefix].
  destruct (ascii_dec "["%char c) as [<-|N].
  - intros H. destruct r; cbn [String.prefix] in H; discriminate.
  - intros _.
    destruct c as [[] [] [] [] [] [] [] []]; try reflexivity.
    now elim N.
Qed.

Lemma normalize_after_strip (h : string) :
  (if startswith h "[" then
     let bracket_end := find "]" h in
     if (0 <? bracket_end)%Z then slice h 1 bracket_end else drop 1 h
   else if contains ":" h then
     match split_once ":" h with Some (before, _) => before | None => h end
   else h) = strip_brackets_or_port h.
Proof.
  destruct (startswith h "[") eqn:B.
  - apply startswith_bracket in B as [r ->].
    cbn [strip_brackets_or_port]. unfold find.
    change (split_once "]" (String "["%char r))
      with (match split_once "]" r with
            | Some (a, b) => Some (String "["%char a, b)
            | None => None
            end).
    destruct (split_once "]" r) as [[a b]|] eqn:E.
    + cbn [String.length].
      replace (0 <? Z.of_nat (S (String.length a)))%Z with true
        by (symmetry; apply Z.ltb_lt; lia).
      unfold slice.
      replace (Z.to_nat (Z.of_nat (S (String.length a))) - Z.to_nat 1)
        with (String.length a) by lia.
      change (Z.to_nat 1) with 1. cbn [String.substring].
      rewrite (split_once_app _ _ _ _ E). apply substring_app_left.
    + reflexivity.
  - rewrite (startswith_bracket_false _ B). unfold contains.
    now destruct (split_once ":" h) as [[a b]|].
Qed.

Lemma normalize_hostname_steps (target : string) :
  _normalize_hostname target =
  lower (strip_brackets_or_port (strip (strip_user target))).
Proof.
  unfold _normalize_hostname. f_equal.
  apply (normalize_after_strip (strip (strip_user target))).
Qed.

Lemma strip_user_no_space (target : string) :
  no_space target = true -> no_space (strip_user target) = true.
Proof.
  intros H. unfold strip_user.
  destruct (split_once "@" target) as [[a b]|] eqn:E; [|exact H].
  exact (no_space_split_once _ _ _ _ H E).
Qed.

(** The normalisation trims what follows the user prefix before it looks
    for a bracket: an argument of a command line given as a sequence can
    hold a space there, and then the bracketed address is extracted where
    the steps without the trimming would cut at the first colon. *)
Lemma normalize_hostname_trims :
  _normalize_hostname "user@ [::1]:22" = "::1"
  /\ normalize_spec "user@ [::1]:22" = " ["
  /\ _normalize_hostname "user@ [::1]:22" <> normalize_spec "user@ [::1]:22"
  /\ parse_ssh_host (CmdSeq ["ssh"; "user@ [::1]:22"]) = Some "::1".
Proof.
  repeat split; try reflexivity. vm_compute. discriminate.
Qed.

(** C7, as the code has it.  Host normalisation: for every target
    specification the result is the lower-cased text obtained by dropping
    the user prefix up to the first [@], trimming surrounding whitespace,
    and then either extracting the bracketed address (up to the first
    closing bracket, or all that follows the opening bracket when there is
    none) or dropping everything from the first colon on.  On a target
    without whitespace, which is what splitting a command line string
    yields, the trimming changes nothing and the result is that of the
    steps without it.  The three examples of the specification hold. *)
Theorem normalize_hostname_spec :
  forall target : string,
    _normalize_hostname target =
      lower (strip_brackets_or_port (strip (strip_user target)))
    /\ (no_space target = true ->
        _normalize_hostname target = normalize_spec target)
    /\ _normalize_hostname "user@[2001:db8::1]:22" = "2001:db8::1"
    /\ _normalize_hostname "Example.COM" = "example.com"
    /\ _normalize_hostname "host:22" = "host"
    /\ _normalize_hostname "[2001:db8::1" = "2001:db8::1".
Proof.
  intros target. split; [apply normalize_hostname_steps|].
  split; [|repeat split; reflexivity].
  intros H. rewrite normalize_hostname_steps. unfold normalize_spec.
  now rewrite (strip_no_space _ (strip_user_no_space _ H)).
Qed.

Lemma normalize_hostname_spec_witness :
  no_space "Admin@[FE80::1]:2222" = true
  /\ _normalize_hostname "Admin@[FE80::1]:2222" = "fe80::1".
Proof.
  split; [reflexivity|].
  rewrite (proj1 (proj2 (normalize_hostname_spec "Admin@[FE80::1]:2222")));
    reflexivity.
Defined.

(** C6.  Host command recognition.  A command line whose first argument's
    basename is not one of ssh, slogin, mosh, mosh-client (or that has no
    argument at all) gives no host.  For a recognised command the host is the
    normalised first positional argument, found by this scan: [--] makes the
    next token the positional one; a flag that takes a value is skipped with
    the token after it; any other token that starts with a dash is skipped
    alone; the first other token is the positional argument.  The three
    examples of the specification hold. *)
Theorem parse_ssh_host_spec :
  forall (cmdline : Cmdline) (arg : string) (rest : list string),
    (argv_of cmdline = [] -> parse_ssh_host cmdline = None)
    /\ (forall argv0 args,
          argv_of cmdline = argv0 :: args ->
          mem (basename argv0) _SSH_COMMANDS = false ->
          parse_ssh_host cmdline = None)
    /\ (forall argv0 args,
          argv_of cmdline = argv0 :: args ->
          mem (basename argv0) _SSH_COMMANDS = true ->
          parse_ssh_host cmdline =
            match _take_first_non_option args with
            | Some target =>
                if nonempty target then Some (_normalize_hostname target)
                else None
            | None => None
            end)
    /\ _take_first_non_option [] = None
    /\ (arg = "--" -> _take_first_non_option (arg :: rest) = hd_error rest)
    /\ (arg <> "--" -> startswith arg "-" = true ->
        mem arg _SSH_OPTIONS_WITH_ARG = true ->
        _take_first_non_option (arg :: rest) =
          _take_first_non_option (tl rest))
    /\ (arg <> "--" -> startswith arg "-" = true ->
        mem arg _SSH_OPTIONS_WITH_ARG = false ->
        _take_first_non_option (arg :: rest) = _take_first_non_option rest)
    /\ (startswith arg "-" = false ->
        _take_first_non_option (arg :: rest) = Some arg)
    /\ parse_ssh_host (CmdStr "ssh -i ~/.ssh/key -p 2222 server.local")
         = Some "server.local"
    /\ parse_ssh_host (CmdStr "vim file.txt") = None
    /\ parse_ssh_host (CmdStr "mosh user@10.0.0.1") = Some "10.0.0.1".
Proof.
  intros cmdline arg rest.
  split; [intros H; unfold parse_ssh_host; now rewrite H|].
  split; [intros a0 args H M; unfold parse_ssh_host; now rewrite H, M|].
  split.
  { intros a0 args H M. unfold parse_ssh_host. rewrite H, M. simpl.
    destruct (_take_first_non_option args) as [t|]; [|reflexivity].
    now destruct (nonempty t). }
  split; [reflexivity|].
  split.
  { intros ->. now destruct rest. }
  split.
  { intros N D M. cbn [_take_first_non_option].
    apply String.eqb_neq in N. rewrite N, D, M. now destruct rest. }
  split.
  { intros N D M. cbn [_take_first_non_option].
    apply String.eqb_neq in N. rewrite N, D, M.
    now destruct (has_attached_value arg). }
  split.
  { intros D. cbn [_take_first_non_option]. rewrite D.
    destruct (String.eqb_spec arg "--") as [->|]; [discriminate|reflexivity]. }
  repeat split; reflexivity.
Qed.

Lemma parse_ssh_host_spec_witness :
  parse_ssh_host (CmdSeq ["/usr/bin/slogin"; "-4"; "-l"; "root"; "-p22";
                          "Gate.Example.ORG:22"; "uptime"])
  = Some "gate.example.org".
Proof.
  pose proof (parse_ssh_host_spec
                (CmdSeq ["/usr/bin/slogin"; "-4"; "-l"; "root"; "-p22";
                         "Gate.Example.ORG:22"; "uptime"])
                "-l" ["root"; "-p22"; "Gate.Example.ORG:22"; "uptime"])
    as (_ & _ & H & _ & _ & Hopt & _).
  rewrite (H "/usr/bin/slogin"
             ["-4"; "-l"; "root"; "-p22"; "Gate.Example.ORG:22"; "uptime"]
             eq_refl eq_refl).
  reflexivity.
Defined.

End SshParserFacts.

(** ** The configuration parser *)

Module YamlParserFacts.
Import PyStr YamlParser Examples Notions.

(** *** Dictionaries *)

Lemma dict_get_set_same {V : Type} (d : dict V) (k : string) (v : V) :
  dict_get (dict_set d k v) k = Some v.
Proof.
  induction d as [|[k' v'] d IH]; cbn [dict_set dict_get].
  - now rewrite String.eqb_refl.
  - destruct (String.eqb k' k) eqn:E; cbn [dict_get]; now rewrite E.
Qed.

Lemma dict_get_set_other {V : Type} (d : dict V) (k k' : string) (v : V) :
  k <> k' -> dict_get (dict_set d k v) k' = dict_get d k'.
Proof.
  intros N. induction d as [|[k0 v0] d IH]; cbn [dict_set dict_get].
  - apply String.eqb_neq in N. now rewrite N.
  - destruct (String.eqb k0 k) eqn:E; cbn [dict_get].
    + apply String.eqb_eq in E. subst k0.
      apply String.eqb_neq in N. now rewrite N.
    + now rewrite IH.
Qed.

Lemma dict_set_keys {V : Type} (d : dict V) (k : string) (v : V) :
  map fst (dict_set d k v)
  = if dict_has d k then map fst d else map fst d ++ [k].
Proof.
  unfold dict_has.
  induction d as [|[k' v'] d IH]; cbn [dict_set dict_get map fst app];
    [reflexivity|].
  destruct (String.eqb k' k) eqn:E; cbn [map fst]; [reflexivity|].
  rewrite IH. now destruct (dict_get d k).
Qed.

Lemma dict_has_In {V : Type} (d : dict V) (k : string) :
  dict_has d k = false -> ~ In k (map fst d).
Proof.
  unfold dict_has.
  induction d as [|[k' v'] d IH]; cbn [dict_get map fst In]; [tauto|].
  destruct (String.eqb_spec k' k) as [->|N]; [discriminate|].
  intros H [E|Hin]; [now elim N|now apply IH].
Qed.

(** Assignment keeps the keys of a dictionary distinct and in place. *)
Lemma dict_set_NoDup {V : Type} (d : dict V) (k : string) (v : V) :
  NoDup (map fst d) -> NoDup (map fst (dict_set d k v)).
Proof.
  intros H. rewrite dict_set_keys.
  destruct (dict_has d k) eqn:E; [exact H|].
  apply NoDup_app; [exact H|repeat constructor; intros []|].
  intros x Hx [Hk|[]]. subst x. exact (dict_has_In d k E Hx).
Qed.

Lemma fold_simple_NoDup (items : list BlockItem) :
  forall result : dict string,
    NoDup (map fst result) ->
    NoDup (map fst (fold_left _parse_simple_entry items result)).
Proof.
  induction items as [|[[[key value] line_idx] indent] items IH];
    intros result H; cbn [fold_left]; [exact H|].
  apply IH. destruct value; cbn [_parse_simple_entry];
    [now apply dict_set_NoDup|exact H].
Qed.

(** *** The loop over the items of a nested section *)

Lemma fold_nested_raise (depth : nat) (lines : list string)
      (items : list BlockItem) (e : Exception) :
  fold_left (fun acc item =>
               result <- acc ;; _parse_nested_entry depth lines result item)
            items (Raise e) = Raise e.
Proof.
  induction items as [|item items IH]; cbn [fold_left bind]; [reflexivity|].
  exact IH.
Qed.

(** What a nested section returns was built from the empty dictionary by
    assignments, each entry's step having returned. *)
Lemma fold_nested_inv (P : dict Value -> Prop) (depth : nat)
      (lines : list string) :
  (forall result item result',
      P result -> _parse_nested_entry depth lines result item = Ok result' ->
      P result') ->
  forall (items : list BlockItem) (result out : dict Value),
    P result ->
    fold_left (fun acc item =>
                 result <- acc ;; _parse_nested_entry depth lines result item)
              items (Ok result) = Ok out ->
    P out.
Proof.
  intros Hstep. induction items as [|item items IH]; intros result out HP;
    cbn [fold_left bind].
  - intros [= <-]. exact HP.
  - destruct (_parse_nested_entry depth lines result item) as [result'|e]
      eqn:E.
    + apply IH. exact (Hstep _ _ _ HP E).
    + rewrite fold_nested_raise. discriminate.
Qed.

Lemma _parse_nested_entry_NoDup (depth : nat) (lines : list string)
      (result : dict Value) (item : BlockItem) (result' : dict Value) :
  NoDup (map fst result) ->
  _parse_nested_entry depth lines result item = Ok result' ->
  NoDup (map fst result').
Proof.
  destruct item as [[[key value] line_idx] indent].
  intros H. cbn [_parse_nested_entry]. destruct value.
  - intros [= <-]. now apply dict_set_NoDup.
  - destruct (_parse_nested_block depth lines (line_idx + 1) indent)
      as [parsed|e]; cbn [bind]; [|discriminate].
    intros [= <-].
    destruct (dict_nonempty _); [now apply dict_set_NoDup|exact H].
Qed.

(** The four mappings of a parsed configuration have distinct keys. *)
Lemma load_config_from_string_keys (depth : nat) (content : string)
      (c : ParsedConfig) :
  load_config_from_string depth content = Ok c ->
  NoDup (map fst (icons c)) /\ NoDup (map fst (title_icons c))
  /\ NoDup (map fst (sessions c)) /\ NoDup (map fst (hosts c)).
Proof.
  unfold load_config_from_string, _parse_nested_section.
  destruct (fold_left _ (_iter_yaml_block (splitlines content) "icons") _)
    as [i|e] eqn:Ei; cbn [bind]; [|discriminate].
  destruct (fold_left _ (_iter_yaml_block (splitlines content) "hosts") _)
    as [h|e] eqn:Eh; cbn [bind]; [|discriminate].
  intros [= <-]. cbn [icons title_icons sessions hosts].
  split; [|split; [|split]].
  - refine (fold_nested_inv (fun d => NoDup (map fst d)) depth _ _ _ _ _ _ Ei);
      [intros; eapply _parse_nested_entry_NoDup; eassumption|constructor].
  - apply fold_simple_NoDup; constructor.
  - apply fold_simple_NoDup; constructor.
  - refine (fold_nested_inv (fun d => NoDup (map fst d)) depth _ _ _ _ _ _ Eh);
      [intros; eapply _parse_nested_entry_NoDup; eassumption|constructor].
Qed.

(** *** The nested-block loop returns or raises *)

Lemma loop_outcome_le (idx idx' : nat) (out : YamlParser.result (dict Value * nat)) :
  idx <= idx' -> loop_outcome idx' out -> loop_outcome idx out.
Proof.
  destruct out as [[r i]|e]; cbn [loop_outcome]; [lia|tauto].
Qed.

(** With more fuel than there are lines from [idx] on, the loop ends: it
    returns at an index that is not before [idx], or raises the recursion
    error. *)
Lemma _parse_nested_block_loop_returns (lines : list string) :
  forall (fuel depth base_indent : nat) (block_indent : option nat)
         (result : dict Value) (idx : nat),
    List.length lines - idx < fuel ->
    exists out,
      _parse_nested_block_loop fuel depth lines base_indent block_indent
                               result idx = Some out
      /\ loop_outcome idx out.
Proof.
  induction fuel as [|fuel IH]; intros depth base bi result idx Hfuel; [lia|].
  cbn [_parse_nested_block_loop].
  destruct (nth_error lines idx) as [raw|] eqn:Hnth;
    [|exists (Ok (result, idx)); split; [reflexivity|cbn; lia]].
  assert (Hlt : idx < List.length lines)
    by (apply nth_error_Some; congruence).
  assert (Hnext : forall base' bi' r',
             exists out,
               _parse_nested_block_loop fuel depth lines base' bi' r' (S idx)
                 = Some out
               /\ loop_outcome idx out).
  { intros base' bi' r'.
    destruct (IH depth base' bi' r' (S idx)) as (out & E & Ho); [lia|].
    exists out. split; [exact E|].
    apply (loop_outcome_le idx (S idx)); [lia|exact Ho]. }
  destruct (negb (nonempty (strip raw)) || startswith (strip raw) "#");
    [apply Hnext|].
  destruct (_get_indent_level raw <=? base);
    [exists (Ok (result, idx)); split; [reflexivity|cbn; lia]|].
  destruct (_ <? _get_indent_level raw); [apply Hnext|].
  destruct (negb (contains ":" (strip raw))); [apply Hnext|].
  destruct (split_once ":" (strip raw)) as [[key_part val_part]|];
    [|apply Hnext].
  destruct (negb (nonempty (_normalize_yaml_key key_part false)));
    [apply Hnext|].
  destruct (_is_inline_yaml_value (strip val_part)); [apply Hnext|].
  destruct depth as [|depth];
    [exists (Raise RecursionError); split; reflexivity|].
  destruct (IH depth (_get_indent_level raw) None [] (S idx))
    as (out1 & E1 & Ho1); [lia|].
  rewrite E1. destruct out1 as [[nested idx1]|e].
  - cbn [loop_outcome] in Ho1.
    match goal with
    | |- exists out, _parse_nested_block_loop fuel ?d lines base ?b ?res idx1
                     = _ /\ _ =>
        destruct (IH d base b res idx1) as (out & E & Ho); [lia|]
    end.
    exists out. split; [exact E|].
    apply (loop_outcome_le idx idx1); [lia|exact Ho].
  - exists (Raise e). split; [reflexivity|exact Ho1].
Qed.

(** More fuel does not change what the loop gives. *)
Lemma _parse_nested_block_loop_fuel_mono (lines : list string) :
  forall (fuel fuel' depth base_indent : nat) (block_indent : option nat)
         (result : dict Value) (idx : nat) (out : YamlParser.result (dict Value * nat)),
    _parse_nested_block_loop fuel depth lines base_indent block_indent
                             result idx = Some out ->
    fuel <= fuel' ->
    _parse_nested_block_loop fuel' depth lines base_indent block_indent
                             result idx = Some out.
Proof.
  induction fuel as [|fuel IH];
    intros fuel' depth base bi result idx out H Hle; [discriminate|].
  destruct fuel' as [|fuel']; [lia|].
  assert (Hf : fuel <= fuel') by lia.
  revert H. cbn [_parse_nested_block_loop].
  destruct (nth_error lines idx) as [raw|]; [|exact (fun H => H)].
  destruct (negb (nonempty (strip raw)) || startswith (strip raw) "#");
    [intros H; exact (IH _ _ _ _ _ _ _ H Hf)|].
  destruct (_get_indent_level raw <=? base); [exact (fun H => H)|].
  destruct (_ <? _get_indent_level raw);
    [intros H; exact (IH _ _ _ _ _ _ _ H Hf)|].
  destruct (negb (contains ":" (strip raw)));
    [intros H; exact (IH _ _ _ _ _ _ _ H Hf)|].
  destruct (split_once ":" (strip raw)) as [[key_part val_part]|];
    [|intros H; exact (IH _ _ _ _ _ _ _ H Hf)].
  destruct (negb (nonempty (_normalize_yaml_key key_part false)));
    [intros H; exact (IH _ _ _ _ _ _ _ H Hf)|].
  destruct (_is_inline_yaml_value (strip val_part));
    [intros H; exact (IH _ _ _ _ _ _ _ H Hf)|].
  destruct depth as [|depth]; [exact (fun H => H)|].
  destruct (_parse_nested_block_loop fuel depth lines (_get_indent_level raw)
                                     None [] (S idx))
    as [out1|] eqn:E1; [|discriminate].
  rewrite (IH _ _ _ _ _ _ _ E1 Hf).
  destruct out1 as [[nested idx1]|e]; [|exact (fun H => H)].
  intros H; exact (IH _ _ _ _ _ _ _ H Hf).
Qed.

(** What the loop returns with some depth left, it returns with more. *)
Lemma _parse_nested_block_loop_depth_mono (lines : list string) :
  forall (fuel depth depth' base_indent : nat) (block_indent : option nat)
         (result : dict Value) (idx : nat) (out : dict Value * nat),
    _parse_nested_block_loop fuel depth lines base_indent block_indent
                             result idx = Some (Ok out) ->
    depth <= depth' ->
    _parse_nested_block_loop fuel depth' lines base_indent block_indent
                             result idx = Some (Ok out).
Proof.
  induction fuel as [|fuel IH];
    intros depth depth' base bi result idx out H Hle; [discriminate|].
  revert H. cbn [_parse_nested_block_loop].
  destruct (nth_error lines idx) as [raw|]; [|exact (fun H => H)].
  destruct (negb (nonempty (strip raw)) || startswith (strip raw) "#");
    [intros H; exact (IH _ _ _ _ _ _ _ H Hle)|].
  destruct (_get_indent_level raw <=? base); [exact (fun H => H)|].
  destruct (_ <? _get_indent_level raw);
    [intros H; exact (IH _ _ _ _ _ _ _ H Hle)|].
  destruct (negb (contains ":" (strip raw)));
    [intros H; exact (IH _ _ _ _ _ _ _ H Hle)|].
  destruct (split_once ":" (strip raw)) as [[key_part val_part]|];
    [|intros H; exact (IH _ _ _ _ _ _ _ H Hle)].
  destruct (negb (nonempty (_normalize_yaml_key key_part false)));
    [intros H; exact (IH _ _ _ _ _ _ _ H Hle)|].
  destruct (_is_inline_yaml_value (strip val_part));
    [intros H; exact (IH _ _ _ _ _ _ _ H Hle)|].
  destruct depth as [|depth]; [discriminate|].
  destruct depth' as [|depth']; [lia|].
  assert (Hd : depth <= depth') by lia.
  destruct (_parse_nested_block_loop fuel depth lines (_get_indent_level raw)
                                     None [] (S idx))
    as [[[nested idx1]|e]|] eqn:E1; [|discriminate|discriminate].
  rewrite (IH _ _ _ _ _ _ _ E1 Hd).
  intros H; exact (IH _ _ _ _ _ _ _ H Hle).
Qed.

(** When no line is indented by more than [base_indent + depth]
    characters, the loop does not run out of depth: it returns. *)
Lemma _parse_nested_block_loop_shallow (lines : list string) :
  forall (fuel depth base_indent : nat) (block_indent : option nat)
         (result : dict Value) (idx : nat),
    (forall raw, In raw lines -> _get_indent_level raw <= base_indent + depth) ->
    List.length lines - idx < fuel ->
    exists r idx',
      _parse_nested_block_loop fuel depth lines base_indent block_indent
                               result idx = Some (Ok (r, idx'))
      /\ idx <= idx'.
Proof.
  induction fuel as [|fuel IH];
    intros depth base bi result idx Hin Hfuel; [lia|].
  cbn [_parse_nested_block_loop].
  destruct (nth_error lines idx) as [raw|] eqn:Hnth;
    [|exists result, idx; split; [reflexivity|lia]].
  assert (Hlt : idx < List.length lines)
    by (apply nth_error_Some; congruence).
  pose proof (Hin raw (nth_error_In _ _ Hnth)) as Hraw.
  assert (Hnext : forall bi' r',
             exists r idx',
               _parse_nested_block_loop fuel depth lines base bi' r' (S idx)
                 = Some (Ok (r, idx'))
               /\ idx <= idx').
  { intros bi' r'.
    destruct (IH depth base bi' r' (S idx) Hin) as (r & idx' & E & Ho); [lia|].
    exists r, idx'. split; [exact E|lia]. }
  destruct (negb (nonempty (strip raw)) || startswith (strip raw) "#");
    [apply Hnext|].
  destruct (Nat.leb_spec (_get_indent_level raw) base) as [Hb|Hb];
    [exists result, idx; split; [reflexivity|lia]|].
  destruct (_ <? _get_indent_level raw); [apply Hnext|].
  destruct (negb (contains ":" (strip raw))); [apply Hnext|].
  destruct (split_once ":" (strip raw)) as [[key_part val_part]|];
    [|apply Hnext].
  destruct (negb (nonempty (_normalize_yaml_key key_part false)));
    [apply Hnext|].
  destruct (_is_inline_yaml_value (strip val_part)); [apply Hnext|].
  destruct depth as [|depth]; [lia|].
  destruct (IH depth (_get_indent_level raw) None [] (S idx))
    as (nested & idx1 & E1 & Hle1);
    [intros raw' Hraw'; specialize (Hin raw' Hraw'); lia|lia|].
  rewrite E1.
  match goal with
  | |- exists r idx', _parse_nested_block_loop fuel ?d lines base ?b ?res idx1
                      = _ /\ _ =>
      destruct (IH d base b res idx1 Hin) as (r & idx' & E & Hle); [lia|]
  end.
  exists r, idx'. split; [exact E|lia].
Qed.

(** [_parse_nested_block] is what the loop gives: the fuel it is given is
    enough.  It returns at an index that is not before the start, or raises
    the recursion error. *)
Lemma _parse_nested_block_returns (depth : nat) (lines : list string)
      (start_idx base_indent : nat) :
  _parse_nested_block_loop (S (List.length lines)) depth lines base_indent
                           None [] start_idx
    = Some (_parse_nested_block depth lines start_idx base_indent)
  /\ loop_outcome start_idx
                  (_parse_nested_block depth lines start_idx base_indent).
Proof.
  unfold _parse_nested_block.
  destruct (_parse_nested_block_loop_returns lines (S (List.length lines))
              depth base_indent None [] start_idx) as (out & E & Ho); [lia|].
  rewrite E. split; [reflexivity|exact Ho].
Qed.

Lemma _parse_nested_block_depth_mono (depth depth' : nat)
      (lines : list string) (start_idx base_indent : nat)
      (out : dict Value * nat) :
  _parse_nested_block depth lines start_idx base_indent = Ok out ->
  depth <= depth' ->
  _parse_nested_block depth' lines start_idx base_indent = Ok out.
Proof.
  intros H Hle.
  pose proof (proj1 (_parse_nested_block_returns depth lines start_idx
                                                 base_indent)) as E.
  rewrite H in E.
  unfold _parse_nested_block.
  now rewrite (_parse_nested_block_loop_depth_mono _ _ _ _ _ _ _ _ _ E Hle).
Qed.

Lemma _parse_nested_block_shallow (depth : nat) (lines : list string)
      (start_idx base_indent : nat) :
  (forall raw, In raw lines -> _get_indent_level raw <= depth) ->
  exists out, _parse_nested_block depth lines start_idx base_indent = Ok out.
Proof.
  intros Hin. unfold _parse_nested_block.
  destruct (_parse_nested_block_loop_shallow lines (S (List.length lines))
              depth base_indent None [] start_idx) as (r & idx' & E & _);
    [intros raw Hraw; specialize (Hin raw Hraw); lia|lia|].
  rewrite E. now exists (r, idx').
Qed.

(** *** A section and a configuration: returned, or the recursion error *)

Lemma _parse_nested_entry_raises (depth : nat) (lines : list string)
      (result : dict Value) (item : BlockItem) (e : Exception) :
  _parse_nested_entry depth lines result item = Raise e ->
  e = RecursionError.
Proof.
  destruct item as [[[key value] line_idx] indent].
  cbn [_parse_nested_entry]. destruct value; [discriminate|].
  pose proof (proj2 (_parse_nested_block_returns depth lines (line_idx + 1)
                                                 indent)) as Ho.
  destruct (_parse_nested_block depth lines (line_idx + 1) indent)
    as [parsed|e']; cbn [bind]; [discriminate|].
  intros [= <-]. exact Ho.
Qed.

Lemma _parse_nested_entry_depth_mono (depth depth' : nat)
      (lines : list string) (result : dict Value) (item : BlockItem)
      (result' : dict Value) :
  _parse_nested_entry depth lines result item = Ok result' ->
  depth <= depth' ->
  _parse_nested_entry depth' lines result item = Ok result'.
Proof.
  destruct item as [[[key value] line_idx] indent].
  cbn [_parse_nested_entry]. destruct value; [tauto|].
  destruct (_parse_nested_block depth lines (line_idx + 1) indent)
    as [parsed|e] eqn:E; cbn [bind]; [|discriminate].
  intros H Hle.
  now rewrite (_parse_nested_block_depth_mono _ _ _ _ _ _ E Hle).
Qed.

Lemma _parse_nested_entry_shallow (depth : nat) (lines : list string)
      (result : dict Value) (item : BlockItem) :
  (forall raw, In raw lines -> _get_indent_level raw <= depth) ->
  exists result', _parse_nested_entry depth lines result item = Ok result'.
Proof.
  intros Hin. destruct item as [[[key value] line_idx] indent].
  cbn [_parse_nested_entry]. destruct value; [eexists; reflexivity|].
  destruct (_parse_nested_block_shallow depth lines (line_idx + 1) indent Hin)
    as (out & ->).
  cbn [bind]. eexists; reflexivity.
Qed.

Lemma _parse_nested_section_raises (depth : nat) (lines : list string)
      (section : string) (e : Exception) :
  _parse_nested_section depth lines section = Raise e -> e = RecursionError.
Proof.
  unfold _parse_nested_section.
  generalize (_iter_yaml_block lines section) as items.
  generalize (@nil (string * Value)) as result.
  intros result items. revert result.
  induction items as [|item items IH]; intros result; cbn [fold_left bind];
    [discriminate|].
  destruct (_parse_nested_entry depth lines result item) as [result'|e']
    eqn:E.
  - apply IH.
  - rewrite fold_nested_raise. intros [= <-].
    exact (_parse_nested_entry_raises _ _ _ _ _ E).
Qed.

Lemma _parse_nested_section_depth_mono (depth depth' : nat)
      (lines : list string) (section : string) (d : dict Value) :
  _parse_nested_section depth lines section = Ok d ->
  depth <= depth' ->
  _parse_nested_section depth' lines section = Ok d.
Proof.
  unfold _parse_nested_section. intros H Hle. revert H.
  generalize (_iter_yaml_block lines section) as items.
  generalize (@nil (string * Value)) as result.
  intros result items. revert result.
  induction items as [|item items IH]; intros result; cbn [fold_left bind];
    [tauto|].
  destruct (_parse_nested_entry depth lines result item) as [result'|e]
    eqn:E.
  - rewrite (_parse_nested_entry_depth_mono _ _ _ _ _ _ E Hle). apply IH.
  - rewrite fold_nested_raise. discriminate.
Qed.

Lemma _parse_nested_section_shallow (depth : nat) (lines : list string)
      (section : string) :
  (forall raw, In raw lines -> _get_indent_level raw <= depth) ->
  exists d, _parse_nested_section depth lines section = Ok d.
Proof.
  intros Hin. unfold _parse_nested_section.
  generalize (_iter_yaml_block lines section) as items.
  generalize (@nil (string * Value)) as result.
  intros result items. revert result.
  induction items as [|item items IH]; intros result; cbn [fold_left bind];
    [eexists; reflexivity|].
  destruct (_parse_nested_entry_shallow depth lines result item Hin)
    as (result' & ->).
  apply IH.
Qed.

(** The parser raises nothing but the recursion error. *)
Lemma load_config_from_string_raises (depth : nat) (content : string)
      (e : Exception) :
  load_config_from_string depth content = Raise e -> e = RecursionError.
Proof.
  unfold load_config_from_string.
  destruct (_parse_nested_section depth (splitlines content) "icons")
    as [i|e1] eqn:Ei; cbn [bind].
  - destruct (_parse_nested_section depth (splitlines content) "hosts")
      as [h|e2] eqn:Eh; cbn [bind]; [discriminate|].
    intros [= <-]. exact (_parse_nested_section_raises _ _ _ _ Eh).
  - intros [= <-]. exact (_parse_nested_section_raises _ _ _ _ Ei).
Qed.

(** What the parser returns with some depth left, it returns with more. *)
Lemma load_config_from_string_depth_mono (depth depth' : nat)
      (content : string) (c : ParsedConfig) :
  load_config_from_string depth content = Ok c ->
  depth <= depth' ->
  load_config_from_string depth' content = Ok c.
Proof.
  unfold load_config_from_string. intros H Hle. revert H.
  destruct (_parse_nested_section depth (splitlines content) "icons")
    as [i|e1] eqn:Ei; cbn [bind]; [|discriminate].
  destruct (_parse_nested_section depth (splitlines content) "hosts")
    as [h|e2] eqn:Eh; cbn [bind]; [|discriminate].
  rewrite (_parse_nested_section_depth_mono _ _ _ _ _ Ei Hle).
  rewrite (_parse_nested_section_depth_mono _ _ _ _ _ Eh Hle).
  cbn [bind]. tauto.
Qed.

Lemma shallow_In (depth : nat) (lines : list string) :
  shallow depth lines = true ->
  forall raw, In raw lines -> _get_indent_level raw <= depth.
Proof.
  unfold shallow. rewrite forallb_forall. intros H raw Hraw.
  apply Nat.leb_le. now apply H.
Qed.

(** The parser returns when no line of the text is indented by more than
    [depth] characters. *)
Lemma load_config_from_string_shallow (depth : nat) (content : string) :
  shallow depth (splitlines content) = true ->
  exists c, load_config_from_string depth content = Ok c.
Proof.
  intros Hsh. pose proof (shallow_In _ _ Hsh) as Hin.
  unfold load_config_from_string.
  destruct (_parse_nested_section_shallow depth _ "icons" Hin) as (i & ->).
  destruct (_parse_nested_section_shallow depth _ "hosts" Hin) as (h & ->).
  cbn [bind]. eexists; reflexivity.
Qed.

(** Two parses of one text that both return, return the same. *)
Lemma load_config_from_string_agree (depth1 depth2 : nat) (content : string)
      (c1 c2 : ParsedConfig) :
  load_config_from_string depth1 content = Ok c1 ->
  load_config_from_string depth2 content = Ok c2 ->
  c1 = c2.
Proof.
  intros H1 H2.
  pose proof (load_config_from_string_depth_mono _ (Nat.max depth1 depth2)
                _ _ H1 (Nat.le_max_l _ _)) as E1.
  pose proof (load_config_from_string_depth_mono _ (Nat.max depth1 depth2)
                _ _ H2 (Nat.le_max_r _ _)) as E2.
  congruence.
Qed.

(** *** Mappings nested deeper than the recursion depth *)

Lemma append_empty_right (s : string) : (s ++ EmptyString)%string = s.
Proof. induction s as [|c s IH]; cbn [append]; [reflexivity|now rewrite IH]. Qed.

Lemma append_assoc_string (a b c : string) :
  ((a ++ b) ++ c)%string = (a ++ (b ++ c))%string.
Proof. induction a as [|x a IH]; cbn [append]; [reflexivity|now rewrite IH]. Qed.

Lemma length_append_string (a b : string) :
  String.length (a ++ b) = String.length a + String.length b.
Proof. induction a as [|x a IH]; cbn [append String.length]; [reflexivity|now rewrite IH]. Qed.

Lemma length_replicate (k : nat) (c : ascii) : String.length (replicate k c) = k.
Proof. induction k as [|k IH]; cbn [replicate String.length]; [reflexivity|now rewrite IH]. Qed.

Lemma lstrip_replicate (k : nat) (s : string) :
  lstrip (replicate k " "%char ++ s) = lstrip s.
Proof. induction k as [|k IH]; [reflexivity|exact IH]. Qed.

Lemma indent_replicate (k : nat) (s : string) :
  lstrip s = s -> _get_indent_level (replicate k " "%char ++ s) = k.
Proof.
  intros H. unfold _get_indent_level.
  rewrite lstrip_replicate, H, length_append_string, length_replicate. lia.
Qed.

Lemma strip_replicate (k : nat) (s : string) :
  strip (replicate k " "%char ++ s) = strip s.
Proof. unfold strip. now rewrite lstrip_replicate. Qed.

Lemma text_cons (l : string) (ls : list string) :
  text (l :: ls) = (l ++ nl ++ text ls)%string.
Proof.
  unfold text. destruct ls as [|l' ls]; cbn [map String.concat].
  - now rewrite append_empty_right.
  - cbn [append]. now rewrite append_assoc_string.
Qed.

Lemma splitlines_aux_line (l rest : string) :
  all_chars (fun c => negb (is_linebreak c)) l = true ->
  forall cur : string,
    splitlines_aux cur (l ++ nl ++ rest)
    = (cur ++ l)%string :: splitlines_aux EmptyString rest.
Proof.
  induction l as [|c l IH]; intros H cur.
  - rewrite append_empty_right. reflexivity.
  - cbn [all_chars] in H. apply andb_prop in H as [Hc Hl].
    apply negb_true_iff in Hc.
    cbn [append splitlines_aux]. rewrite Hc, (IH Hl).
    now rewrite append_assoc_string.
Qed.

(** Lines without line breaks, joined into a text, are the lines of the
    text. *)
Lemma splitlines_text (ls : list string) :
  forallb (all_chars (fun c => negb (is_linebreak c))) ls = true ->
  splitlines (text ls) = ls.
Proof.
  unfold splitlines. induction ls as [|l ls IH]; [reflexivity|].
  cbn [forallb]. intros H. apply andb_prop in H as [Hl Hls].
  rewrite text_cons, (splitlines_aux_line l _ Hl). cbn [append].
  now rewrite (IH Hls).
Qed.

Lemma all_chars_replicate (P : ascii -> bool) (k : nat) (s : string) :
  P " "%char = true ->
  all_chars P (replicate k " "%char ++ s) = all_chars P s.
Proof.
  intros H. induction k as [|k IH]; cbn [replicate append all_chars];
    [reflexivity|]. now rewrite H, IH.
Qed.

Lemma nested_lines_no_linebreak (n : nat) :
  forall indent : nat,
    forallb (all_chars (fun c => negb (is_linebreak c)))
            (nested_lines indent n) = true.
Proof.
  induction n as [|n IH]; intros indent; cbn [nested_lines forallb];
    rewrite all_chars_replicate by reflexivity.
  - reflexivity.
  - now rewrite IH.
Qed.

Lemma nested_lines_count (n : nat) :
  forall indent : nat, List.length (nested_lines indent n) = S n.
Proof.
  induction n as [|n IH]; intros indent; cbn [nested_lines List.length];
    [reflexivity|now rewrite IH].
Qed.

Lemma splitlines_nested_config (n : nat) :
  splitlines (nested_config n) = "icons:" :: nested_lines 1 n.
Proof.
  unfold nested_config. apply splitlines_text. cbn [forallb].
  now rewrite nested_lines_no_linebreak.
Qed.

Lemma nth_error_middle {A : Type} (pre : list A) (x : A) (post : list A) :
  nth_error (pre ++ x :: post) (List.length pre) = Some x.
Proof. induction pre as [|a pre IH]; [reflexivity|exact IH]. Qed.

(** The loop at the first of [m] nested keys, with fewer than [m] nested
    calls left, raises the recursion error. *)
Lemma _parse_nested_block_loop_deep :
  forall (m k fuel depth base : nat) (pre : list string)
         (result : dict Value),
    depth < m -> m <= fuel -> base < k ->
    _parse_nested_block_loop fuel depth (pre ++ nested_lines k m) base None
                             result (List.length pre)
    = Some (Raise RecursionError).
Proof.
  induction m as [|m IH]; intros k fuel depth base pre result Hd Hf Hb;
    [lia|].
  destruct fuel as [|fuel]; [lia|].
  cbn [nested_lines _parse_nested_block_loop].
  rewrite nth_error_middle, strip_replicate, indent_replicate by reflexivity.
  replace (k <=? base) with false by (symmetry; apply Nat.leb_gt; lia).
  rewrite Nat.ltb_irrefl.
  change (strip "a:") with "a:".
  cbn [nonempty negb orb].
  change (startswith "a:" "#") with false.
  change (contains ":" "a:") with true.
  change (split_once ":" "a:") with (Some ("a", EmptyString)).
  cbn [negb].
  change (_normalize_yaml_key "a" false) with "a".
  change (strip EmptyString) with EmptyString.
  cbn [nonempty negb _is_inline_yaml_value].
  destruct depth as [|depth]; [reflexivity|].
  change (pre ++ (replicate k " "%char ++ "a:")%string
              :: nested_lines (S k) m)
    with (pre ++ [(replicate k " "%char ++ "a:")%string]
              ++ nested_lines (S k) m).
  rewrite app_assoc.
  replace (S (List.length pre))
    with (List.length (pre ++ [(replicate k " "%char ++ "a:")%string]))
    by (rewrite length_app; cbn [List.length]; lia).
  rewrite IH by lia. reflexivity.
Qed.

(** A text whose [icons] block nests [n + 1] mappings is not parsed with
    fewer than [n] nested calls left: the parser raises the recursion
    error. *)
Lemma deep_nesting_raises (n depth : nat) :
  depth < n ->
  load_config_from_string depth (nested_config (S n)) = Raise RecursionError.
Proof.
  intros Hd. unfold load_config_from_string.
  rewrite splitlines_nested_config.
  assert (E : _parse_nested_section depth ("icons:" :: nested_lines 1 (S n))
                                    "icons"
              = Raise RecursionError).
  { unfold _parse_nested_section, _iter_yaml_block.
    cbn [nested_lines _iter_yaml_block_from].
    change (strip "icons:") with "icons:".
    change (("icons" ++ ":")%string) with "icons:".
    rewrite String.eqb_refl. cbn [negb orb].
    rewrite strip_replicate, indent_replicate by reflexivity.
    change (strip "a:") with "a:".
    cbn [nonempty negb orb].
    change (startswith "a:" "#") with false.
    rewrite Nat.ltb_irrefl, Nat.eqb_refl. cbn [negb].
    change (contains ":" "a:") with true.
    change (split_once ":" "a:") with (Some ("a", EmptyString)).
    cbn [negb].
    change (_normalize_yaml_key "a" false) with "a".
    change (strip EmptyString) with EmptyString.
    cbn [nonempty negb _is_inline_yaml_value fold_left bind
         _parse_nested_entry].
    unfold _parse_nested_block.
    change ("icons:" :: (replicate 1 " "%char ++ "a:")%string
                     :: nested_lines 2 n)
      with (["icons:"; (replicate 1 " "%char ++ "a:")%string]
              ++ nested_lines 2 n).
    change (1 + 1) with (List.length
                           ["icons:"; (replicate 1 " "%char ++ "a:")%string]).
    rewrite _parse_nested_block_loop_deep
      by (try lia; rewrite length_app, nested_lines_count; lia).
    cbn [bind]. apply fold_nested_raise. }
  now rewrite E.
Qed.

(** The size of such a text. *)
Lemma nested_lines_length (m : nat) :
  forall k : nat,
    2 * String.length (text (nested_lines k m))
    = m * m + 7 * m + 2 * m * k + 2 * k + 16.
Proof.
  induction m as [|m IH]; intros k; cbn [nested_lines]; rewrite text_cons.
  - rewrite !length_append_string, length_replicate. cbn. lia.
  - rewrite !length_append_string, length_replicate.
    change (String.length "a:") with 2. change (String.length nl) with 1.
    pose proof (IH (S k)) as H. nia.
Qed.

Lemma nested_config_length (n : nat) :
  (2 * Z.of_nat (String.length (nested_config n))
   = Z.of_nat n * Z.of_nat n + 9 * Z.of_nat n + 32)%Z.
Proof.
  unfold nested_config. rewrite text_cons, !length_append_string.
  change (String.length "icons:") with 6. change (String.length nl) with 1.
  pose proof (nested_lines_length n 1) as H.
  set (len := String.length (text (nested_lines 1 n))) in *.
  rewrite !Nat2Z.inj_add, <- Nat2Z.inj_mul.
  apply (f_equal Z.of_nat) in H.
  rewrite !Nat2Z.inj_add, !Nat2Z.inj_mul in H.
  rewrite Nat2Z.inj_mul. cbn [Z.of_nat Pos.of_succ_nat Pos.succ] in *. lia.
Qed.

(** *** The size ceiling *)

(** A file that can be sized but not read, and a file under the ceiling
    whose mappings nest deeper than the interpreter allows, are neither
    loaded nor reported as not found or too large: the first load raises
    what the read raised, the second the recursion error.  The second file
    nests 1100 mappings in 609,966 bytes and is loaded with 1000 nested
    calls left; a file of five nested mappings shows the same with three
    nested calls left, and is loaded with four. *)
Lemma load_config_under_ceiling_fails :
  getsize (unreadable_file_fs default_path_expanded 51) default_path_expanded
  = Some 51%Z
  /\ load_config (unreadable_file_fs default_path_expanded 51) default_path
     = Raise ReadError
  /\ Z.of_nat (String.length (nested_config 1100)) = 609966%Z
  /\ (609966 <= MAX_CONFIG_SIZE)%Z
  /\ load_config (shallow_stack_fs 1000 default_path_expanded 609966 7
                                   (nested_config 1100)) default_path
     = Raise RecursionError
  /\ Z.of_nat (String.length (nested_config 5)) = 51%Z
  /\ load_config (shallow_stack_fs 3 default_path_expanded 51 7
                                   (nested_config 5)) default_path
     = Raise RecursionError
  /\ (exists c,
        load_config (shallow_stack_fs 4 default_path_expanded 51 7
                                      (nested_config 5)) default_path
        = Ok c
        /\ icons c
           = [("a", Dict [("a", Dict [("a", Dict [("a", Dict
                [("a", Dict [("icon", Str "N")])])])])])]).
Proof.
  split; [reflexivity|]. split; [reflexivity|].
  split.
  { pose proof (nested_config_length 1100) as H.
    change (Z.of_nat 1100) with 1100%Z in H. lia. }
  split; [discriminate|].
  split.
  { unfold load_config, shallow_stack_fs.
    cbn [expanduser getsize read_text recursion_depth].
    change (home_expanduser default_path) with default_path_expanded.
    rewrite String.eqb_refl.
    change (MAX_CONFIG_SIZE <? 609966)%Z with false. cbv iota.
    apply (deep_nesting_raises 1099 1000). lia. }
  split; [reflexivity|].
  split; [vm_compute; reflexivity|].
  eexists. split; vm_compute; reflexivity.
Qed.

(** C3, as the code has it.  Loading a file: when the size cannot be read
    the load fails with the not-found error; when the size is above
    1,048,576 bytes it fails with the too-large error, whatever the file
    holds and before anything is read or parsed; when the size is at most
    1,048,576 bytes (exactly that many included) and the read raises, the
    load raises the same; when the read returns, the load gives what the
    parser gives on the content, which is a configuration or the recursion
    error, and is a configuration when no line is indented by more than
    the recursion depth that is left. *)
Theorem load_config_size_ceiling :
  forall (fs : FileSystem) (path : string),
    MAX_CONFIG_SIZE = 1048576%Z
    /\ (getsize fs (expanduser fs path) = None ->
        load_config fs path = Raise (FileNotFoundError (expanduser fs path)))
    /\ (forall size,
          getsize fs (expanduser fs path) = Some size ->
          (1048576 < size)%Z ->
          load_config fs path = Raise (ValueError_too_large size))
    /\ (forall size,
          getsize fs (expanduser fs path) = Some size ->
          (size <= 1048576)%Z ->
          read_text fs (expanduser fs path) = None ->
          load_config fs path = Raise ReadError)
    /\ (forall size content,
          getsize fs (expanduser fs path) = Some size ->
          (size <= 1048576)%Z ->
          read_text fs (expanduser fs path) = Some content ->
          load_config fs path
          = load_config_from_string (recursion_depth fs) content
          /\ (forall e, load_config fs path = Raise e -> e = RecursionError)
          /\ (shallow (recursion_depth fs) (splitlines content) = true ->
              exists c, load_config fs path = Ok c)).
Proof.
  intros fs path. split; [reflexivity|].
  split; [intros H; unfold load_config; now rewrite H|].
  split.
  { intros size Hs Hgt. unfold load_config. rewrite Hs.
    replace (MAX_CONFIG_SIZE <? size)%Z with true
      by (symmetry; apply Z.ltb_lt; exact Hgt).
    reflexivity. }
  split.
  { intros size Hs Hle Hr. unfold load_config. rewrite Hs.
    replace (MAX_CONFIG_SIZE <? size)%Z with false
      by (symmetry; apply Z.ltb_ge; exact Hle).
    now rewrite Hr. }
  intros size content Hs Hle Hr.
  assert (E : load_config fs path
              = load_config_from_string (recursion_depth fs) content).
  { unfold load_config. rewrite Hs.
    replace (MAX_CONFIG_SIZE <? size)%Z with false
      by (symmetry; apply Z.ltb_ge; exact Hle).
    now rewrite Hr. }
  split; [exact E|]. rewrite E. split.
  - apply load_config_from_string_raises.
  - apply load_config_from_string_shallow.
Qed.

Lemma load_config_size_ceiling_witness :
  (exists c,
      load_config (one_file_fs default_path_expanded 1048576 7
                               empty_values_config) default_path = Ok c)
  /\ load_config (one_file_fs default_path_expanded 1048577 7
                              empty_values_config) default_path
     = Raise (ValueError_too_large 1048577)
  /\ load_config no_file_fs default_path
     = Raise (FileNotFoundError default_path_expanded)
  /\ load_config (unreadable_file_fs default_path_expanded 1048576)
                 default_path
     = Raise ReadError.
Proof.
  split; [|split; [|split]].
  - refine (proj2 (proj2 (proj2 (proj2 (proj2 (proj2
              (load_config_size_ceiling
                 (one_file_fs default_path_expanded 1048576 7
                              empty_values_config) default_path))))
              1048576%Z empty_values_config _ _ _)) _);
      [reflexivity|lia|reflexivity|reflexivity].
  - apply (proj1 (proj2 (proj2
             (load_config_size_ceiling
                (one_file_fs default_path_expanded 1048577 7
                             empty_values_config) default_path))));
      [reflexivity|lia].
  - apply (proj1 (proj2 (load_config_size_ceiling no_file_fs default_path))).
    reflexivity.
  - apply (proj1 (proj2 (proj2 (proj2
             (load_config_size_ceiling
                (unreadable_file_fs default_path_expanded 1048576)
                default_path)))) 1048576%Z);
      [reflexivity|lia|reflexivity].
Defined.

(** *** Parsing is a function of the text *)

(** C8.  Parsing the same configuration text twice gives the same: the
    same outcome when the two parses have the same recursion depth left,
    and, whatever depth each has left, when both return they return equal
    configurations: equal settings, and equal icons, title icons, sessions
    and hosts as lists of entries in insertion order. *)
Theorem load_config_from_string_deterministic :
  forall (depth : nat) (content1 content2 : string),
    content1 = content2 ->
    load_config_from_string depth content1
    = load_config_from_string depth content2
    /\ forall (depth' : nat) (c1 c2 : ParsedConfig),
         load_config_from_string depth content1 = Ok c1 ->
         load_config_from_string depth' content2 = Ok c2 ->
         c1 = c2
         /\ config c1 = config c2
         /\ icons c1 = icons c2
         /\ title_icons c1 = title_icons c2
         /\ sessions c1 = sessions c2
         /\ hosts c1 = hosts c2.
Proof.
  intros depth content1 content2 ->. split; [reflexivity|].
  intros depth' c1 c2 H1 H2.
  rewrite (load_config_from_string_agree _ _ _ _ _ H1 H2).
  repeat split; reflexivity.
Qed.

Lemma load_config_from_string_deterministic_witness :
  load_config_from_string 900 no_icon_config
  = load_config_from_string 900
      (text ["config:"; "  fallback-icon: F"; "icons:"; "  nvim:";
             "    icon-color: '#00ff00'"; "    ring-color: '#ff0000'";
             "    alert-color: '#0000ff'"; "hosts:"; "  *.local:";
             "    index-color: '#111111'"; "    icon-color: '#222222'";
             "    alert-color: '#333333'"; "  server.local: E";
             "title_icons:"; "  htop: H"; "sessions:"; "  alpha: A"]).
Proof.
  refine (proj1 (load_config_from_string_deterministic 900 no_icon_config
                                                       _ _)).
  reflexivity.
Defined.

(** *** Empty values in the config block *)

Lemma _parse_config_entry_empty (config : IconConfig) (key : string)
      (line_idx indent : nat) :
  string_settings (_parse_config_entry config (key, Some EmptyString, line_idx, indent))
  = string_settings config.
Proof.
  unfold _parse_config_entry.
  generalize (norm_config_key key) as k; intros k.
  cbn [nonempty]. rewrite !andb_false_r.
  destruct (String.eqb k "show_name"); [reflexivity|].
  destruct (String.eqb k "use_process_name"); [reflexivity|].
  destruct (String.eqb k "prefer_host_icon"); reflexivity.
Qed.

Lemma _parse_config_entries_empty (items : list BlockItem) :
  forall config : IconConfig,
    (forall item, In item items -> item_value item = Some EmptyString) ->
    string_settings (fold_left _parse_config_entry items config)
    = string_settings config.
Proof.
  induction items as [|[[[key value] line_idx] indent] items IH];
    intros config H; cbn [fold_left]; [reflexivity|].
  rewrite IH by (intros item Hin; apply H; now right).
  pose proof (H _ (or_introl eq_refl)) as Hv.
  cbn [item_value fst snd] in Hv. subst value.
  apply _parse_config_entry_empty.
Qed.

(** C9.  An entry of the config block whose inline value is the empty
    string leaves fallback_icon, ring_color_active, ring_color_inactive,
    icon_color, alert_color and multi_pane_icon as they were, whatever its
    key, so that a block of such entries leaves them at their defaults;
    under the keys show_name, use_process_name and prefer_host_icon it
    assigns false.  A quoted empty string is such a value: on a
    configuration that gives one to prefer-host-icon and to fallback-icon,
    the parsed prefer_host_icon is false, against a default of true, and the
    fallback icon is the default one. *)
Theorem empty_config_value :
  forall (config : IconConfig) (key : string) (line_idx indent : nat),
    let config' := _parse_config_entry config (key, Some EmptyString, line_idx, indent) in
    fallback_icon config' = fallback_icon config
    /\ ring_color_active config' = ring_color_active config
    /\ ring_color_inactive config' = ring_color_inactive config
    /\ icon_color config' = icon_color config
    /\ alert_color config' = alert_color config
    /\ multi_pane_icon config' = multi_pane_icon config
    /\ (norm_config_key key = "show_name" -> show_name config' = false)
    /\ (norm_config_key key = "use_process_name" ->
        use_process_name config' = false)
    /\ (norm_config_key key = "prefer_host_icon" ->
        prefer_host_icon config' = false)
    /\ (forall items,
          (forall item, In item items -> item_value item = Some EmptyString) ->
          string_settings (fold_left _parse_config_entry items
                                     IconConfig_default)
          = string_settings IconConfig_default)
    /\ _strip_yaml_value "''" = EmptyString
    /\ _is_inline_yaml_value "''" = true
    /\ _iter_yaml_block (splitlines empty_values_config) "config"
       = [("prefer-host-icon", Some EmptyString, 1, 2);
          ("fallback-icon", Some EmptyString, 2, 2);
          ("icon-color", Some EmptyString, 3, 2);
          ("show-name", Some "yes", 4, 2)]
    /\ prefer_host_icon IconConfig_default = true
    /\ (forall depth : nat,
          exists c,
            load_config_from_string depth empty_values_config = Ok c
            /\ prefer_host_icon (YamlParser.config c) = false
            /\ fallback_icon (YamlParser.config c) = default_fallback_icon
            /\ icon_color (YamlParser.config c) = "#cdd6f4").
Proof.
  intros config key line_idx indent config'.
  pose proof (_parse_config_entry_empty config key line_idx indent) as Hstr.
  fold config' in Hstr. unfold string_settings in Hstr.
  injection Hstr as H1 H2 H3 H4 H5 H6.
  repeat (split; [assumption|]).
  split; [|split; [|split; [|split]]].
  - intros Hk. subst config'. unfold _parse_config_entry. now rewrite Hk.
  - intros Hk. subst config'. unfold _parse_config_entry. now rewrite Hk.
  - intros Hk. subst config'. unfold _parse_config_entry. now rewrite Hk.
  - intros items H. now apply _parse_config_entries_empty.
  - split; [vm_compute; reflexivity|].
    split; [vm_compute; reflexivity|].
    split; [vm_compute; reflexivity|].
    split; [reflexivity|].
    intros depth.
    destruct (load_config_from_string 0 empty_values_config) as [c|e] eqn:E;
      [|vm_compute in E; discriminate].
    exists c. split.
    + apply (load_config_from_string_depth_mono 0); [exact E|lia].
    + vm_compute in E. injection E as <-.
      repeat split; reflexivity.
Qed.

Lemma empty_config_value_witness :
  prefer_host_icon
    (_parse_config_entry IconConfig_default ("Prefer-Host-Icon", Some EmptyString, 1, 2))
  = false.
Proof.
  pose proof (empty_config_value IconConfig_default "Prefer-Host-Icon" 1 2)
    as (_ & _ & _ & _ & _ & _ & _ & _ & H & _).
  exact (H eq_refl).
Defined.

(** *** The pattern-length ceiling *)

(** C2.  The validator on its own accepts a pattern of 500 characters and
    raises the parse error, with the line, on one of 501; the parser never
    calls it: a configuration whose title pattern has 501 characters parses
    without an error, like one of 500, and the long pattern is in the
    parsed icons. *)
Theorem long_title_pattern_is_parsed :
  String.length (replicate 500 "a"%char) = 500
  /\ String.length (replicate 501 "a"%char) = 501
  /\ _validate_pattern_length (replicate 500 "a"%char) 5 = None
  /\ _validate_pattern_length (replicate 501 "a"%char) 5
     = Some (YamlParseError 501 (Some 5))
  /\ (forall depth : nat,
        exists c,
          load_config_from_string (S depth) (title_pattern_config 500) = Ok c
          /\ icons c
             = [("nvim",
                 Dict [("icon", Str "N");
                       ("title", Dict [(replicate 500 "a"%char, Str "X")])])])
  /\ (forall depth : nat,
        exists c,
          load_config_from_string (S depth) (title_pattern_config 501) = Ok c
          /\ icons c
             = [("nvim",
                 Dict [("icon", Str "N");
                       ("title", Dict [(replicate 501 "a"%char, Str "X")])])])
  /\ (exists c,
        load_config (one_file_fs default_path_expanded 600 7
                                 (title_pattern_config 501)) default_path
        = Ok c
        /\ icons c
           = [("nvim",
               Dict [("icon", Str "N");
                     ("title", Dict [(replicate 501 "a"%char, Str "X")])])]).
Proof.
  assert (H : forall n depth,
             (exists c, load_config_from_string 1 (title_pattern_config n)
                        = Ok c
                        /\ icons c
                           = [("nvim",
                               Dict [("icon", Str "N");
                                     ("title",
                                      Dict [(replicate n "a"%char,
                                             Str "X")])])]) ->
             exists c, load_config_from_string (S depth)
                                               (title_pattern_config n)
                       = Ok c
                       /\ icons c
                          = [("nvim",
                              Dict [("icon", Str "N");
                                    ("title",
                                     Dict [(replicate n "a"%char,
                                            Str "X")])])]).
  { intros n depth (c & E & Hi). exists c. split; [|exact Hi].
    apply (load_config_from_string_depth_mono 1); [exact E|lia]. }
  split; [reflexivity|]. split; [reflexivity|].
  split; [vm_compute; reflexivity|]. split; [vm_compute; reflexivity|].
  split; [|split].
  - intros depth. apply H. eexists. split; vm_compute; reflexivity.
  - intros depth. apply H. eexists. split; vm_compute; reflexivity.
  - eexists. split; vm_compute; reflexivity.
Qed.

End YamlParserFacts.

(** ** The icon resolver *)

Module IconResolverFacts.
Import PyStr SshParser YamlParser Fnmatch IconResolver Examples.

(** *** The host tier *)



Lemma is_some_find {A : Type} (p : A -> bool) (l : list A) :
  is_some (List.find p l) = existsb p l.
Proof.
  induction l as [|a l IH]; cbn [List.find existsb]; [reflexivity|].
  now destruct (p a).
Qed.

Lemma _match_host_loop_find (host_lower : string) (hosts : dict Value)
      (cfg : IconConfig) :
  _match_host_loop host_lower hosts cfg
  = option_map (fun kv => _extract_host_result (snd kv) cfg)
               (List.find (fun kv => host_key_matches host_lower (fst kv))
                          hosts).
Proof.
  induction hosts as [|[pattern value] hosts IH];
    cbn [_match_host_loop List.find fst snd]; [reflexivity|].
  unfold host_key_matches at 1.
  destruct (String.eqb (lower pattern) host_lower); [reflexivity|].
  destruct (fnmatch host_lower (lower pattern)); [reflexivity|].
  exact IH.
Qed.



(** *** Each tier's function and its condition *)

(** A loop that ran out of entries answers nothing; a loop that returns
    from its body answers with the source it writes. *)
Ltac no_answer := split; [reflexivity | discriminate].
Ltac answer_here := split; [reflexivity | now intros ? [= <-]].

Lemma answers_none (o : option IconResult) (s : Source) :
  answers o false s -> o = None.
Proof. intros [H _]. now destruct o. Qed.

Lemma _extract_host_result_source (value : Value) (cfg : IconConfig) :
  source (_extract_host_result value cfg) = SrcHost.
Proof. now destruct value. Qed.

Lemma _match_host_answers (host : string) (hosts : dict Value)
      (cfg : IconConfig) :
  answers (_match_host host hosts cfg)
          (existsb (fun kv => host_key_matches (lower host) (fst kv)) hosts)
          SrcHost.
Proof.
  unfold answers, _match_host. rewrite _match_host_loop_find.
  rewrite <- is_some_find.
  destruct (List.find _ hosts) as [kv|]; cbn [option_map is_some].
  - split; [reflexivity|]. intros r [= <-].
    apply _extract_host_result_source.
  - no_answer.
Qed.

(** *** The six tiers in order

    One runtime and one parsed configuration are fixed for the tiers. *)

Section Tiers.

Variable rt : Runtime.
Variable config : ParsedConfig.

Lemma host_tier_answers (cmdline : option string) (pane_pid : option Z) :
  answers
    (match detect_ssh_host (effective_cmdline rt cmdline pane_pid) with
     | Some h =>
         if prefer_host_icon (YamlParser.config config) && nonempty h
         then _match_host h (hosts config) (YamlParser.config config)
         else None
     | None => None
     end)
    (host_tier_matches rt config cmdline pane_pid) SrcHost.
Proof.
  unfold host_tier_matches.
  destruct (detect_ssh_host _) as [h|].
  - destruct (prefer_host_icon _); cbn [andb];
      [|no_answer].
    destruct (nonempty h); cbn [andb];
      [|no_answer].
    apply _match_host_answers.
  - rewrite andb_false_r. no_answer.
Qed.

(** The title patterns: when the loop returns, it answers exactly when
    some tried pattern is found; it returns when no tried pattern makes the
    search raise. *)
Lemma _match_title_patterns_inner_answers (title : string)
      (value title_patterns : dict Value) (o : option IconResult) :
  _match_title_patterns_inner rt title value title_patterns = Ok o ->
  answers o
          (existsb (fun pv => pattern_matches rt title (fst pv)) title_patterns)
          SrcTitlePattern.
Proof.
  induction title_patterns as [|[pattern icon] tp IH];
    cbn [_match_title_patterns_inner existsb fst];
    [intros [= <-]; no_answer|].
  unfold pattern_matches at 1. rewrite Nat.leb_antisym.
  destruct (_MAX_PATTERN_LENGTH <? String.length pattern); cbn [negb andb orb];
    [exact IH|].
  destruct (re_search rt pattern title); cbn [orb];
    [intros [= <-]; answer_here|exact IH|exact IH|discriminate].
Qed.

Lemma _match_title_patterns_inner_returns (title : string)
      (value title_patterns : dict Value) :
  existsb (fun pv => pattern_raises rt title (fst pv)) title_patterns = false ->
  exists o, _match_title_patterns_inner rt title value title_patterns = Ok o.
Proof.
  induction title_patterns as [|[pattern icon] tp IH];
    cbn [_match_title_patterns_inner existsb fst];
    [intros _; eexists; reflexivity|].
  unfold pattern_raises at 1. rewrite Nat.leb_antisym.
  destruct (_MAX_PATTERN_LENGTH <? String.length pattern); cbn [negb andb orb];
    [exact IH|].
  destruct (re_search rt pattern title); cbn [orb];
    [intros _; eexists; reflexivity|exact IH|exact IH|discriminate].
Qed.

Lemma _match_title_patterns_loop_answers (title : string)
      (icons : dict Value) (o : option IconResult) :
  _match_title_patterns_loop rt title icons = Ok o ->
  answers o (existsb (fun kv => entry_title_matches rt title (snd kv)) icons)
          SrcTitlePattern.
Proof.
  induction icons as [|[app value] icons IH];
    cbn [_match_title_patterns_loop existsb snd];
    [intros [= <-]; no_answer|].
  destruct value as [s|d]; cbn [entry_title_matches orb]; [exact IH|].
  destruct (dict_get d "title") as [[s|tp]|]; cbn [orb]; try exact IH.
  destruct tp as [|entry tp]; [exact IH|].
  cbn [dict_nonempty negb].
  pose proof (_match_title_patterns_inner_answers title d (entry :: tp))
    as Hinner.
  destruct (_match_title_patterns_inner rt title d (entry :: tp))
    as [[r|]|e]; [| |discriminate].
  - destruct (Hinner _ eq_refl) as [Hsome Hsrc].
    cbn [is_some] in Hsome. rewrite <- Hsome. cbn [orb].
    intros [= <-]. split; [reflexivity|]. intros r' [= <-]. now apply Hsrc.
  - destruct (Hinner _ eq_refl) as [Hsome _].
    cbn [is_some] in Hsome. rewrite <- Hsome. exact IH.
Qed.

Lemma _match_title_patterns_loop_returns (title : string)
      (icons : dict Value) :
  existsb (fun kv => entry_title_raises rt title (snd kv)) icons = false ->
  exists o, _match_title_patterns_loop rt title icons = Ok o.
Proof.
  induction icons as [|[app value] icons IH];
    cbn [_match_title_patterns_loop existsb snd];
    [intros _; eexists; reflexivity|].
  destruct value as [s|d]; cbn [entry_title_raises orb]; [exact IH|].
  destruct (dict_get d "title") as [[s|tp]|]; cbn [orb]; try exact IH.
  destruct tp as [|entry tp]; [exact IH|].
  cbn [dict_nonempty negb]. intros H. apply orb_false_iff in H as [H1 H2].
  destruct (_match_title_patterns_inner_returns title d (entry :: tp) H1)
    as ([r|] & ->); [eexists; reflexivity|exact (IH H2)].
Qed.

Lemma _match_title_patterns_answers (title : string) (o : option IconResult) :
  _match_title_patterns rt title (icons config) (YamlParser.config config)
    = Ok o ->
  answers o (title_pattern_tier_matches rt config title) SrcTitlePattern.
Proof.
  unfold _match_title_patterns, title_pattern_tier_matches.
  destruct (nonempty title); cbn [negb andb];
    [|intros [= <-]; no_answer].
  apply _match_title_patterns_loop_answers.
Qed.

Lemma _match_title_patterns_returns (title : string) :
  nonempty title = false \/ title_search_raises rt config title = false ->
  exists o,
    _match_title_patterns rt title (icons config) (YamlParser.config config)
      = Ok o.
Proof.
  unfold _match_title_patterns, title_search_raises.
  destruct (nonempty title); cbn [negb];
    [|intros _; eexists; reflexivity].
  intros [H|H]; [discriminate|].
  now apply _match_title_patterns_loop_returns.
Qed.

Lemma _match_title_patterns_none (title : string) :
  title_pattern_tier_matches rt config title = false ->
  title_search_raises rt config title = false ->
  _match_title_patterns rt title (icons config) (YamlParser.config config)
    = Ok None.
Proof.
  intros Hm Hr.
  destruct (_match_title_patterns_returns title (or_intror Hr)) as (o & E).
  pose proof (_match_title_patterns_answers title o E) as A.
  rewrite Hm in A. now rewrite E, (answers_none _ _ A).
Qed.

Lemma _match_title_icons_tokens_answers (tokens : list string)
      (title_icons : dict string) :
  answers (_match_title_icons_tokens tokens title_icons)
          (existsb (dict_has title_icons) tokens) SrcTitleIcon.
Proof.
  induction tokens as [|token tokens IH];
    cbn [_match_title_icons_tokens existsb];
    [no_answer|].
  unfold dict_has at 1.
  destruct (dict_get title_icons token); cbn [orb]; [|exact IH].
  answer_here.
Qed.

Lemma _match_title_icons_substr_answers (title_lower : string)
      (title_icons : dict string) :
  answers (_match_title_icons_substr title_lower title_icons)
          (existsb (fun kv => contains (lower (fst kv)) title_lower)
                   title_icons)
          SrcTitleIcon.
Proof.
  induction title_icons as [|[keyword icon] title_icons IH];
    cbn [_match_title_icons_substr existsb fst];
    [no_answer|].
  destruct (contains (lower keyword) title_lower); cbn [orb]; [|exact IH].
  answer_here.
Qed.

Lemma _match_title_icons_answers (title : string) :
  answers (_match_title_icons title (title_icons config)
                              (YamlParser.config config))
          (title_icon_tier_matches config title) SrcTitleIcon.
Proof.
  unfold _match_title_icons, title_icon_tier_matches.
  destruct (nonempty title); cbn [negb andb orb];
    [|no_answer].
  destruct (dict_nonempty (title_icons config)); cbn [negb andb];
    [|no_answer].
  fold (title_tokens title).
  pose proof (_match_title_icons_tokens_answers (title_tokens title)
                                                (title_icons config))
    as [Hsome Hsrc].
  destruct (_match_title_icons_tokens (title_tokens title)
                                      (title_icons config)) as [r|];
    cbn [is_some] in Hsome; rewrite <- Hsome; cbn [orb].
  - split; [reflexivity|]. intros r' [= <-]. now apply Hsrc.
  - apply _match_title_icons_substr_answers.
Qed.

Lemma _match_process_answers (process : string) :
  answers (_match_process process (icons config) (YamlParser.config config))
          (process_tier_matches config process) SrcProcess.
Proof.
  unfold _match_process, process_tier_matches.
  destruct (nonempty process); cbn [negb andb];
    [|no_answer].
  induction (icons config) as [|[key value] icons IH];
    cbn [_match_process_loop existsb fst];
    [no_answer|].
  destruct (String.eqb (lower key) (lower process)); cbn [negb orb];
    [|exact IH].
  destruct value; answer_here.
Qed.

Lemma _match_session_keys_answers (token : string) (sessions : dict string) :
  answers (_match_session_keys token sessions)
          (existsb (fun kv => String.eqb (lower (fst kv)) token) sessions)
          SrcSession.
Proof.
  induction sessions as [|[key icon] sessions IH];
    cbn [_match_session_keys existsb fst];
    [no_answer|].
  destruct (String.eqb (lower key) token); cbn [orb]; [|exact IH].
  answer_here.
Qed.

Lemma _match_session_answers (session : string) :
  answers (_match_session session (sessions config) (YamlParser.config config))
          (session_tier_matches config session) SrcSession.
Proof.
  unfold _match_session, session_tier_matches.
  destruct (nonempty session); cbn [negb andb orb];
    [|no_answer].
  destruct (dict_nonempty (sessions config)); cbn [negb andb];
    [|no_answer].
  fold (session_tokens session).
  induction (session_tokens session) as [|token tokens IH];
    cbn [_match_session_tokens existsb];
    [no_answer|].
  unfold dict_has at 1.
  destruct (dict_get (sessions config) token); cbn [orb];
    [answer_here|].
  pose proof (_match_session_keys_answers token (sessions config))
    as [Hsome Hsrc].
  destruct (_match_session_keys token (sessions config)) as [r|];
    cbn [is_some] in Hsome; rewrite <- Hsome; cbn [orb].
  - split; [reflexivity|]. intros r' [= <-]. now apply Hsrc.
  - exact IH.
Qed.


Lemma resolve_with_source (process title session : string)
      (cmdline : option string) (pane_pid : option Z) (r : IconResult) :
  resolve_with rt config process title session cmdline pane_pid = Ok r ->
  source r
  = first_matching_tier rt config
      (mkRequest process title session cmdline pane_pid).
Proof.
  unfold resolve_with, first_matching_tier, tier_order.
  cbn [List.find tier_matches req_process req_title req_session req_cmdline
       req_pane_pid].
  pose proof (host_tier_answers cmdline pane_pid) as [H1 S1].
  destruct (match detect_ssh_host _ with Some _ => _ | None => _ end)
    as [r1|];
    cbn [is_some] in H1; rewrite <- H1; [intros [= <-]; now apply S1|].
  pose proof (_match_title_patterns_answers title) as A2.
  destruct (_match_title_patterns rt title _ _) as [[r2|]|e];
    [destruct (A2 _ eq_refl) as [H2 S2]; cbn [is_some] in H2; rewrite <- H2;
     intros [= <-]; now apply S2
    |destruct (A2 _ eq_refl) as [H2 _]; cbn [is_some] in H2; rewrite <- H2
    |discriminate].
  pose proof (_match_title_icons_answers title) as [H3 S3].
  destruct (_match_title_icons title _ _) as [r3|];
    cbn [is_some] in H3; rewrite <- H3; [intros [= <-]; now apply S3|].
  pose proof (_match_process_answers process) as [H4 S4].
  destruct (_match_process process _ _) as [r4|];
    cbn [is_some] in H4; rewrite <- H4; [intros [= <-]; now apply S4|].
  pose proof (_match_session_answers session) as [H5 S5].
  destruct (_match_session session _ _) as [r5|];
    cbn [is_some] in H5; rewrite <- H5; [intros [= <-]; now apply S5|].
  now intros [= <-].
Qed.

(** The resolution returns when the host tier answers, when the title is
    empty, and when no tried title pattern makes the search raise. *)
Lemma resolve_with_returns (process title session : string)
      (cmdline : option string) (pane_pid : option Z) :
  host_tier_matches rt config cmdline pane_pid = true
  \/ nonempty title = false
  \/ title_search_raises rt config title = false ->
  exists r,
    resolve_with rt config process title session cmdline pane_pid = Ok r.
Proof.
  unfold resolve_with.
  pose proof (host_tier_answers cmdline pane_pid) as [H1 _].
  destruct (match detect_ssh_host _ with Some _ => _ | None => _ end)
    as [r1|];
    cbn [is_some] in H1; rewrite <- H1; [intros _; eexists; reflexivity|].
  intros [H|H]; [discriminate|].
  destruct (_match_title_patterns_returns title H) as ([r2|] & ->);
    [eexists; reflexivity|].
  destruct (_match_title_icons title _ _); [eexists; reflexivity|].
  destruct (_match_process process _ _); [eexists; reflexivity|].
  destruct (_match_session session _ _); eexists; reflexivity.
Qed.

Lemma first_matching_tier_first (rq : Request) :
  tier_matches rt config rq (first_matching_tier rt config rq) = true
  /\ forall tier,
       tier_rank tier < tier_rank (first_matching_tier rt config rq) ->
       tier_matches rt config rq tier = false.
Proof.
  unfold first_matching_tier, tier_order. cbn [List.find].
  destruct (tier_matches rt config rq SrcHost) eqn:E1;
    [split; [exact E1|intros []; cbn [tier_rank]; lia]|].
  destruct (tier_matches rt config rq SrcTitlePattern) eqn:E2;
    [split; [exact E2|intros []; cbn [tier_rank]; (lia || intros _; assumption)]|].
  destruct (tier_matches rt config rq SrcTitleIcon) eqn:E3;
    [split; [exact E3|intros []; cbn [tier_rank]; (lia || intros _; assumption)]|].
  destruct (tier_matches rt config rq SrcProcess) eqn:E4;
    [split; [exact E4|intros []; cbn [tier_rank]; (lia || intros _; assumption)]|].
  destruct (tier_matches rt config rq SrcSession) eqn:E5;
    [split; [exact E5|intros []; cbn [tier_rank]; (lia || intros _; assumption)]|].
  cbn [tier_matches].
  split; [reflexivity|intros []; cbn [tier_rank]; (lia || intros _; assumption)].
Qed.

Lemma resolve_with_fallback (process title session : string)
      (cmdline : option string) (pane_pid : option Z) (r : IconResult) :
  resolve_with rt config process title session cmdline pane_pid = Ok r ->
  source r = SrcFallback ->
  r = simple_result (fallback_icon (YamlParser.config config)) SrcFallback.
Proof.
  unfold resolve_with.
  pose proof (host_tier_answers cmdline pane_pid) as [_ S1].
  destruct (match detect_ssh_host _ with Some _ => _ | None => _ end)
    as [r1|];
    [intros [= <-] H; rewrite (S1 r1 eq_refl) in H; discriminate|].
  pose proof (_match_title_patterns_answers title) as A2.
  destruct (_match_title_patterns rt title _ _) as [[r2|]|e];
    [destruct (A2 _ eq_refl) as [_ S2]; intros [= <-] H;
     rewrite (S2 r2 eq_refl) in H; discriminate
    |
    |discriminate].
  pose proof (_match_title_icons_answers title) as [_ S3].
  destruct (_match_title_icons title _ _) as [r3|];
    [intros [= <-] H; rewrite (S3 r3 eq_refl) in H; discriminate|].
  pose proof (_match_process_answers process) as [_ S4].
  destruct (_match_process process _ _) as [r4|];
    [intros [= <-] H; rewrite (S4 r4 eq_refl) in H; discriminate|].
  pose proof (_match_session_answers session) as [_ S5].
  destruct (_match_session session _ _) as [r5|];
    [intros [= <-] H; rewrite (S5 r5 eq_refl) in H; discriminate|].
  now intros [= <-].
Qed.

End Tiers.

(** With an empty title the title patterns are not searched: the pattern
    [.*] is found in every title, the empty one included, so the tier's
    condition as the specification words it holds, and yet the resolution
    of a request with an empty title passes the tier and ends at the
    fallback.  With the title [x] the same configuration resolves at the
    title patterns. *)
Lemma empty_title_skips_title_patterns :
  let config := parsed (one_pattern_config ".*") in
  let rq := mkRequest "zsh" EmptyString EmptyString None None in
  icons config
  = [("nvim", Dict [("icon", Str "N"); ("title", Dict [(".*", Str "X")])])]
  /\ re_search regex_runtime ".*" EmptyString = Found
  /\ host_tier_matches regex_runtime config None None = false
  /\ title_pattern_tier_spec regex_runtime config EmptyString = true
  /\ title_pattern_tier_matches regex_runtime config EmptyString = false
  /\ resolve_with regex_runtime config "zsh" EmptyString EmptyString None None
     = Ok (simple_result "F" SrcFallback)
  /\ resolve_with regex_runtime config "zsh" "x" EmptyString None None
     = Ok {| icon := Str "X"; ring_color := None; icon_color := None;
             alert_color := None; source := SrcTitlePattern |}.
Proof.
  repeat split; vm_compute; reflexivity.
Qed.

(** A search that raises something other than the pattern error is not
    caught: the key [a{4294967295}] is parsed like any other, and with it
    among the title patterns the resolution of a request with a title
    raises what the search raised, while a pattern that does not compile is
    passed over. *)
Lemma search_exception_leaves_resolve :
  icons (parsed (one_pattern_config "a{4294967295}"))
  = [("nvim", Dict [("icon", Str "N");
                    ("title", Dict [("a{4294967295}", Str "X")])])]
  /\ title_search_raises regex_runtime
                         (parsed (one_pattern_config "a{4294967295}")) "x"
     = true
  /\ resolve_with regex_runtime (parsed (one_pattern_config "a{4294967295}"))
                  "zsh" "x" EmptyString None None
     = Raise OverflowError
  /\ resolve_with regex_runtime (parsed (one_pattern_config "("))
                  "zsh" "x" EmptyString None None
     = Ok (simple_result "F" SrcFallback).
Proof.
  repeat split; vm_compute; reflexivity.
Qed.

(** C1, as the code has it.  For every parsed configuration and every
    request (process, title, session, optional command line, optional
    pane): the resolution returns one result when the host tier matches,
    when the title is empty, and when no title pattern of at most 500
    characters makes the search raise an exception other than the pattern
    error.  The source of a result it returns is the first tier, in the
    order host, title_pattern, title_icon, process, session, fallback, whose
    match condition holds: its condition holds and the condition of every
    tier before it does not, where the title patterns match only a title
    that is not empty.  When no tier before the fallback matches, the
    result is the fallback icon with source fallback and no colours.
    [resolve_icon] gives what the resolution gives on the configuration
    that loading returns, and raises what loading raises. *)
Theorem resolve_source_is_first_matching_tier :
  forall (rt : Runtime) (config : ParsedConfig)
         (process title session : string) (cmdline : option string)
         (pane_pid : option Z),
    let rq := mkRequest process title session cmdline pane_pid in
    let outcome :=
      resolve_with rt config process title session cmdline pane_pid in
    (host_tier_matches rt config cmdline pane_pid = true
     \/ nonempty title = false
     \/ title_search_raises rt config title = false ->
     exists r, outcome = Ok r)
    /\ (forall r,
          outcome = Ok r ->
          source r = first_matching_tier rt config rq
          /\ tier_matches rt config rq (source r) = true
          /\ (forall tier, tier_rank tier < tier_rank (source r) ->
                           tier_matches rt config rq tier = false)
          /\ ((forall tier, tier <> SrcFallback ->
                            tier_matches rt config rq tier = false) ->
              r = simple_result (fallback_icon (YamlParser.config config))
                                SrcFallback))
    /\ (title_pattern_tier_matches rt config title
        = nonempty title && title_pattern_tier_spec rt config title)
    /\ (forall fs st config_path st',
          get_config fs st config_path = (Ok config, st') ->
          resolve_icon fs rt st process title session cmdline pane_pid
                       config_path
          = (outcome, st'))
    /\ (forall fs st config_path st' e,
          get_config fs st config_path = (Raise e, st') ->
          resolve_icon fs rt st process title session cmdline pane_pid
                       config_path
          = (Raise e, st')).
Proof.
  intros rt config process title session cmdline pane_pid rq outcome.
  split; [apply resolve_with_returns|]. split; [|split; [reflexivity|split]].
  - intros r Hr.
    pose proof (resolve_with_source rt config process title session cmdline
                                    pane_pid r Hr) as Hsrc.
    fold rq in Hsrc.
    pose proof (first_matching_tier_first rt config rq) as [Hm Hfirst].
    rewrite <- Hsrc in Hm, Hfirst.
    split; [exact Hsrc|]. split; [exact Hm|]. split; [exact Hfirst|].
    intros Hnone.
    apply (resolve_with_fallback rt config process title session cmdline
                                 pane_pid r Hr).
    destruct (source r) eqn:E; try reflexivity;
      rewrite Hnone in Hm; discriminate.
  - intros fs st config_path st' Hget. unfold resolve_icon.
    now rewrite Hget.
  - intros fs st config_path st' e Hget. unfold resolve_icon.
    now rewrite Hget.
Qed.

Lemma resolve_source_is_first_matching_tier_witness :
  resolve_icon (one_file_fs default_path_expanded 400 7 no_icon_config)
               literal_runtime initial_cache
               "zsh" "notes" "work-2024_alpha" (Some "ssh Server.remote") None
               default_path
  = (Ok (simple_result "A" SrcSession),
     {| _config_cache := Some cached_config;
        _config_mtime := 7%Z;
        _config_path_cache := default_path_expanded |})
  /\ resolve_with literal_runtime cached_config "zsh" "notes" "main" None None
     = Ok (simple_result "F" SrcFallback).
Proof.
  split.
  - apply (proj1 (proj2 (proj2 (proj2
             (resolve_source_is_first_matching_tier
                literal_runtime cached_config "zsh" "notes" "work-2024_alpha"
                (Some "ssh Server.remote") None))))).
    reflexivity.
  - pose proof (resolve_source_is_first_matching_tier
                  literal_runtime cached_config "zsh" "notes" "main"
                  None None) as (Hreturns & Hsource & _).
    destruct Hreturns as (r & Hr); [right; right; reflexivity|].
    destruct (Hsource r Hr) as (_ & _ & _ & Hfallback).
    rewrite Hr. f_equal. apply Hfallback.
    intros []; intros H; try reflexivity. now elim H.
Defined.

(** *** Detailed entries without an icon *)

Lemma _match_process_loop_detailed (process_lower : string)
      (icons : dict Value) (cfg : IconConfig) (key : string) (d : dict Value) :
  List.find (fun kv => String.eqb (lower (fst kv)) process_lower) icons
    = Some (key, Dict d) ->
  _match_process_loop process_lower icons cfg
  = Some {| icon := match dict_get d "icon" with
                    | Some v => v
                    | None => Str (fallback_icon cfg)
                    end;
            ring_color := None;
            icon_color := dict_get d "icon-color";
            alert_color := None;
            source := SrcProcess |}.
Proof.
  induction icons as [|[k v] icons IH];
    cbn [List.find _match_process_loop fst]; [discriminate|].
  destruct (String.eqb (lower k) process_lower); cbn [negb].
  - now intros [= -> ->].
  - exact IH.
Qed.

(** The process tier of the example configuration: the entry has ring and
    alert colours, the result has neither. *)
Lemma process_tier_drops_ring_and_alert :
  let entry := [("icon-color", Str "#00ff00"); ("ring-color", Str "#ff0000");
                ("alert-color", Str "#0000ff")] in
  exists r,
    resolve_with literal_runtime cached_config "nvim" EmptyString EmptyString
                 None None = Ok r
    /\ icons cached_config = [("nvim", Dict entry)]
    /\ dict_get entry "icon" = None
    /\ source r = SrcProcess
    /\ icon r = Str (fallback_icon (YamlParser.config cached_config))
    /\ dict_get entry "ring-color" = Some (Str "#ff0000")
    /\ ring_color r = None
    /\ dict_get entry "alert-color" = Some (Str "#0000ff")
    /\ alert_color r = None
    /\ ring_color r <> py_or (dict_get entry "ring-color")
                             (dict_get entry "index-color")
    /\ alert_color r <> dict_get entry "alert-color".
Proof.
  eexists. split; [vm_compute; reflexivity|].
  repeat split; try (vm_compute; reflexivity); vm_compute; discriminate.
Qed.

(** C10, as the code has it.  A detailed entry without an [icon] key that
    is the first match of its tier, the tier being reached, gives the
    global fallback icon under the tier's own source.  At the host tier the colours of the entry are all
    applied: the ring colour is the entry's [ring-color], or its
    [index-color] when that is absent or empty, and the icon and alert
    colours are the entry's.  At the process tier only the entry's
    [icon-color] is applied; the result has no ring and no alert colour. *)
Theorem detailed_entry_without_icon :
  forall (rt : Runtime) (config : ParsedConfig)
         (process title session : string) (cmdline : option string)
         (pane_pid : option Z) (key : string) (d : dict Value),
    let cfg := YamlParser.config config in
    let r := resolve_with rt config process title session cmdline pane_pid in
    dict_get d "icon" = None ->
    (forall h,
        prefer_host_icon cfg = true ->
        detect_ssh_host (effective_cmdline rt cmdline pane_pid) = Some h ->
        nonempty h = true ->
        List.find (fun kv => host_key_matches (lower h) (fst kv))
                  (hosts config) = Some (key, Dict d) ->
        r = Ok {| icon := Str (fallback_icon cfg);
                  ring_color := py_or (dict_get d "ring-color")
                                      (dict_get d "index-color");
                  icon_color := dict_get d "icon-color";
                  alert_color := dict_get d "alert-color";
                  source := SrcHost |})
    /\ (host_tier_matches rt config cmdline pane_pid = false ->
        title_pattern_tier_matches rt config title = false ->
        title_search_raises rt config title = false ->
        title_icon_tier_matches config title = false ->
        nonempty process = true ->
        List.find (fun kv => String.eqb (lower (fst kv)) (lower process))
                  (icons config) = Some (key, Dict d) ->
        r = Ok {| icon := Str (fallback_icon cfg);
                  ring_color := None;
                  icon_color := dict_get d "icon-color";
                  alert_color := None;
                  source := SrcProcess |}).
Proof.
  intros rt config process title session cmdline pane_pid key d cfg r Hicon.
  split.
  - intros h Hprefer Hdetect Hh Hfind. subst r cfg. unfold resolve_with.
    rewrite Hdetect, Hprefer, Hh. cbn [andb]. unfold _match_host.
    rewrite _match_host_loop_find, Hfind.
    cbn [option_map snd _extract_host_result]. now rewrite Hicon.
  - intros H1 H2 Hr H3 Hp Hfind. subst r cfg. unfold resolve_with.
    pose proof (host_tier_answers rt config cmdline pane_pid) as A1.
    rewrite H1 in A1. rewrite (answers_none _ _ A1).
    rewrite (_match_title_patterns_none rt config title H2 Hr).
    pose proof (_match_title_icons_answers config title) as A3.
    rewrite H3 in A3. rewrite (answers_none _ _ A3).
    unfold _match_process. rewrite Hp. cbn [negb].
    rewrite (_match_process_loop_detailed _ _ _ _ _ Hfind).
    now rewrite Hicon.
Qed.

Lemma detailed_entry_without_icon_witness :
  resolve_with literal_runtime cached_config "ssh" EmptyString EmptyString
               (Some "ssh admin@Server.Local") None
  = Ok {| icon := Str "F";
          ring_color := Some (Str "#111111");
          icon_color := Some (Str "#222222");
          alert_color := Some (Str "#333333");
          source := SrcHost |}
  /\ resolve_with literal_runtime cached_config "NVim" EmptyString EmptyString None None
     = Ok {| icon := Str "F";
             ring_color := None;
             icon_color := Some (Str "#00ff00");
             alert_color := None;
             source := SrcProcess |}.
Proof.
  split.
  - refine (proj1 (detailed_entry_without_icon
                     literal_runtime cached_config "ssh" EmptyString EmptyString
                     (Some "ssh admin@Server.Local") None "*.local"
                     [("index-color", Str "#111111");
                      ("icon-color", Str "#222222");
                      ("alert-color", Str "#333333")] _)
                  "server.local" _ _ _ _); reflexivity.
  - refine (proj2 (detailed_entry_without_icon
                     literal_runtime cached_config "NVim" EmptyString EmptyString None None
                     "nvim"
                     [("icon-color", Str "#00ff00");
                      ("ring-color", Str "#ff0000");
                      ("alert-color", Str "#0000ff")] _)
                  _ _ _ _ _ _); reflexivity.
Defined.

(** *** The configuration cache *)

(** A stat that fails does not by itself discard the cache: with no file
    at the path and a cache filled for that path, [get_config] returns the
    cached configuration and leaves the globals alone, where a reload would
    have raised the not-found error. *)
Lemma stat_failure_keeps_cache :
  getmtime no_file_fs (expanduser no_file_fs default_path) = None
  /\ _config_cache cached_state = Some cached_config
  /\ get_config no_file_fs cached_state default_path
     = (Ok cached_config, cached_state)
  /\ reload no_file_fs cached_state (expanduser no_file_fs default_path) 0
     = (Raise (FileNotFoundError default_path_expanded), cached_state)
  /\ get_config no_file_fs cached_state default_path
     <> reload no_file_fs cached_state (expanduser no_file_fs default_path)
               (current_mtime_of no_file_fs
                                 (expanduser no_file_fs default_path)).
Proof.
  repeat split; try (vm_compute; reflexivity).
  vm_compute. discriminate.
Qed.

(** C4, as the code has it.  With [path] the expanded path and [t] the
    modification time observed, taken as 0 when the stat fails: the file is
    loaded again, and the globals replaced when the load returns, exactly
    when the cache is empty, [path] differs from the cached path, or [t] is
    greater than the cached modification time; otherwise the cached
    configuration is returned and the globals are unchanged.  So a failing
    stat leads to a reload only when one of the first two conditions holds
    or the cached modification time is negative. *)
Theorem get_config_reload_condition :
  forall (fs : FileSystem) (st : Cache) (config_path : string),
    let path := expanduser fs config_path in
    let t := current_mtime_of fs path in
    (getmtime fs path = None -> t = 0%Z)
    /\ (forall m, getmtime fs path = Some m -> t = m)
    /\ ((_config_cache st = None
         \/ path <> _config_path_cache st
         \/ (_config_mtime st < t)%Z) ->
        get_config fs st config_path = reload fs st path t)
    /\ (forall c,
          _config_cache st = Some c ->
          path = _config_path_cache st ->
          (t <= _config_mtime st)%Z ->
          get_config fs st config_path = (Ok c, st))
    /\ (forall c,
          getmtime fs path = None ->
          _config_cache st = Some c ->
          path = _config_path_cache st ->
          (0 <= _config_mtime st)%Z ->
          get_config fs st config_path = (Ok c, st))
    /\ (forall c,
          load_config fs path = Ok c ->
          reload fs st path t
          = (Ok c, {| _config_cache := Some c;
                      _config_mtime := t;
                      _config_path_cache := path |}))
    /\ (forall e,
          load_config fs path = Raise e -> reload fs st path t = (Raise e, st)).
Proof.
  intros fs st config_path path t.
  assert (Hkeep : forall c,
             _config_cache st = Some c ->
             path = _config_path_cache st ->
             (t <= _config_mtime st)%Z ->
             get_config fs st config_path = (Ok c, st)).
  { intros c Hc Hp Ht. unfold get_config. fold path. fold t.
    unfold cache_invalid. rewrite Hc, <- Hp, String.eqb_refl.
    replace (_config_mtime st <? t)%Z with false
      by (symmetry; apply Z.ltb_ge; exact Ht).
    reflexivity. }
  assert (Hnone : getmtime fs path = None -> t = 0%Z).
  { intros H. subst t. unfold current_mtime_of. now rewrite H. }
  split; [exact Hnone|]. split.
  { intros m H. subst t. unfold current_mtime_of. now rewrite H. }
  split.
  { intros H. unfold get_config. fold path. fold t.
    replace (cache_invalid st path t) with true; [reflexivity|].
    symmetry. unfold cache_invalid.
    destruct H as [H|[H|H]].
    - now rewrite H.
    - apply String.eqb_neq in H. rewrite H. cbn [negb].
      now rewrite orb_true_r.
    - apply Z.ltb_lt in H. rewrite H. now rewrite orb_true_r. }
  split; [exact Hkeep|]. split.
  { intros c Hstat Hc Hp Hm. apply Hkeep; try assumption.
    rewrite (Hnone Hstat). exact Hm. }
  split.
  - intros c H. unfold reload. now rewrite H.
  - intros e H. unfold reload. now rewrite H.
Qed.

Lemma get_config_reload_condition_witness :
  get_config (one_file_fs default_path_expanded 400 101 no_icon_config)
             cached_state default_path
  = (Ok cached_config,
     {| _config_cache := Some cached_config;
        _config_mtime := 101%Z;
        _config_path_cache := default_path_expanded |})
  /\ get_config (one_file_fs default_path_expanded 400 100 empty_values_config)
                cached_state default_path
     = (Ok cached_config, cached_state)
  /\ get_config no_file_fs cached_state default_path
     = (Ok cached_config, cached_state).
Proof.
  split; [|split].
  - pose proof (get_config_reload_condition
                  (one_file_fs default_path_expanded 400 101 no_icon_config)
                  cached_state default_path)
      as (_ & _ & Hreload & _ & _ & Hok & _).
    rewrite Hreload; [|right; right; vm_compute; reflexivity].
    apply Hok. reflexivity.
  - pose proof (get_config_reload_condition
                  (one_file_fs default_path_expanded 400 100
                               empty_values_config)
                  cached_state default_path)
      as (_ & _ & _ & Hkeep & _).
    apply Hkeep; [reflexivity|reflexivity|vm_compute; discriminate].
  - pose proof (get_config_reload_condition no_file_fs cached_state
                                            default_path)
      as (_ & _ & _ & _ & Hstat & _).
    apply Hstat; [reflexivity|reflexivity|reflexivity|vm_compute; discriminate].
Defined.

(** A second call on an unchanged file system returns the configuration of
    the first and leaves the globals as the first left them. *)
Lemma get_config_twice (fs : FileSystem) (st st' : Cache)
      (config_path : string) (c : ParsedConfig) :
  get_config fs st config_path = (Ok c, st') ->
  get_config fs st' config_path = (Ok c, st').
Proof.
  unfold get_config.
  set (path := expanduser fs config_path).
  set (t := current_mtime_of fs path).
  destruct (cache_invalid st path t) eqn:Hinv.
  - unfold reload. destruct (load_config fs path) as [c0|e]; [|discriminate].
    intros [= <- <-]. unfold cache_invalid.
    cbn [_config_cache _config_mtime _config_path_cache].
    now rewrite String.eqb_refl, Z.ltb_irrefl.
  - destruct (_config_cache st) as [c0|] eqn:Hc; [|discriminate].
    intros [= <- <-]. now rewrite Hinv, Hc.
Qed.

End IconResolverFacts.

(** ** More on strings *)

Module PyStrMore.
Import PyStr PyStrFacts Notions.

Lemma lower_char_idem (c : ascii) : lower_char (lower_char c) = lower_char c.
Proof. destruct c as [[] [] [] [] [] [] [] []]; reflexivity. Qed.

Lemma is_space_lower_char (c : ascii) : is_space (lower_char c) = is_space c.
Proof. destruct c as [[] [] [] [] [] [] [] []]; reflexivity. Qed.

Lemma lower_idem (s : string) : lower (lower s) = lower s.
Proof.
  induction s as [|c s IH]; cbn [lower]; [reflexivity|].
  now rewrite lower_char_idem, IH.
Qed.

Lemma nonempty_lower (s : string) : nonempty (lower s) = nonempty s.
Proof. now destruct s. Qed.

Lemma lower_app (a b : string) : lower (a ++ b) = (lower a ++ lower b)%string.
Proof.
  induction a as [|c a IH]; cbn [lower String.append]; [reflexivity|].
  now rewrite IH.
Qed.

Lemma lower_lstrip (s : string) : lower (lstrip s) = lstrip (lower s).
Proof.
  induction s as [|c s IH]; cbn [lower lstrip]; [reflexivity|].
  rewrite is_space_lower_char. now destruct (is_space c).
Qed.

Lemma lower_rstrip (s : string) : lower (rstrip s) = rstrip (lower s).
Proof.
  induction s as [|c s IH]; cbn [lower rstrip]; [reflexivity|].
  rewrite <- IH, is_space_lower_char.
  destruct (rstrip s); cbn [lower]; [|reflexivity].
  now destruct (is_space c).
Qed.

Lemma lower_strip (s : string) : lower (strip s) = strip (lower s).
Proof. unfold strip. now rewrite lower_rstrip, lower_lstrip. Qed.

Lemma lstrip_starts_clean (s : string) : starts_clean (lstrip s).
Proof.
  induction s as [|c s IH]; cbn [lstrip]; [exact I|].
  destruct (is_space c) eqn:E; [exact IH|exact E].
Qed.

Lemma lstrip_clean (s : string) : starts_clean s -> lstrip s = s.
Proof.
  destruct s as [|c s]; cbn [starts_clean lstrip]; [reflexivity|].
  now intros ->.
Qed.

Lemma rstrip_starts_clean (s : string) :
  starts_clean s -> starts_clean (rstrip s).
Proof.
  destruct s as [|c s]; cbn [starts_clean rstrip]; [exact (fun H => H)|].
  intros H. destruct (rstrip s); [rewrite H|]; exact H.
Qed.

Lemma rstrip_idem (s : string) : rstrip (rstrip s) = rstrip s.
Proof.
  induction s as [|c s IH]; cbn [rstrip]; [reflexivity|].
  destruct (rstrip s) as [|d r] eqn:E.
  - destruct (is_space c) eqn:Ec; cbn [rstrip]; [reflexivity|].
    now rewrite Ec.
  - cbn [rstrip]. cbn [rstrip] in IH. now rewrite IH.
Qed.

Lemma strip_idem (s : string) : strip (strip s) = strip s.
Proof.
  unfold strip.
  rewrite (lstrip_clean (rstrip (lstrip s)))
    by (apply rstrip_starts_clean, lstrip_starts_clean).
  apply rstrip_idem.
Qed.

(** [lstrip] drops a run of whitespace from the front, [rstrip] one from
    the back. *)
Lemma lstrip_suffix (s : string) :
  exists p, s = (p ++ lstrip s)%string
            /\ String.length p = String.length s - String.length (lstrip s).
Proof.
  induction s as [|c s (p & Hp & Hl)]; cbn [lstrip].
  - now exists EmptyString.
  - destruct (is_space c).
    + exists (String c p). cbn [String.append String.length].
      split; [now rewrite <- Hp|].
      assert (String.length s
              = String.length p + String.length (lstrip s)) as Hs.
      { rewrite Hp at 1. clear. induction p; cbn; [reflexivity|].
        now rewrite IHp. }
      lia.
    + exists EmptyString. split; [reflexivity|]. cbn. lia.
Qed.

Lemma rstrip_prefix (s : string) : exists q, s = (rstrip s ++ q)%string.
Proof.
  induction s as [|c s (q & Hq)]; cbn [rstrip].
  - now exists EmptyString.
  - destruct (rstrip s) as [|d r] eqn:E.
    + destruct (is_space c).
      * exists (String c s). reflexivity.
      * exists q. cbn [String.append]. now rewrite Hq at 1.
    + exists q. cbn [String.append] in *. now rewrite Hq at 1.
Qed.

Lemma strip_middle (s : string) :
  exists p q, s = (p ++ strip s ++ q)%string.
Proof.
  destruct (lstrip_suffix s) as (p & Hp & _).
  destruct (rstrip_prefix (lstrip s)) as (q & Hq).
  exists p, q. unfold strip. now rewrite <- Hq.
Qed.

(** *** Occurrences of a separator *)

Lemma prefix_app (sep a x : string) :
  String.prefix sep a = true -> String.prefix sep (a ++ x) = true.
Proof.
  revert a; induction sep as [|c sep IH]; intros a.
  - intros _. now destruct (a ++ x)%string.
  - destruct a as [|d a]; cbn [String.prefix String.append]; [discriminate|].
    destruct (ascii_dec c d); [apply IH|discriminate].
Qed.

Lemma contains_app_r (sep a x : string) :
  contains sep a = true -> contains sep (a ++ x) = true.
Proof.
  unfold contains. induction a as [|c a IH]; cbn [split_once].
  - destruct (String.prefix sep EmptyString) eqn:P; [|discriminate].
    intros _. pose proof (prefix_app sep EmptyString x P) as Q.
    cbn [String.append] in Q |- *.
    destruct x; cbn [split_once]; now rewrite Q.
  - destruct (String.prefix sep (String c a)) eqn:P.
    + intros _. pose proof (prefix_app sep (String c a) x P) as Q.
      cbn [String.append] in Q |- *. cbn [split_once]. now rewrite Q.
    + cbn [String.append split_once].
      destruct (String.prefix sep (String c (a ++ x))); [reflexivity|].
      destruct (split_once sep a) as [[]|]; [|discriminate].
      intros _. specialize (IH eq_refl).
      now destruct (split_once sep (a ++ x)) as [[]|].
Qed.

Lemma contains_cons (sep : string) (c : ascii) (s : string) :
  contains sep s = true -> contains sep (String c s) = true.
Proof.
  unfold contains. cbn [split_once].
  destruct (String.prefix sep (String c s)); [reflexivity|].
  now destruct (split_once sep s) as [[]|].
Qed.

Lemma contains_app_l (sep p s : string) :
  contains sep s = true -> contains sep (p ++ s) = true.
Proof.
  intros H. induction p as [|c p IH]; cbn [String.append]; [exact H|].
  now apply contains_cons.
Qed.

(** A separator found in a part of a text is found in the text. *)
Lemma contains_middle (sep p m q : string) :
  contains sep m = true -> contains sep (p ++ m ++ q) = true.
Proof. intros H. now apply contains_app_l, contains_app_r. Qed.

Lemma contains_strip (sep s : string) :
  contains sep (strip s) = true -> contains sep s = true.
Proof.
  intros H. destruct (strip_middle s) as (p & q & E).
  rewrite E. now apply contains_middle.
Qed.

Lemma prefix_empty_r (sep : string) :
  sep <> EmptyString -> String.prefix sep EmptyString = false.
Proof. destruct sep; [now intros []|reflexivity]. Qed.

(** The text before the first occurrence of a separator holds no
    occurrence of it. *)
Lemma split_once_first (sep s a b : string) :
  sep <> EmptyString ->
  split_once sep s = Some (a, b) -> contains sep a = false.
Proof.
  intros Hsep. unfold contains.
  revert a b; induction s as [|c s IH]; intros a b; cbn [split_once].
  - rewrite (prefix_empty_r sep Hsep). discriminate.
  - destruct (String.prefix sep (String c s)) eqn:P.
    + intros [= <- <-]. cbn [split_once].
      now rewrite (prefix_empty_r sep Hsep).
    + destruct (split_once sep s) as [[a' b']|] eqn:E; [|discriminate].
      intros [= <- <-]. cbn [split_once].
      destruct (String.prefix sep (String c a')) eqn:Q.
      * pose proof (prefix_app sep (String c a') (sep ++ b') Q) as R.
        cbn [String.append] in R.
        rewrite <- (split_once_app _ _ _ _ E) in R. congruence.
      * specialize (IH a' b' eq_refl).
        now destruct (split_once sep a') as [[]|].
Qed.

End PyStrMore.

(** ** More on the configuration parser *)

Module YamlValueFacts.
Import PyStr PyStrFacts Notions PyStrMore YamlParser.

Lemma drop_last_prefix (s : string) : exists q, s = (drop_last s ++ q)%string.
Proof.
  induction s as [|c s (q & Hq)]; cbn [drop_last].
  - now exists EmptyString.
  - destruct s as [|d s].
    + now exists (String c EmptyString).
    + exists q. cbn [String.append]. now rewrite <- Hq.
Qed.

Lemma contains_strip_ends (sep s : string) :
  contains sep (strip_ends s) = true -> contains sep s = true.
Proof.
  destruct s as [|c s]; cbn [strip_ends]; [exact (fun H => H)|].
  intros H. destruct (drop_last_prefix s) as (q & Hq).
  rewrite Hq. apply contains_cons. now apply contains_app_r.
Qed.

Lemma not_contains_strip (sep s : string) :
  contains sep s = false -> contains sep (strip s) = false.
Proof.
  intros H. destruct (contains sep (strip s)) eqn:E; [|reflexivity].
  now rewrite (contains_strip _ _ E) in H.
Qed.

Lemma not_contains_strip_ends (sep s : string) :
  contains sep s = false -> contains sep (strip_ends s) = false.
Proof.
  intros H. destruct (contains sep (strip_ends s)) eqn:E; [|reflexivity].
  now rewrite (contains_strip_ends _ _ E) in H.
Qed.

(** X1.  An inline value, once cleaned, holds no space followed by a hash: the
    comment is cut at the first such place, before the quotes are looked
    at, so that quotes do not protect it. *)
Theorem strip_yaml_value_has_no_comment :
  forall val : string, contains " #" (_strip_yaml_value val) = false.
Proof.
  intros val. unfold _strip_yaml_value.
  set (v0 := strip val).
  assert (H1 : contains " #"
                 (if contains " #" v0
                  then match split_once " #" v0 with
                       | Some (before, _) => strip before
                       | None => v0
                       end
                  else v0) = false).
  { destruct (contains " #" v0) eqn:E; [|exact E].
    destruct (split_once " #" v0) as [[before after]|] eqn:S.
    - apply not_contains_strip.
      apply (split_once_first " #" v0 before after); [discriminate|exact S].
    - unfold contains in E. now rewrite S in E. }
  destruct (nonempty _ && has_matching_quotes _); [|exact H1].
  now apply not_contains_strip_ends.
Qed.

Lemma rstrip_app_clean (s : string) (q : ascii) :
  is_space q = false ->
  rstrip (s ++ String q EmptyString) = (s ++ String q EmptyString)%string.
Proof.
  intros Hq. induction s as [|c s IH]; cbn [String.append rstrip].
  - now rewrite Hq.
  - rewrite IH. now destruct s.
Qed.

Lemma last_char_app (s : string) (q d : ascii) :
  last_char (s ++ String q EmptyString) d = q.
Proof.
  revert d; induction s as [|c s IH]; intros d;
    cbn [String.append last_char]; [reflexivity|apply IH].
Qed.

Lemma drop_last_app (s : string) (q : ascii) :
  drop_last (s ++ String q EmptyString) = s.
Proof.
  induction s as [|c s IH]; cbn [String.append drop_last]; [reflexivity|].
  destruct s as [|d s]; [reflexivity|].
  cbn [String.append] in *. now rewrite IH.
Qed.

Lemma is_quote_not_space (q : ascii) : is_quote q = true -> is_space q = false.
Proof.
  unfold is_quote. intros H. apply orb_prop in H as [H|H];
    apply Ascii.eqb_eq in H; now subst q.
Qed.

(** A text without the comment mark stays without it between quotes. *)
Lemma quoted_has_no_comment (s : string) (q : ascii) :
  is_quote q = true ->
  contains " #" s = false ->
  contains " #" (String q (s ++ String q EmptyString)) = false.
Proof.
  intros Hq. unfold contains.
  assert (Hend : forall c, split_once " #" (String c (String q EmptyString))
                           = None).
  { intros c. unfold is_quote in Hq. apply orb_prop in Hq as [H|H];
      apply Ascii.eqb_eq in H; subst q;
      destruct c as [[] [] [] [] [] [] [] []]; reflexivity. }
  assert (Hin : forall t,
             match split_once " #" t with Some _ => true | None => false end
               = false ->
             split_once " #" (t ++ String q EmptyString) = None).
  { induction t as [|c t IH]; cbn [String.append].
    - intros _. unfold is_quote in Hq. apply orb_prop in Hq as [H|H];
        apply Ascii.eqb_eq in H; subst q; reflexivity.
    - cbn [split_once].
      destruct (String.prefix " #" (String c t)) eqn:P; [discriminate|].
      destruct (split_once " #" t) as [[]|] eqn:E; [discriminate|].
      intros _. specialize (IH eq_refl).
      destruct t as [|d t].
      + apply Hend.
      + cbn [String.append] in *.
        assert (Q : String.prefix " #" (String c (String d (t ++ String q EmptyString)))
                    = false).
        { revert P. cbn [String.prefix].
          destruct (ascii_dec " "%char c); [|reflexivity].
          destruct (ascii_dec "#"%char d); [|reflexivity].
          destruct t; discriminate. }
        rewrite Q. now rewrite IH. }
  intros H. specialize (Hin s H).
  cbn [split_once]. rewrite Hin.
  assert (Q : String.prefix " #" (String q (s ++ String q EmptyString)) = false).
  { unfold is_quote in Hq. cbn [String.prefix].
    destruct (ascii_dec " "%char q) as [<-|]; [discriminate|reflexivity]. }
  now rewrite Q.
Qed.

(** X2.  Quoting round trip: a text without the comment mark, put between two
    single or two double quotes, comes back as it is, spaces at its ends
    included. *)
Theorem strip_yaml_value_unquotes :
  forall (s : string) (q : ascii),
    is_quote q = true ->
    contains " #" s = false ->
    _strip_yaml_value (String q (s ++ String q EmptyString)) = s.
Proof.
  intros s q Hq Hs. unfold _strip_yaml_value.
  pose proof (is_quote_not_space q Hq) as Hsp.
  assert (E : strip (String q (s ++ String q EmptyString))
              = String q (s ++ String q EmptyString)).
  { unfold strip. cbn [lstrip]. rewrite Hsp.
    change (String q (s ++ String q EmptyString))
      with ((String q s) ++ String q EmptyString)%string.
    now apply rstrip_app_clean. }
  rewrite E, (quoted_has_no_comment s q Hq Hs).
  cbn [nonempty andb has_matching_quotes String.length].
  rewrite Hq, last_char_app, Ascii.eqb_refl.
  replace (2 <=? S (String.length (s ++ String q EmptyString))) with true.
  - cbn [andb strip_ends]. apply drop_last_app.
  - symmetry. apply Nat.leb_le.
    destruct s; cbn [String.append String.length]; lia.
Qed.

Lemma strip_yaml_value_unquotes_witness :
  _strip_yaml_value "'  padded text# '" = "  padded text# ".
Proof.
  apply (strip_yaml_value_unquotes "  padded text# " "039"%char);
    reflexivity.
Defined.

(** X3.  Boolean parsing ignores case and surrounding whitespace, and is true
    exactly on true, yes, 1 and on. *)
Theorem parse_bool_insensitive :
  forall val : string,
    _parse_bool (lower val) = _parse_bool val
    /\ _parse_bool (strip val) = _parse_bool val
    /\ (_parse_bool val = true <->
        In (strip (lower val)) ["true"; "yes"; "1"; "on"]).
Proof.
  intros val. unfold _parse_bool. split; [now rewrite lower_idem|].
  split; [now rewrite lower_strip, strip_idem|].
  generalize (strip (lower val)) as v; intros v. unfold mem.
  split.
  - destruct (existsb (String.eqb v) ["true"; "yes"; "1"; "on"]) eqn:E.
    + intros _. apply existsb_exists in E as (x & Hx & Ex).
      apply String.eqb_eq in Ex. now subst x.
    + now destruct (existsb (String.eqb v) ["false"; "no"; "0"; "off"]).
  - intros H.
    replace (existsb (String.eqb v) ["true"; "yes"; "1"; "on"]) with true;
      [reflexivity|].
    symmetry. apply existsb_exists. exists v. split; [exact H|].
    apply String.eqb_refl.
Qed.

Lemma parse_bool_insensitive_witness : _parse_bool "  YES " = true.
Proof.
  apply (proj2 (proj2 (parse_bool_insensitive "  YES "))).
  right. left. reflexivity.
Defined.

End YamlValueFacts.

Module YamlBlockFacts.
Import PyStr PyStrFacts Notions PyStrMore YamlParser.

Lemma items_sound_nil (pre rest : list string) (block_indent : option nat) :
  items_sound pre rest block_indent [].
Proof.
  repeat split; try constructor.
  destruct block_indent as [b|].
  - exists b. split; [now intros b' [= ->]|constructor].
  - exists 0. split; [discriminate|constructor].
Qed.

(** The items of the lines after one more line are items of the lines from
    that line on. *)
Lemma items_sound_skip (pre : list string) (raw : string) (rest : list string)
      (block_indent block_indent' : option nat) (items : list BlockItem) :
  (forall b, block_indent = Some b -> block_indent' = Some b) ->
  items_sound (pre ++ [raw]) rest block_indent' items ->
  items_sound pre (raw :: rest) block_indent items.
Proof.
  intros Hbi (Hall & Hsorted & b & Hb & Hind).
  split; [|split; [exact Hsorted|]].
  - eapply Forall_impl; [|exact Hall].
    intros item (Hle & raw' & Hnth & Hitem).
    rewrite length_app in Hle. cbn [List.length] in Hle.
    split; [lia|]. exists raw'. split; [|exact Hitem].
    now rewrite <- app_assoc in Hnth.
  - exists b. split; [|exact Hind].
    intros b' E. apply Hb. now apply Hbi.
Qed.

Lemma items_sound_cons (pre : list string) (raw : string) (rest : list string)
      (block_indent : option nat) (b : nat) (item : BlockItem)
      (items : list BlockItem) :
  (forall b', block_indent = Some b' -> b = b') ->
  item_idx item = List.length pre ->
  item_indent item = b ->
  item_from_line raw item ->
  items_sound (pre ++ [raw]) rest (Some b) items ->
  items_sound pre (raw :: rest) block_indent (item :: items).
Proof.
  intros Hbi Hidx Hindent Hitem (Hall & Hsorted & b0 & Hb & Hind).
  pose proof (Hb b eq_refl) as ->.
  split; [|split].
  - constructor.
    + split; [lia|]. exists raw. split; [|exact Hitem].
      rewrite Hidx. now rewrite nth_error_app2, Nat.sub_diag by lia.
    + eapply Forall_impl; [|exact Hall].
      intros it (Hle & raw' & Hnth & Hit).
      rewrite length_app in Hle. cbn [List.length] in Hle.
      split; [lia|]. exists raw'. split; [|exact Hit].
      now rewrite <- app_assoc in Hnth.
  - cbn [map]. constructor; [exact Hsorted|].
    apply Forall_map. eapply Forall_impl; [|exact Hall].
    intros it (Hle & _). rewrite length_app in Hle.
    cbn [List.length] in Hle. lia.
  - exists b. split; [exact Hbi|]. now constructor.
Qed.

Lemma _iter_yaml_block_from_sound (target_label : string) :
  forall (rest pre : list string) (in_block : bool)
         (block_indent : option nat),
    items_sound pre rest block_indent
      (_iter_yaml_block_from target_label in_block block_indent
                             (List.length pre) rest).
Proof.
  induction rest as [|raw rest IH]; intros pre in_block block_indent;
    cbn [_iter_yaml_block_from]; [apply items_sound_nil|].
  assert (IH' : forall in_block' block_indent',
             (forall b, block_indent = Some b -> block_indent' = Some b) ->
             items_sound pre (raw :: rest) block_indent
               (_iter_yaml_block_from target_label in_block' block_indent'
                                      (S (List.length pre)) rest)).
  { intros ib bi' Hbi. apply (items_sound_skip _ _ _ _ bi' _ Hbi).
    specialize (IH (pre ++ [raw]) ib bi').
    rewrite length_app in IH. cbn [List.length] in IH.
    now replace (List.length pre + 1) with (S (List.length pre)) in IH by lia. }
  destruct in_block; cbn [negb].
  2:{ destruct (_ || _); apply IH'; auto. }
  destruct (negb (nonempty (strip raw)) || startswith (strip raw) "#")
    eqn:Hskip; [apply IH'; auto|].
  set (cur := _get_indent_level raw).
  set (b := match block_indent with Some b0 => b0 | None => cur end).
  assert (Hb : forall b', block_indent = Some b' -> b = b')
    by (intros b' ->; reflexivity).
  assert (Hb' : forall b', block_indent = Some b' -> Some b = Some b')
    by (intros b' E; f_equal; now apply Hb).
  destruct (cur <? b); [apply items_sound_nil|].
  destruct (cur =? b) eqn:Hcur; cbn [negb]; [|apply IH'; exact Hb'].
  apply Nat.eqb_eq in Hcur.
  destruct (contains ":" (strip raw)); cbn [negb]; [|apply IH'; exact Hb'].
  destruct (split_once ":" (strip raw)) as [[key_part val_part]|] eqn:Hsplit;
    [|apply IH'; exact Hb'].
  destruct (nonempty (_normalize_yaml_key key_part false)) eqn:Hkey;
    cbn [negb]; [|apply IH'; exact Hb'].
  assert (Hne : _normalize_yaml_key key_part false <> EmptyString)
    by (intros E; rewrite E in Hkey; discriminate).
  assert (Hrec : items_sound (pre ++ [raw]) rest (Some b)
                   (_iter_yaml_block_from target_label true (Some b)
                                          (S (List.length pre)) rest)).
  { specialize (IH (pre ++ [raw]) true (Some b)).
    rewrite length_app in IH. cbn [List.length] in IH.
    now replace (List.length pre + 1) with (S (List.length pre)) in IH by lia. }
  destruct (_is_inline_yaml_value (strip val_part)) eqn:Hinline;
    (apply (items_sound_cons pre raw rest block_indent b);
     [exact Hb|reflexivity|exact Hcur| |exact Hrec]);
    (split; [exact Hskip|]; split; [reflexivity|]; split; [exact Hne|];
     exists key_part, val_part; split; [exact Hsplit|];
     split; [reflexivity|]; cbn [item_value fst snd]; now rewrite Hinline).
Qed.

(** X4.  The items of a block: each is what the line at its index says (a line
    that is neither blank nor a comment, with the item's indent, a key that
    is not empty and the item's value); the indices ascend; and all items
    have the same indent. *)
Theorem iter_yaml_block_items :
  forall (lines : list string) (block_label : string),
    let items := _iter_yaml_block lines block_label in
    (forall item, In item items ->
                  exists raw,
                    nth_error lines (item_idx item) = Some raw
                    /\ item_from_line raw item)
    /\ StronglySorted lt (map item_idx items)
    /\ (forall item1 item2, In item1 items -> In item2 items ->
                            item_indent item1 = item_indent item2).
Proof.
  intros lines block_label items.
  pose proof (_iter_yaml_block_from_sound (block_label ++ ":") lines []
                                          false None)
    as (Hall & Hsorted & b & _ & Hind).
  fold (_iter_yaml_block lines block_label) in Hall, Hsorted, Hind.
  fold items in Hall, Hsorted, Hind.
  split; [|split; [exact Hsorted|]].
  - intros item Hin. rewrite Forall_forall in Hall.
    destruct (Hall item Hin) as (_ & raw & Hnth & Hitem).
    now exists raw.
  - intros item1 item2 H1 H2. rewrite Forall_forall in Hind.
    now rewrite (Hind item1 H1), (Hind item2 H2).
Qed.

Lemma iter_yaml_block_items_witness :
  exists raw,
    nth_error ["icons:"; "  # editors"; "  'Neo Vim': N  # quoted key"]
              2 = Some raw
    /\ item_from_line raw ("Neo Vim", Some "N", 2, 2).
Proof.
  pose proof (iter_yaml_block_items
                ["icons:"; "  # editors"; "  'Neo Vim': N  # quoted key"]
                "icons") as (H & _).
  apply (H ("Neo Vim", Some "N", 2, 2)). now left.
Defined.

(** X5.  A text without a line that opens the block gives the block no items:
    the section's mapping is empty, and for the config block every setting
    is at its default. *)
Theorem missing_block_is_empty :
  forall (lines : list string) (block_label : string),
    (forall raw, In raw lines ->
                 is_header (block_label ++ ":") raw = false) ->
    _iter_yaml_block lines block_label = []
    /\ _parse_simple_section lines block_label = []
    /\ (forall depth : nat,
          _parse_nested_section depth lines block_label = Ok [])
    /\ (block_label = "config" ->
        _parse_config_section lines = IconConfig_default).
Proof.
  intros lines block_label H.
  assert (E : _iter_yaml_block lines block_label = []).
  { unfold _iter_yaml_block. generalize 0 as idx.
    induction lines as [|raw lines IH]; intros idx;
      cbn [_iter_yaml_block_from negb]; [reflexivity|].
    pose proof (H raw (or_introl eq_refl)) as Hraw.
    unfold is_header in Hraw. rewrite Hraw.
    apply IH. intros r Hr. apply H. now right. }
  split; [exact E|].
  unfold _parse_simple_section, _parse_nested_section. rewrite E.
  split; [reflexivity|]. split; [reflexivity|].
  intros ->. unfold _parse_config_section. now rewrite E.
Qed.

Lemma missing_block_is_empty_witness :
  _parse_nested_section 0 ["icons:"; "  nvim: N"; "sessions:"; "  work: W"]
                        "hosts" = Ok [].
Proof.
  refine (proj1 (proj2 (proj2
            (missing_block_is_empty
               ["icons:"; "  nvim: N"; "sessions:"; "  work: W"] "hosts" _)))
            0).
  intros raw [<-|[<-|[<-|[<-|[]]]]]; reflexivity.
Defined.

End YamlBlockFacts.

Module YamlNestedFacts.
Import PyStr PyStrFacts Notions PyStrMore YamlParser YamlParserFacts
       YamlBlockFacts.

(** *** The extent of a nested block *)

Lemma inside_block_deeper (lines : list string) (base base' i : nat) :
  base <= base' -> inside_block lines base' i -> inside_block lines base i.
Proof.
  intros Hle (raw & Hnth & [H|H]); exists raw; split; auto. right. lia.
Qed.

Lemma _parse_nested_block_loop_extent (lines : list string) :
  forall (fuel depth base_indent : nat) (block_indent : option nat)
         (result : dict Value) (idx : nat) (r : dict Value) (e : nat),
    _parse_nested_block_loop fuel depth lines base_indent block_indent
                             result idx
      = Some (Ok (r, e)) ->
    idx <= e
    /\ (idx <= List.length lines -> e <= List.length lines)
    /\ (forall i, idx <= i < e -> inside_block lines base_indent i)
    /\ (e < List.length lines -> ends_block lines base_indent e).
Proof.
  induction fuel as [|fuel IH]; intros depth base bi result idx r e;
    cbn [_parse_nested_block_loop]; [discriminate|].
  destruct (nth_error lines idx) as [raw|] eqn:Hnth.
  2:{ intros [= <- <-]. apply nth_error_None in Hnth.
      split; [lia|]. split; [lia|]. split; intros; lia. }
  assert (Hlt : idx < List.length lines)
    by (apply nth_error_Some; congruence).
  assert (Hstep : inside_block lines base idx ->
                  forall bi' res',
                    _parse_nested_block_loop fuel depth lines base bi' res'
                                             (S idx)
                      = Some (Ok (r, e)) ->
                    idx <= e
                    /\ (idx <= List.length lines -> e <= List.length lines)
                    /\ (forall i, idx <= i < e -> inside_block lines base i)
                    /\ (e < List.length lines -> ends_block lines base e)).
  { intros Hin bi' res' H.
    destruct (IH _ _ _ _ _ _ _ H) as (H1 & H2 & H3 & H4).
    split; [lia|]. split; [intros _; apply H2; lia|]. split; [|exact H4].
    intros i Hi. destruct (Nat.eq_dec i idx) as [->|]; [exact Hin|].
    apply H3. lia. }
  destruct (negb (nonempty (strip raw)) || startswith (strip raw) "#")
    eqn:Hskip.
  { apply Hstep. exists raw. split; [exact Hnth|]. now left. }
  destruct (_get_indent_level raw <=? base) eqn:Hbase.
  { intros [= <- <-]. apply Nat.leb_le in Hbase.
    split; [lia|]. split; [lia|]. split; [intros i Hi; lia|].
    intros _. exists raw. now repeat split. }
  apply Nat.leb_gt in Hbase.
  assert (Hin : inside_block lines base idx).
  { exists raw. split; [exact Hnth|]. now right. }
  destruct (_ <? _get_indent_level raw); [now apply Hstep|].
  destruct (negb (contains ":" (strip raw))); [now apply Hstep|].
  destruct (split_once ":" (strip raw)) as [[key_part val_part]|];
    [|now apply Hstep].
  destruct (negb (nonempty (_normalize_yaml_key key_part false)));
    [now apply Hstep|].
  destruct (_is_inline_yaml_value (strip val_part)); [now apply Hstep|].
  destruct depth as [|depth]; [discriminate|].
  destruct (_parse_nested_block_loop fuel depth lines (_get_indent_level raw)
                                     None [] (S idx))
    as [[[nested idx1]|e1]|] eqn:E1; [|discriminate|discriminate].
  destruct (IH _ _ _ _ _ _ _ E1) as (A1 & A2 & A3 & A4).
  intros H. destruct (IH _ _ _ _ _ _ _ H) as (B1 & B2 & B3 & B4).
  split; [lia|]. split; [intros _; apply B2, A2; lia|]. split; [|exact B4].
  intros i Hi. destruct (Nat.eq_dec i idx) as [->|]; [exact Hin|].
  destruct (Nat.lt_ge_cases i idx1) as [Hlo|Hhi].
  - apply (inside_block_deeper lines base (_get_indent_level raw));
      [lia|]. apply A3. lia.
  - apply B3. lia.
Qed.

(** X6.  The block below a key: parsing from line [start_idx] under a key of
    indent [base_indent] returns or raises the recursion error, and returns
    when no line is indented by more than the recursion depth that is left;
    what it returns with some depth left it returns with more.  When it
    returns, it ends at an index that is not before the start and not beyond
    the last line; every line from the start up to the end is blank, a
    comment or indented more than the key; and the line at the end, when
    there is one, is a line with text that is indented no more than the
    key. *)
Theorem nested_block_extent :
  forall (depth : nat) (lines : list string) (start_idx base_indent : nat),
    (forall (r : dict Value) (e : nat),
        _parse_nested_block depth lines start_idx base_indent = Ok (r, e) ->
        start_idx <= e
        /\ (start_idx <= List.length lines -> e <= List.length lines)
        /\ (forall i, start_idx <= i < e -> inside_block lines base_indent i)
        /\ (e < List.length lines -> ends_block lines base_indent e))
    /\ (forall x,
          _parse_nested_block depth lines start_idx base_indent = Raise x ->
          x = RecursionError)
    /\ (shallow depth lines = true ->
        exists out,
          _parse_nested_block depth lines start_idx base_indent = Ok out)
    /\ (forall depth' out,
          _parse_nested_block depth lines start_idx base_indent = Ok out ->
          depth <= depth' ->
          _parse_nested_block depth' lines start_idx base_indent = Ok out).
Proof.
  intros depth lines start_idx base_indent.
  destruct (_parse_nested_block_returns depth lines start_idx base_indent)
    as (Hloop & Hout).
  split; [|split; [|split]].
  - intros r e E. rewrite E in Hloop.
    exact (_parse_nested_block_loop_extent lines _ _ _ _ _ _ _ _ Hloop).
  - intros x E. rewrite E in Hout. exact Hout.
  - intros Hsh. apply _parse_nested_block_shallow.
    now apply shallow_In.
  - intros depth' out E Hle.
    exact (_parse_nested_block_depth_mono _ _ _ _ _ _ E Hle).
Qed.

Lemma nested_block_extent_witness :
  inside_block ["icons:"; "  nvim:"; "    icon: N"; EmptyString; "    title:";
                "      ^Git: G"; "  zsh: Z"] 2 5
  /\ ends_block ["icons:"; "  nvim:"; "    icon: N"; EmptyString; "    title:";
                 "      ^Git: G"; "  zsh: Z"] 2 6
  /\ (exists out,
        _parse_nested_block 6 ["icons:"; "  nvim:"; "    icon: N"; EmptyString;
                              "    title:"; "      ^Git: G"; "  zsh: Z"] 2 2
        = Ok out).
Proof.
  pose proof (nested_block_extent
                1 ["icons:"; "  nvim:"; "    icon: N"; EmptyString;
                   "    title:"; "      ^Git: G"; "  zsh: Z"] 2 2)
    as (Hext & _).
  destruct (Hext [("icon", Str "N"); ("title", Dict [("^Git", Str "G")])] 6
                 eq_refl) as (_ & _ & Hin & Hend).
  split; [apply Hin; vm_compute; lia|].
  split; [apply Hend; vm_compute; lia|].
  apply (proj1 (proj2 (proj2
           (nested_block_extent
              6 ["icons:"; "  nvim:"; "    icon: N"; EmptyString;
                 "    title:"; "      ^Git: G"; "  zsh: Z"] 2 2)))).
  reflexivity.
Defined.

(** *** Parsed mappings are well formed *)

Lemma well_formed_Dict (d : dict Value) :
  well_formed (Dict d) <-> d <> [] /\ well_formed_dict d.
Proof.
  cbn [well_formed]. unfold well_formed_dict.
  assert (H : (fix all (l : list (string * Value)) : Prop :=
                 match l with
                 | [] => True
                 | (k, v') :: l' =>
                     k <> EmptyString /\ well_formed v' /\ all l'
                 end) d
              <-> Forall (fun kv => fst kv <> EmptyString
                                    /\ well_formed (snd kv)) d).
  { induction d as [|[k v] d IH].
    - split; [constructor|exact (fun _ => I)].
    - split.
      + intros (Hk & Hv & Hd). constructor; [now split|now apply IH].
      + intros Hall. inversion Hall as [|? ? [Hk Hv] Hd]; subst.
        repeat split; [exact Hk|exact Hv|now apply IH]. }
  tauto.
Qed.

Lemma dict_set_Forall {V : Type} (P : string * V -> Prop) (d : dict V)
      (k : string) (v : V) :
  Forall P d -> P (k, v) -> Forall P (dict_set d k v).
Proof.
  intros Hd Hkv. induction d as [|[k' v'] d IH]; cbn [dict_set].
  - now constructor.
  - inversion Hd as [|? ? Hhd Htl]; subst.
    destruct (String.eqb_spec k' k) as [->|].
    + now constructor.
    + constructor; [exact Hhd|now apply IH].
Qed.

Lemma dict_set_well_formed (d : dict Value) (k : string) (v : Value) :
  well_formed_dict d -> k <> EmptyString -> well_formed v ->
  well_formed_dict (dict_set d k v).
Proof.
  intros [Hnd Hall] Hk Hv. split.
  - now apply dict_set_NoDup.
  - apply dict_set_Forall; [exact Hall|now split].
Qed.

Lemma well_formed_dict_nil : well_formed_dict [].
Proof. split; constructor. Qed.

Lemma nonempty_not_empty (s : string) : nonempty s = true -> s <> EmptyString.
Proof. now destruct s. Qed.

Lemma _parse_nested_block_loop_well_formed (lines : list string) :
  forall (fuel depth base_indent : nat) (block_indent : option nat)
         (result : dict Value) (idx : nat) (r : dict Value) (e : nat),
    well_formed_dict result ->
    _parse_nested_block_loop fuel depth lines base_indent block_indent
                             result idx
      = Some (Ok (r, e)) ->
    well_formed_dict r.
Proof.
  induction fuel as [|fuel IH]; intros depth base bi result idx r e Hwf;
    cbn [_parse_nested_block_loop]; [discriminate|].
  destruct (nth_error lines idx) as [raw|]; [|now intros [= <- <-]].
  destruct (negb (nonempty (strip raw)) || startswith (strip raw) "#");
    [now apply IH|].
  destruct (_get_indent_level raw <=? base); [now intros [= <- <-]|].
  destruct (_ <? _get_indent_level raw); [now apply IH|].
  destruct (negb (contains ":" (strip raw))); [now apply IH|].
  destruct (split_once ":" (strip raw)) as [[key_part val_part]|];
    [|now apply IH].
  destruct (nonempty (_normalize_yaml_key key_part false)) eqn:Hkey;
    cbn [negb]; [|now apply IH].
  apply nonempty_not_empty in Hkey.
  destruct (_is_inline_yaml_value (strip val_part)).
  { apply IH. now apply dict_set_well_formed. }
  destruct depth as [|depth]; [discriminate|].
  destruct (_parse_nested_block_loop fuel depth lines (_get_indent_level raw)
                                     None [] (S idx))
    as [[[nested idx1]|e1]|] eqn:E1; [|discriminate|discriminate].
  pose proof (IH _ _ _ _ _ _ _ well_formed_dict_nil E1) as Hnested.
  apply IH. destruct nested as [|entry nested]; [exact Hwf|].
  cbn [dict_nonempty]. apply dict_set_well_formed; [exact Hwf|exact Hkey|].
  apply well_formed_Dict. split; [discriminate|exact Hnested].
Qed.

Lemma _parse_nested_block_well_formed (depth : nat) (lines : list string)
      (start_idx base_indent : nat) (r : dict Value) (e : nat) :
  _parse_nested_block depth lines start_idx base_indent = Ok (r, e) ->
  well_formed_dict r.
Proof.
  intros E.
  destruct (_parse_nested_block_returns depth lines start_idx base_indent)
    as (Hloop & _).
  rewrite E in Hloop.
  exact (_parse_nested_block_loop_well_formed lines _ _ _ _ _ _ _ _
           well_formed_dict_nil Hloop).
Qed.

Lemma _parse_nested_entry_well_formed (depth : nat) (lines : list string)
      (result : dict Value) (item : BlockItem) (result' : dict Value) :
  item_key item <> EmptyString ->
  well_formed_dict result ->
  _parse_nested_entry depth lines result item = Ok result' ->
  well_formed_dict result'.
Proof.
  destruct item as [[[key value] line_idx] indent].
  cbn [item_key fst]. intros Hk Hwf.
  destruct value as [v|]; cbn [_parse_nested_entry].
  - intros [= <-]. now apply dict_set_well_formed.
  - destruct (_parse_nested_block depth lines (line_idx + 1) indent)
      as [[nested e]|x] eqn:E; cbn [bind fst]; [|discriminate].
    intros [= <-].
    pose proof (_parse_nested_block_well_formed _ _ _ _ _ _ E) as Hnested.
    destruct nested as [|entry nested]; [exact Hwf|].
    cbn [dict_nonempty]. apply dict_set_well_formed; [exact Hwf|exact Hk|].
    apply well_formed_Dict. split; [discriminate|exact Hnested].
Qed.

Lemma _parse_nested_section_well_formed (depth : nat) (lines : list string)
      (section : string) (d : dict Value) :
  _parse_nested_section depth lines section = Ok d ->
  well_formed_dict d.
Proof.
  unfold _parse_nested_section.
  pose proof (_iter_yaml_block_from_sound (section ++ ":") lines [] false None)
    as (Hall & _).
  fold (_iter_yaml_block lines section) in Hall.
  assert (Hkeys : Forall (fun item => item_key item <> EmptyString)
                         (_iter_yaml_block lines section)).
  { eapply Forall_impl; [|exact Hall].
    now intros item (_ & raw & _ & _ & _ & Hk & _). }
  clear Hall. revert Hkeys.
  generalize (_iter_yaml_block lines section) as items.
  assert (G : forall items result,
             well_formed_dict result ->
             Forall (fun item => item_key item <> EmptyString) items ->
             fold_left (fun acc item =>
                          result <- acc ;;
                          _parse_nested_entry depth lines result item)
                       items (Ok result) = Ok d ->
             well_formed_dict d).
  { induction items as [|item items IH];
      intros result Hwf Hkeys; cbn [fold_left bind];
      [now intros [= <-]|].
    inversion Hkeys as [|? ? Hk Hrest]; subst.
    destruct (_parse_nested_entry depth lines result item) as [result'|x]
      eqn:E.
    - apply IH; [|exact Hrest].
      exact (_parse_nested_entry_well_formed _ _ _ _ _ Hk Hwf E).
    - rewrite fold_nested_raise. discriminate. }
  intros items Hkeys. now apply G; [apply well_formed_dict_nil|].
Qed.

(** X7.  The icons and the hosts of every parsed configuration are well formed
    at every depth: keys are distinct and not empty, and no nested mapping
    is empty. *)
Theorem parsed_mappings_well_formed :
  forall (depth : nat) (content : string) (c : ParsedConfig),
    load_config_from_string depth content = Ok c ->
    well_formed_dict (icons c) /\ well_formed_dict (hosts c).
Proof.
  intros depth content c. unfold load_config_from_string.
  destruct (_parse_nested_section depth (splitlines content) "icons")
    as [i|x] eqn:Ei; cbn [bind]; [|discriminate].
  destruct (_parse_nested_section depth (splitlines content) "hosts")
    as [h|x] eqn:Eh; cbn [bind]; [|discriminate].
  intros [= <-]. cbn [icons hosts].
  split; eapply _parse_nested_section_well_formed; eassumption.
Qed.

Lemma parsed_mappings_well_formed_witness :
  well_formed_dict (icons (Examples.parsed Examples.no_icon_config))
  /\ well_formed_dict (hosts (Examples.parsed Examples.no_icon_config)).
Proof.
  apply (parsed_mappings_well_formed 900 Examples.no_icon_config).
  reflexivity.
Defined.

(** *** The last item of a key wins *)

Lemma fold_simple_get (items : list BlockItem) (key : string) :
  forall result : dict string,
    dict_get (fold_left _parse_simple_entry items result) key
    = match last_inline items key with
      | Some v => Some v
      | None => dict_get result key
      end.
Proof.
  induction items as [|[[[k value] line_idx] indent] items IH];
    intros result; cbn [fold_left last_inline]; [reflexivity|].
  rewrite IH. destruct (last_inline items key); [reflexivity|].
  cbn [item_key item_value fst snd _parse_simple_entry].
  destruct value as [v|].
  - destruct (String.eqb_spec k key) as [->|N].
    + apply dict_get_set_same.
    + now apply dict_get_set_other.
  - now destruct (String.eqb k key).
Qed.

(** X8.  In a simple section a key has the inline value of the last item of
    the block with that key; items with nested content are passed over, and
    a key no item gives inline is absent. *)
Theorem simple_section_last_wins :
  forall (lines : list string) (section key : string),
    dict_get (_parse_simple_section lines section) key
    = last_inline (_iter_yaml_block lines section) key.
Proof.
  intros lines section key. unfold _parse_simple_section.
  rewrite fold_simple_get. now destruct (last_inline _ key).
Qed.

(** X9.  The layout glyphs are the two spellings of the block merged: a key has
    its value from the block layout-glyphs when that block gives it, and
    from the block layout-glyps otherwise. *)
Theorem layout_glyphs_merge :
  forall (lines : list string) (key : string),
    dict_get (_parse_layout_glyphs lines) key
    = match last_inline (_iter_yaml_block lines "layout-glyphs") key with
      | Some v => Some v
      | None => last_inline (_iter_yaml_block lines "layout-glyps") key
      end.
Proof.
  intros lines key. unfold _parse_layout_glyphs. cbn [fold_left].
  rewrite !fold_simple_get.
  now destruct (last_inline (_iter_yaml_block lines "layout-glyps") key).
Qed.

(** *** Settings that the config block does not name *)

Lemma fold_config_keeps {A : Type} (proj : IconConfig -> A)
      (keys : list string) :
  (forall config item,
      names_setting keys item = false ->
      proj (_parse_config_entry config item) = proj config) ->
  forall items config,
    (forall item, In item items -> names_setting keys item = false) ->
    proj (fold_left _parse_config_entry items config) = proj config.
Proof.
  intros Hstep. induction items as [|item items IH]; intros config H;
    cbn [fold_left]; [reflexivity|].
  rewrite IH by (intros it Hit; apply H; now right).
  apply Hstep, H. now left.
Qed.

(** One entry leaves alone the settings it does not name. *)
Ltac entry_keeps :=
  intros config [[[key value] line_idx] indent];
  unfold names_setting, _parse_config_entry, mem;
  cbn [item_key fst existsb];
  generalize (norm_config_key key) as k; intros k H;
  destruct value as [v|]; [|reflexivity];
  repeat match type of H with
         | (_ || _) = false => apply orb_false_elim in H as [? H]
         end;
  repeat match goal with
         | E : String.eqb k _ = false |- _ => rewrite E; clear E
         end;
  cbn [andb orb];
  repeat match goal with
         | |- context [if ?b then _ else _] => destruct b
         end;
  reflexivity.

Lemma entry_keeps_fallback_icon :
  forall config item,
    names_setting ["fallback_icon"] item = false ->
    fallback_icon (_parse_config_entry config item) = fallback_icon config.
Proof. entry_keeps. Qed.

Lemma entry_keeps_show_name :
  forall config item,
    names_setting ["show_name"] item = false ->
    show_name (_parse_config_entry config item) = show_name config.
Proof. entry_keeps. Qed.

Lemma entry_keeps_use_process_name :
  forall config item,
    names_setting ["use_process_name"] item = false ->
    use_process_name (_parse_config_entry config item)
    = use_process_name config.
Proof. entry_keeps. Qed.

Lemma entry_keeps_prefer_host_icon :
  forall config item,
    names_setting ["prefer_host_icon"] item = false ->
    prefer_host_icon (_parse_config_entry config item)
    = prefer_host_icon config.
Proof. entry_keeps. Qed.

Lemma entry_keeps_ring_color_active :
  forall config item,
    names_setting ["ring_color_active"; "index_color_active"] item = false ->
    ring_color_active (_parse_config_entry config item)
    = ring_color_active config.
Proof. entry_keeps. Qed.

Lemma entry_keeps_ring_color_inactive :
  forall config item,
    names_setting ["ring_color_inactive"; "index_color_inactive"] item
      = false ->
    ring_color_inactive (_parse_config_entry config item)
    = ring_color_inactive config.
Proof. entry_keeps. Qed.

Lemma entry_keeps_icon_color :
  forall config item,
    names_setting ["icon_color"] item = false ->
    icon_color (_parse_config_entry config item) = icon_color config.
Proof. entry_keeps. Qed.

Lemma entry_keeps_alert_color :
  forall config item,
    names_setting ["alert_color"] item = false ->
    alert_color (_parse_config_entry config item) = alert_color config.
Proof. entry_keeps. Qed.

Lemma entry_keeps_multi_pane_icon :
  forall config item,
    names_setting ["multi_pane_icon"] item = false ->
    multi_pane_icon (_parse_config_entry config item)
    = multi_pane_icon config.
Proof. entry_keeps. Qed.

(** X10.  A setting keeps its default when no item of the config block names it,
    whatever else the block holds: the key of an item counts lower-cased
    and with its hyphens read as underscores, and the two ring colours also
    go by their index_color names. *)
Theorem unnamed_settings_keep_defaults :
  forall lines : list string,
    let items := _iter_yaml_block lines "config" in
    let c := _parse_config_section lines in
    let unnamed keys :=
      forall item, In item items -> names_setting keys item = false in
    (unnamed ["fallback_icon"] -> fallback_icon c = default_fallback_icon)
    /\ (unnamed ["show_name"] -> show_name c = false)
    /\ (unnamed ["use_process_name"] -> use_process_name c = false)
    /\ (unnamed ["prefer_host_icon"] -> prefer_host_icon c = true)
    /\ (unnamed ["ring_color_active"; "index_color_active"] ->
        ring_color_active c = "#875fff")
    /\ (unnamed ["ring_color_inactive"; "index_color_inactive"] ->
        ring_color_inactive c = "#45475a")
    /\ (unnamed ["icon_color"] -> icon_color c = "#cdd6f4")
    /\ (unnamed ["alert_color"] -> alert_color c = "#f38ba8")
    /\ (unnamed ["multi_pane_icon"] -> multi_pane_icon c = EmptyString).
Proof.
  intros lines items c unnamed. subst c unnamed. unfold _parse_config_section.
  fold items.
  repeat split; intros H.
  - now rewrite (fold_config_keeps _ _ entry_keeps_fallback_icon items _ H).
  - now rewrite (fold_config_keeps _ _ entry_keeps_show_name items _ H).
  - now rewrite (fold_config_keeps _ _ entry_keeps_use_process_name items _ H).
  - now rewrite (fold_config_keeps _ _ entry_keeps_prefer_host_icon items _ H).
  - now rewrite (fold_config_keeps _ _ entry_keeps_ring_color_active items _ H).
  - now rewrite (fold_config_keeps _ _ entry_keeps_ring_color_inactive
                                   items _ H).
  - now rewrite (fold_config_keeps _ _ entry_keeps_icon_color items _ H).
  - now rewrite (fold_config_keeps _ _ entry_keeps_alert_color items _ H).
  - now rewrite (fold_config_keeps _ _ entry_keeps_multi_pane_icon items _ H).
Qed.

Lemma unnamed_settings_keep_defaults_witness :
  prefer_host_icon
    (_parse_config_section ["config:"; "  Fallback-Icon: X";
                            "  index-color-active: red"; "  nonsense: 1"])
  = true.
Proof.
  pose proof (unnamed_settings_keep_defaults
                ["config:"; "  Fallback-Icon: X";
                 "  index-color-active: red"; "  nonsense: 1"])
    as (_ & _ & _ & H & _).
  apply H. intros item [<-|[<-|[<-|[]]]]; reflexivity.
Defined.

End YamlNestedFacts.

(** ** More on the host command parser *)

Module SshParserMore.
Import PyStr PyStrFacts Notions PyStrMore SshParser SshParserFacts.

(** *** The positional argument *)

Lemma _take_first_non_option_in :
  forall (n : nat) (args : list string) (h : string),
    List.length args <= n ->
    _take_first_non_option args = Some h ->
    In h args
    /\ ((forall a, In a args -> a <> "--") -> startswith h "-" = false).
Proof.
  induction n as [|n IH]; intros args h Hlen.
  - destruct args; [discriminate|cbn [List.length] in Hlen; lia].
  - destruct args as [|arg rest]; [discriminate|].
    cbn [List.length] in Hlen. cbn [_take_first_non_option].
    destruct (String.eqb_spec arg "--") as [->|Hne].
    { destruct rest as [|next rest]; [discriminate|].
      intros [= ->]. split; [right; now left|].
      intros H. now elim (H "--" (or_introl eq_refl)). }
    destruct (startswith arg "-") eqn:Hdash.
    2:{ intros [= ->]. split; [now left|]. now intros _. }
    assert (Hrest : _take_first_non_option rest = Some h ->
                    In h (arg :: rest)
                    /\ ((forall a, In a (arg :: rest) -> a <> "--") ->
                        startswith h "-" = false)).
    { intros H. destruct (IH rest h ltac:(lia) H) as [Hin Hd].
      split; [now right|]. intros Hall. apply Hd.
      intros a Ha. apply Hall. now right. }
    destruct (mem arg _SSH_OPTIONS_WITH_ARG).
    + destruct rest as [|value rest']; [discriminate|].
      intros H. cbn [List.length] in Hlen.
      destruct (IH rest' h ltac:(lia) H) as [Hin Hd].
      split; [right; now right|]. intros Hall. apply Hd.
      intros a Ha. apply Hall. right. now right.
    + destruct (has_attached_value arg); exact Hrest.
Qed.

(** X11.  The positional argument found is one of the arguments, and when no
    argument is the marker [--] it does not start with a dash: an argument
    that looks like an option is never taken for the host. *)
Theorem take_first_non_option_is_positional :
  forall (args : list string) (h : string),
    _take_first_non_option args = Some h ->
    In h args
    /\ ((forall a, In a args -> a <> "--") -> startswith h "-" = false).
Proof.
  intros args h. apply (_take_first_non_option_in (List.length args)). lia.
Qed.

Lemma take_first_non_option_is_positional_witness :
  In "gate" ["-v"; "-o"; "-oProxyCommand=none"; "gate"; "-l"]
  /\ startswith "gate" "-" = false.
Proof.
  destruct (take_first_non_option_is_positional
              ["-v"; "-o"; "-oProxyCommand=none"; "gate"; "-l"] "gate"
              eq_refl) as [Hin Hdash].
  split; [exact Hin|]. apply Hdash.
  intros a [<-|[<-|[<-|[<-|[<-|[]]]]]]; discriminate.
Defined.

(** *** Splitting a joined command line *)

Lemma append_empty_r (s : string) : (s ++ EmptyString)%string = s.
Proof. induction s as [|c s IH]; cbn; [reflexivity|now rewrite IH]. Qed.

Lemma append_assoc (a b c : string) :
  ((a ++ b) ++ c)%string = (a ++ b ++ c)%string.
Proof. induction a as [|x a IH]; cbn; [reflexivity|now rewrite IH]. Qed.

Lemma split_runs_aux_plain (t : string) :
  no_space t = true ->
  forall (cur : string) (s : string),
    split_runs_aux is_space cur false (t ++ s)
    = split_runs_aux is_space (cur ++ t) false s.
Proof.
  induction t as [|c t IH]; intros Hns cur s; cbn [String.append].
  - now rewrite append_empty_r.
  - cbn [no_space] in Hns. apply andb_prop in Hns as [Hc Ht].
    apply negb_true_iff in Hc. cbn [split_runs_aux]. rewrite Hc.
    rewrite (IH Ht). now rewrite append_assoc.
Qed.

Lemma split_runs_aux_plain_first (t : string) (prev : bool) (s : string) :
  plain_arg t = true ->
  split_runs_aux is_space EmptyString prev (t ++ s)
  = split_runs_aux is_space t false s.
Proof.
  unfold plain_arg. intros H. apply andb_prop in H as [Hne Hns].
  destruct t as [|c t]; [discriminate|].
  cbn [no_space] in Hns. apply andb_prop in Hns as [Hc Ht].
  apply negb_true_iff in Hc.
  cbn [String.append split_runs_aux]. rewrite Hc.
  now rewrite (split_runs_aux_plain t Ht).
Qed.

Lemma split_join_aux (parts : list string) :
  Forall (fun p => plain_arg p = true) parts ->
  forall prev : bool,
    filter nonempty (split_runs_aux is_space EmptyString prev (join " " parts))
    = parts.
Proof.
  unfold join.
  induction parts as [|p parts IH]; intros Hall prev; [reflexivity|].
  inversion Hall as [|? ? Hp Hrest]; subst.
  assert (Hne : nonempty p = true)
    by (unfold plain_arg in Hp; now apply andb_prop in Hp as [? _]).
  destruct parts as [|q parts].
  - cbn [String.concat].
    rewrite <- (append_empty_r p) at 1.
    rewrite (split_runs_aux_plain_first p prev EmptyString Hp).
    cbn [split_runs_aux filter]. now rewrite Hne.
  - cbn [String.concat].
    rewrite (split_runs_aux_plain_first p prev _ Hp).
    cbn [String.append split_runs_aux is_space].
    change (is_space " "%char) with true. cbn [filter]. rewrite Hne.
    f_equal. exact (IH Hrest true).
Qed.

(** X12.  Splitting a joined command line gives the arguments back when every
    argument is not empty and free of whitespace; so the host read from the
    arguments joined by spaces, as the resolver does with the command line
    of a pane, is the host read from the arguments themselves. *)
Theorem split_of_join :
  forall parts : list string,
    Forall (fun p => plain_arg p = true) parts ->
    split_ws (join " " parts) = parts
    /\ parse_ssh_host (CmdStr (join " " parts)) = parse_ssh_host (CmdSeq parts).
Proof.
  intros parts Hall.
  assert (E : split_ws (join " " parts) = parts)
    by (exact (split_join_aux parts Hall false)).
  split; [exact E|]. unfold parse_ssh_host. cbn [argv_of]. now rewrite E.
Qed.

Lemma split_of_join_witness :
  parse_ssh_host (CmdStr (join " " ["/usr/bin/ssh"; "-p"; "2222"; "Host.LAN"]))
  = parse_ssh_host (CmdSeq ["/usr/bin/ssh"; "-p"; "2222"; "Host.LAN"]).
Proof.
  apply (split_of_join ["/usr/bin/ssh"; "-p"; "2222"; "Host.LAN"]).
  repeat constructor.
Defined.

(** *** What a normalised host looks like *)

(** A one-character text occurs in [s] when some character of [s] is that
    character. *)
Lemma contains_char (x : ascii) (s : string) :
  contains (String x EmptyString) s
  = negb (all_chars (fun c => negb (Ascii.eqb x c)) s).
Proof.
  unfold contains. induction s as [|c s IH]; cbn [split_once all_chars].
  - reflexivity.
  - cbn [String.prefix].
    destruct (ascii_dec x c) as [<-|N].
    + rewrite Ascii.eqb_refl. cbn [negb andb]. now destruct s.
    + apply Ascii.eqb_neq in N. rewrite N. cbn [negb andb].
      destruct (split_once (String x EmptyString) s) as [[]|];
        cbn in IH |- *; exact IH.
Qed.

Lemma lower_char_colon (c : ascii) :
  Ascii.eqb ":"%char (lower_char c) = Ascii.eqb ":"%char c.
Proof. destruct c as [[] [] [] [] [] [] [] []]; reflexivity. Qed.

Lemma contains_colon_lower (s : string) :
  contains ":" (lower s) = contains ":" s.
Proof.
  rewrite !contains_char. f_equal.
  induction s as [|c s IH]; cbn [lower all_chars]; [reflexivity|].
  now rewrite lower_char_colon, IH.
Qed.

(** X13.  A normalised host is in lower case, and holds no colon unless the
    address was given in brackets. *)
Theorem normalized_host_shape :
  forall target : string,
    lower (_normalize_hostname target) = _normalize_hostname target
    /\ (startswith (strip (strip_user target)) "[" = false ->
        contains ":" (_normalize_hostname target) = false).
Proof.
  intros target. rewrite normalize_hostname_steps.
  split; [apply lower_idem|].
  intros H. rewrite contains_colon_lower, (startswith_bracket_false _ H).
  destruct (split_once ":" (strip (strip_user target))) as [[before after]|]
    eqn:E.
  - apply (split_once_first ":" (strip (strip_user target)) before after);
      [discriminate|exact E].
  - unfold contains. now rewrite E.
Qed.

Lemma normalized_host_shape_witness :
  contains ":" (_normalize_hostname "Root@FE80::1:22") = false.
Proof.
  apply (normalized_host_shape "Root@FE80::1:22"). reflexivity.
Defined.

End SshParserMore.

(** ** More on the icon resolver *)

Module TokenFacts.
Import PyStr PyStrFacts Notions PyStrMore SshParserMore.

Lemma all_chars_app (P : ascii -> bool) (a b : string) :
  all_chars P (a ++ b) = all_chars P a && all_chars P b.
Proof.
  induction a as [|c a IH]; cbn [String.append all_chars]; [reflexivity|].
  now rewrite IH, andb_assoc.
Qed.

(** The pieces of a split hold no separator, and keep what holds of every
    character of the text. *)
Lemma split_runs_aux_chars (is_sep P : ascii -> bool) (s : string) :
  forall (cur : string) (prev : bool),
    all_chars (fun c => P c && negb (is_sep c)) cur = true ->
    all_chars P s = true ->
    forall t, In t (split_runs_aux is_sep cur prev s) ->
              all_chars (fun c => P c && negb (is_sep c)) t = true.
Proof.
  induction s as [|c s IH]; intros cur prev Hcur Hs t;
    cbn [split_runs_aux].
  - now intros [<-|[]].
  - cbn [all_chars] in Hs. apply andb_prop in Hs as [Hc Hs].
    destruct (is_sep c) eqn:Esep.
    + destruct prev.
      * now apply IH.
      * intros [<-|Hin]; [exact Hcur|]. now apply (IH EmptyString true).
    + apply IH; [|exact Hs].
      rewrite all_chars_app, Hcur. cbn [all_chars]. now rewrite Hc, Esep.
Qed.

Lemma split_runs_chars (is_sep P : ascii -> bool) (s t : string) :
  all_chars P s = true ->
  In t (split_runs is_sep s) ->
  all_chars P t = true /\ all_chars (fun c => negb (is_sep c)) t = true.
Proof.
  intros Hs Hin.
  pose proof (split_runs_aux_chars is_sep P s EmptyString false eq_refl Hs
                                   t Hin) as H.
  clear Hin Hs. induction t as [|c t IH]; cbn [all_chars] in *; [now split|].
  apply andb_prop in H as [Hc Ht]. apply andb_prop in Hc as [Hp Hn].
  destruct (IH Ht) as [H1 H2]. now rewrite Hp, Hn, H1, H2.
Qed.

Lemma prefix_refl (s : string) : String.prefix s s = true.
Proof.
  induction s as [|c s IH]; cbn [String.prefix]; [reflexivity|].
  destruct (ascii_dec c c) as [_|N]; [exact IH|now elim N].
Qed.

Lemma contains_refl (s : string) : contains s s = true.
Proof.
  unfold contains. destruct s as [|c s]; cbn [split_once].
  - reflexivity.
  - now rewrite (prefix_refl (String c s)).
Qed.

(** The pieces of a split are parts of the text. *)
Lemma split_runs_aux_part (is_sep : ascii -> bool) (s : string) :
  forall (cur : string) (prev : bool),
    (prev = true -> cur = EmptyString) ->
    forall t, In t (split_runs_aux is_sep cur prev s) ->
              exists a b, (cur ++ s)%string = (a ++ t ++ b)%string.
Proof.
  induction s as [|c s IH]; intros cur prev Hprev t; cbn [split_runs_aux].
  - intros [<-|[]]. exists EmptyString, EmptyString. reflexivity.
  - destruct (is_sep c).
    + destruct prev.
      * rewrite (Hprev eq_refl). intros Hin.
        destruct (IH EmptyString true (fun _ => eq_refl) t Hin)
          as (a & b & E).
        exists (String c a), b. cbn [String.append] in *. now rewrite E.
      * intros [<-|Hin].
        -- exists EmptyString, (String c s). reflexivity.
        -- destruct (IH EmptyString true (fun _ => eq_refl) t Hin)
             as (a & b & E).
           exists (cur ++ String c a)%string, b.
           cbn [String.append] in E. rewrite E.
           rewrite append_assoc. reflexivity.
    + intros Hin.
      destruct (IH (cur ++ String c EmptyString)%string false
                   ltac:(discriminate) t Hin) as (a & b & E).
      exists a, b. rewrite <- E. now rewrite append_assoc.
Qed.

Lemma split_runs_part (is_sep : ascii -> bool) (s t : string) :
  In t (split_runs is_sep s) -> contains t s = true.
Proof.
  intros Hin.
  destruct (split_runs_aux_part is_sep s EmptyString false
                                ltac:(discriminate) t Hin) as (a & b & E).
  cbn [String.append] in E. rewrite E.
  apply contains_middle, contains_refl.
Qed.

Lemma lower_fixed (s : string) :
  all_chars is_lower_fixed s = true -> lower s = s.
Proof.
  induction s as [|c s IH]; cbn [all_chars lower]; [reflexivity|].
  intros H. apply andb_prop in H as [Hc Hs]. unfold is_lower_fixed in Hc.
  apply Ascii.eqb_eq in Hc. now rewrite Hc, IH.
Qed.

Lemma lower_all_fixed (s : string) : all_chars is_lower_fixed (lower s) = true.
Proof.
  induction s as [|c s IH]; cbn [all_chars lower]; [reflexivity|].
  unfold is_lower_fixed at 1. now rewrite lower_char_idem, Ascii.eqb_refl.
Qed.

(** A token of a lower-cased text is in lower case, is a part of the text,
    and holds no separator. *)
Lemma token_of_lower (is_sep : ascii -> bool) (s t : string) :
  In t (filter PyStr.nonempty (split_runs is_sep (lower s))) ->
  lower t = t
  /\ contains t (lower s) = true
  /\ all_chars (fun c => negb (is_sep c)) t = true.
Proof.
  intros Hin. apply filter_In in Hin as [Hin _].
  destruct (split_runs_chars is_sep is_lower_fixed (lower s) t
                             (lower_all_fixed s) Hin) as [Hfix Hsep].
  split; [now apply lower_fixed|]. split; [|exact Hsep].
  now apply (split_runs_part is_sep).
Qed.

End TokenFacts.

Module IconResolverMore.
Import PyStr PyStrFacts Notions PyStrMore SshParser SshParserMore YamlParser
       YamlParserFacts Fnmatch IconResolver IconResolverFacts TokenFacts
       Examples.

Lemma dict_get_In {V : Type} (d : dict V) (k : string) (v : V) :
  dict_get d k = Some v -> In (k, v) d.
Proof.
  induction d as [|[k' v'] d IH]; cbn [dict_get]; [discriminate|].
  destruct (String.eqb_spec k' k) as [->|].
  - intros [= ->]. now left.
  - intros H. right. now apply IH.
Qed.

(** *** The title-icon tier *)

(** X14.  The title-icon tier matches exactly when the title is not empty and
    some key of [title_icons], lower-cased, is a part of the lower-cased
    title: a key found through a token of the title is also found by the
    scan for parts, so the tokens only decide which entry wins. *)
Theorem title_icon_tier_is_substring_match :
  forall (config : ParsedConfig) (title : string),
    is_some (_match_title_icons title (title_icons config)
                                (YamlParser.config config))
    = nonempty title
      && existsb (fun kv => contains (lower (fst kv)) (lower title))
                 (title_icons config).
Proof.
  intros config title.
  destruct (_match_title_icons_answers config title) as [-> _].
  unfold title_icon_tier_matches.
  destruct (nonempty title); cbn [andb]; [|reflexivity].
  destruct (title_icons config) as [|entry entries] eqn:Eti;
    [reflexivity|].
  cbn [dict_nonempty]. rewrite <- Eti. clear Eti entry entries.
  destruct (existsb (dict_has (title_icons config)) (title_tokens title))
    eqn:Etok; cbn [orb]; [|reflexivity].
  symmetry. apply existsb_exists in Etok as (token & Hin & Hhas).
  unfold dict_has in Hhas.
  destruct (dict_get (title_icons config) token) as [icon|] eqn:Hget;
    [|discriminate].
  destruct (token_of_lower is_title_sep title token Hin) as (Hlow & Hpart & _).
  apply existsb_exists. exists (token, icon).
  split; [now apply dict_get_In|]. cbn [fst]. now rewrite Hlow.
Qed.

(** *** The session tier *)

Lemma _match_session_keys_sound (token : string) (sessions : dict string)
      (r : IconResult) :
  _match_session_keys token sessions = Some r ->
  exists key icon,
    In (key, icon) sessions /\ lower key = token
    /\ r = simple_result icon SrcSession.
Proof.
  induction sessions as [|[key icon] sessions IH];
    cbn [_match_session_keys]; [discriminate|].
  destruct (String.eqb_spec (lower key) token) as [E|].
  - intros [= <-]. exists key, icon. repeat split; [now left|exact E].
  - intros H. destruct (IH H) as (k & i & Hin & Hk & Hr).
    exists k, i. repeat split; [now right|exact Hk|exact Hr].
Qed.

Lemma _match_session_tokens_sound (sessions : dict string) (r : IconResult) :
  forall tokens : list string,
    (forall t, In t tokens ->
               lower t = t /\ all_chars is_alnum t = true) ->
    _match_session_tokens tokens sessions = Some r ->
    exists key icon token,
      In (key, icon) sessions /\ In token tokens /\ lower key = token
      /\ all_chars is_alnum (lower key) = true
      /\ r = simple_result icon SrcSession.
Proof.
  induction tokens as [|token tokens IH]; intros Hgood;
    cbn [_match_session_tokens]; [discriminate|].
  destruct (Hgood token (or_introl eq_refl)) as [Hlow Halnum].
  destruct (dict_get sessions token) as [icon|] eqn:Hget.
  { intros [= <-]. exists token, icon, token.
    repeat split; [now apply dict_get_In|now left|exact Hlow|].
    rewrite Hlow. exact Halnum. }
  destruct (_match_session_keys token sessions) as [r'|] eqn:Hkeys.
  { intros [= <-].
    destruct (_match_session_keys_sound _ _ _ Hkeys)
      as (key & icon & Hin & Hk & Hr).
    exists key, icon, token.
    repeat split; [exact Hin|now left|exact Hk| |exact Hr].
    rewrite Hk. exact Halnum. }
  intros H.
  destruct (IH (fun t Ht => Hgood t (or_intror Ht)) H)
    as (key & icon & tok & Hin & Htok & Hk & Ha & Hr).
  exists key, icon, tok. repeat split; try assumption. now right.
Qed.

(** X15.  A session match comes from an entry of [sessions] whose key,
    lower-cased, is one of the tokens of the lower-cased session name; the
    lower-cased key is therefore made of the letters and digits of ASCII
    only and is a part of the lower-cased session name, so a key whose
    lower-cased form holds any other character never matches. *)
Theorem match_session_sound :
  forall (session : string) (sessions : dict string) (cfg : IconConfig)
         (r : IconResult),
    _match_session session sessions cfg = Some r ->
    exists key icon token,
      In (key, icon) sessions
      /\ In token (session_tokens session)
      /\ lower key = token
      /\ all_chars is_alnum (lower key) = true
      /\ contains (lower key) (lower session) = true
      /\ r = simple_result icon SrcSession.
Proof.
  intros session sessions cfg r. unfold _match_session.
  destruct (negb (nonempty session) || negb (dict_nonempty sessions));
    [discriminate|].
  fold (session_tokens session). intros H.
  assert (Hgood : forall t, In t (session_tokens session) ->
                            lower t = t /\ all_chars is_alnum t = true).
  { intros t Ht.
    destruct (token_of_lower is_session_sep session t Ht) as (Hl & _ & Hs).
    split; [exact Hl|].
    clear -Hs. induction t as [|c t IH]; cbn [all_chars] in *; [reflexivity|].
    apply andb_prop in Hs as [Hc Ht]. unfold is_session_sep in Hc.
    rewrite negb_involutive in Hc. now rewrite Hc, IH. }
  destruct (_match_session_tokens_sound sessions r _ Hgood H)
    as (key & icon & token & Hin & Htok & Hk & Ha & Hr).
  exists key, icon, token. repeat split; try assumption.
  rewrite Hk.
  now destruct (token_of_lower is_session_sep session token Htok)
    as (_ & Hpart & _).
Qed.

Lemma match_session_sound_witness :
  exists key icon token,
    In (key, icon) [("my-work", "M"); ("Alpha", "A")]
    /\ In token (session_tokens "Work-2024_ALPHA")
    /\ lower key = token
    /\ all_chars is_alnum (lower key) = true
    /\ contains (lower key) (lower "Work-2024_ALPHA") = true
    /\ simple_result "A" SrcSession = simple_result icon SrcSession.
Proof.
  apply (match_session_sound "Work-2024_ALPHA"
                             [("my-work", "M"); ("Alpha", "A")]
                             IconConfig_default).
  reflexivity.
Defined.

(** X16.  When every key of [sessions] is in lower case, the scan of the keys
    that follows a failed lookup of a token finds nothing the lookup does
    not: it returns exactly the entry the lookup returns. *)
Theorem session_scan_is_lookup :
  forall (sessions : dict string) (token : string),
    (forall kv, In kv sessions -> lower (fst kv) = fst kv) ->
    _match_session_keys token sessions
    = option_map (fun icon => simple_result icon SrcSession)
                 (dict_get sessions token).
Proof.
  intros sessions token.
  induction sessions as [|[key icon] sessions IH]; intros Hlow;
    cbn [_match_session_keys dict_get]; [reflexivity|].
  pose proof (Hlow (key, icon) (or_introl eq_refl)) as Hk.
  cbn [fst] in Hk. rewrite Hk.
  destruct (String.eqb key token); [reflexivity|].
  apply IH. intros kv Hkv. apply Hlow. now right.
Qed.

Lemma session_scan_is_lookup_witness :
  _match_session_keys "beta" [("alpha", "A"); ("beta", "B")]
  = Some (simple_result "B" SrcSession).
Proof.
  rewrite (session_scan_is_lookup [("alpha", "A"); ("beta", "B")] "beta").
  - reflexivity.
  - intros kv [<-|[<-|[]]]; reflexivity.
Defined.

(** *** The title-pattern tier *)

Lemma _match_title_patterns_inner_agree (rt1 rt2 : Runtime) (title : string)
      (value : dict Value) :
  (forall pattern,
      String.length pattern <= 500 ->
      (re_search rt1 pattern title = Found <->
       re_search rt2 pattern title = Found)
      /\ (forall e, re_search rt1 pattern title = SearchRaises e <->
                    re_search rt2 pattern title = SearchRaises e)) ->
  (forall d, str_of_dict rt1 d = str_of_dict rt2 d) ->
  forall title_patterns : dict Value,
    _match_title_patterns_inner rt1 title value title_patterns
    = _match_title_patterns_inner rt2 title value title_patterns.
Proof.
  intros Hre Hstr.
  induction title_patterns as [|[pattern icon] tp IH];
    cbn [_match_title_patterns_inner]; [reflexivity|].
  destruct (_MAX_PATTERN_LENGTH <? String.length pattern) eqn:Hlen;
    [exact IH|].
  apply Nat.ltb_ge in Hlen. destruct (Hre pattern Hlen) as [Hfound Hraise].
  assert (Hicon : py_str rt1 icon = py_str rt2 icon)
    by (destruct icon; [reflexivity|apply Hstr]).
  destruct (re_search rt1 pattern title) as [| | |e1] eqn:E1.
  - rewrite (proj1 Hfound eq_refl). now rewrite Hicon.
  - destruct (re_search rt2 pattern title) as [| | |e2] eqn:E2;
      [now pose proof (proj2 Hfound eq_refl)|exact IH|exact IH|].
    now pose proof (proj2 (Hraise e2) eq_refl).
  - destruct (re_search rt2 pattern title) as [| | |e2] eqn:E2;
      [now pose proof (proj2 Hfound eq_refl)|exact IH|exact IH|].
    now pose proof (proj2 (Hraise e2) eq_refl).
  - now rewrite (proj1 (Hraise e1) eq_refl).
Qed.

(** X17.  The title-pattern tier depends on the search only through, for each
    pattern of at most 500 characters, whether the pattern is found in the
    title and which exception other than the pattern error the search
    raises, if any: a longer pattern is never searched for, and a pattern
    that does not compile counts as one that is not found. *)
Theorem title_patterns_search_only_short :
  forall (rt1 rt2 : Runtime) (title : string) (icons : dict Value)
         (cfg : IconConfig),
    (forall pattern,
        String.length pattern <= 500 ->
        (re_search rt1 pattern title = Found <->
         re_search rt2 pattern title = Found)
        /\ (forall e, re_search rt1 pattern title = SearchRaises e <->
                      re_search rt2 pattern title = SearchRaises e)) ->
    (forall d, str_of_dict rt1 d = str_of_dict rt2 d) ->
    _match_title_patterns rt1 title icons cfg
    = _match_title_patterns rt2 title icons cfg.
Proof.
  intros rt1 rt2 title icons cfg Hre Hstr. unfold _match_title_patterns.
  destruct (negb (nonempty title)); [reflexivity|].
  induction icons as [|[app value] icons IH];
    cbn [_match_title_patterns_loop]; [reflexivity|].
  destruct value as [s|d]; [exact IH|].
  destruct (dict_get d "title") as [[s|tp]|]; try exact IH.
  destruct (negb (dict_nonempty tp)); [exact IH|].
  rewrite (_match_title_patterns_inner_agree rt1 rt2 title d Hre Hstr tp).
  now rewrite IH.
Qed.

Lemma title_patterns_search_only_short_witness :
  _match_title_patterns literal_runtime "aaaa"
    (icons (parsed (title_pattern_config 501)))
    IconConfig_default
  = _match_title_patterns
      {| re_search := fun pattern title =>
                        if 500 <? String.length pattern
                        then SearchRaises OverflowError
                        else match re_search literal_runtime pattern title with
                             | NotFound => PatternError
                             | outcome => outcome
                             end;
         str_of_dict := str_of_dict literal_runtime;
         get_foreground_cmdline := get_foreground_cmdline literal_runtime |}
      "aaaa"
      (icons (parsed (title_pattern_config 501)))
      IconConfig_default.
Proof.
  apply title_patterns_search_only_short; [|reflexivity].
  intros pattern Hlen. cbn [re_search literal_runtime].
  replace (500 <? String.length pattern) with false
    by (symmetry; now apply Nat.ltb_ge).
  destruct (contains (lower pattern) (lower "aaaa"));
    repeat split; intros; (reflexivity || discriminate).
Defined.

(** *** The configuration cache *)

(** X18.  The cache keeps its promises: a failed call leaves the globals as they
    were and never fails the assertion; a successful call leaves the
    returned configuration in the cache under the expanded path, and a
    second call on an unchanged file system returns the same configuration
    and changes nothing. *)
Theorem get_config_cache_laws :
  forall (fs : FileSystem) (st st' : Cache) (config_path : string),
    (forall e,
        get_config fs st config_path = (Raise e, st') ->
        st' = st /\ e <> AssertionError)
    /\ (forall c,
          get_config fs st config_path = (Ok c, st') ->
          _config_cache st' = Some c
          /\ _config_path_cache st' = expanduser fs config_path
          /\ get_config fs st' config_path = (Ok c, st')).
Proof.
  intros fs st st' config_path. split.
  - intros e. unfold get_config.
    destruct (cache_invalid st _ _) eqn:Hinv.
    + unfold reload, load_config.
      destruct (getsize fs _) as [size|].
      * destruct (MAX_CONFIG_SIZE <? size)%Z;
          [intros [= <- <-]; split; [reflexivity|discriminate]|].
        destruct (read_text fs _) as [content|];
          [|intros [= <- <-]; split; [reflexivity|discriminate]].
        destruct (load_config_from_string _ content) as [c|e'] eqn:El;
          [discriminate|].
        intros [= <- <-]. split; [reflexivity|].
        rewrite (YamlParserFacts.load_config_from_string_raises _ _ _ El).
        discriminate.
      * intros [= <- <-]. split; [reflexivity|discriminate].
    + unfold cache_invalid in Hinv.
      destruct (_config_cache st); [discriminate|].
      cbn [orb] in Hinv. discriminate.
  - intros c H. split; [|split; [|exact (get_config_twice _ _ _ _ _ H)]].
    + revert H. unfold get_config.
      destruct (cache_invalid st _ _).
      * unfold reload. destruct (load_config fs _); [|discriminate].
        now intros [= <- <-].
      * destruct (_config_cache st) eqn:E; [|discriminate].
        now intros [= <- <-].
    + revert H. unfold get_config.
      destruct (cache_invalid st _ _) eqn:Hinv.
      * unfold reload. destruct (load_config fs _); [|discriminate].
        now intros [= <- <-].
      * destruct (_config_cache st) eqn:E; [|discriminate].
        intros [= <- <-]. unfold cache_invalid in Hinv. rewrite E in Hinv.
        cbn [orb] in Hinv. apply orb_false_elim in Hinv as [Hp _].
        apply negb_false_iff, String.eqb_eq in Hp. now symmetry.
Qed.

Lemma get_config_cache_laws_witness :
  get_config no_file_fs initial_cache default_path
  = (Raise (FileNotFoundError default_path_expanded), initial_cache)
  /\ _config_path_cache
       (snd (get_config
               (one_file_fs default_path_expanded 400 7 no_icon_config)
               initial_cache default_path))
     = default_path_expanded.
Proof.
  split; [reflexivity|].
  pose proof (get_config_cache_laws
                (one_file_fs default_path_expanded 400 7 no_icon_config)
                initial_cache
                (snd (get_config
                        (one_file_fs default_path_expanded 400 7
                                     no_icon_config)
                        initial_cache default_path))
                default_path) as [_ H].
  destruct (H cached_config) as (_ & Hp & _); [reflexivity|exact Hp].
Defined.

(** *** The gates of the host tier *)

(** X19.  The command line and the pane play no part when host icons are not
    preferred, when no host or an empty host is read from the command line,
    or when no host is configured; and a command line that is given, even
    an empty one, keeps the pane from being asked. *)
Theorem host_tier_gates :
  forall (rt : Runtime) (config : ParsedConfig)
         (process title session : string) (cmdline : option string)
         (pane_pid : option Z),
    ((prefer_host_icon (YamlParser.config config) = false
      \/ detect_ssh_host (effective_cmdline rt cmdline pane_pid) = None
      \/ detect_ssh_host (effective_cmdline rt cmdline pane_pid)
         = Some EmptyString
      \/ hosts config = []) ->
     resolve_with rt config process title session cmdline pane_pid
     = resolve_with rt config process title session None None)
    /\ (forall c,
          cmdline = Some c ->
          resolve_with rt config process title session cmdline pane_pid
          = resolve_with rt config process title session cmdline None).
Proof.
  intros rt config process title session cmdline pane_pid. split.
  - intros H. unfold resolve_with.
    cbn [effective_cmdline detect_ssh_host].
    destruct H as [H|[H|[H|H]]].
    + rewrite H. cbn [andb].
      now destruct (detect_ssh_host (effective_cmdline rt cmdline pane_pid)).
    + now rewrite H.
    + rewrite H. cbn [nonempty]. now rewrite andb_false_r.
    + rewrite H.
      destruct (detect_ssh_host (effective_cmdline rt cmdline pane_pid));
        [|reflexivity].
      now destruct (_ && _).
  - intros c ->. reflexivity.
Qed.

Lemma host_tier_gates_witness :
  resolve_with literal_runtime
               (parsed
                  (text ["config:"; "  prefer-host-icon: no"; "hosts:";
                         "  *.local: L"; "icons:"; "  ssh: S"]))
               "ssh" EmptyString EmptyString (Some "ssh server.local") None
  = Ok (simple_result "S" SrcProcess).
Proof.
  rewrite (proj1 (host_tier_gates literal_runtime _ "ssh" EmptyString EmptyString
                                  (Some "ssh server.local") None)).
  - reflexivity.
  - left. reflexivity.
Defined.

(** *** Case in the request *)

Lemma _match_process_lower (process : string) (icons : dict Value)
      (cfg : IconConfig) :
  _match_process (lower process) icons cfg = _match_process process icons cfg.
Proof. unfold _match_process. now rewrite nonempty_lower, lower_idem. Qed.

Lemma _match_session_lower (session : string) (sessions : dict string)
      (cfg : IconConfig) :
  _match_session (lower session) sessions cfg
  = _match_session session sessions cfg.
Proof. unfold _match_session. now rewrite nonempty_lower, lower_idem. Qed.

(** X20.  The resolution does not depend on the case of the process name or of
    the session name, and the title-icon and host tiers do not depend on
    the case of the title and of the host name. *)
Theorem request_case_is_ignored :
  forall (rt : Runtime) (config : ParsedConfig)
         (process title session host : string) (cmdline : option string)
         (pane_pid : option Z),
    resolve_with rt config (lower process) title (lower session) cmdline
                 pane_pid
    = resolve_with rt config process title session cmdline pane_pid
    /\ _match_title_icons (lower title) (title_icons config)
                          (YamlParser.config config)
       = _match_title_icons title (title_icons config)
                            (YamlParser.config config)
    /\ _match_host (lower host) (hosts config) (YamlParser.config config)
       = _match_host host (hosts config) (YamlParser.config config).
Proof.
  intros rt config process title session host cmdline pane_pid.
  split; [|split].
  - unfold resolve_with.
    now rewrite _match_process_lower, _match_session_lower.
  - unfold _match_title_icons. now rewrite nonempty_lower, lower_idem.
  - unfold _match_host. now rewrite lower_idem.
Qed.

(** *** Keys of hosts without pattern characters *)

Lemma is_glob_meta_lower_char (c : ascii) :
  is_glob_meta (lower_char c) = is_glob_meta c.
Proof. destruct c as [[] [] [] [] [] [] [] []]; reflexivity. Qed.

Lemma translate_plain (p : string) :
  all_chars (fun c => negb (is_glob_meta c)) p = true ->
  translate_from None p = map GLit (list_ascii_of_string p).
Proof.
  induction p as [|c p IH];
    cbn [all_chars translate_from list_ascii_of_string map]; [reflexivity|].
  intros H. apply andb_prop in H as [Hc Hp].
  apply negb_true_iff in Hc. unfold is_glob_meta in Hc.
  apply orb_false_elim in Hc as [Hc H3].
  apply orb_false_elim in Hc as [H1 H2].
  rewrite H1, H2, H3. now rewrite (IH Hp).
Qed.

Lemma glob_match_literal (p : string) :
  forall name : string,
    glob_match (map GLit (list_ascii_of_string p)) name = String.eqb name p.
Proof.
  induction p as [|x p IH]; intros name;
    cbn [list_ascii_of_string map glob_match].
  - now destruct name.
  - destruct name as [|c name]; [reflexivity|].
    cbn [item_matches String.eqb]. rewrite IH.
    now destruct (Ascii.eqb c x).
Qed.

(** X21.  A key of [hosts] without [*], [?] and [[] matches a host name only by
    being equal to it, case ignored: for such a key the shell pattern adds
    nothing to the comparison. *)
Theorem plain_host_key_matches_by_equality :
  forall host key : string,
    all_chars (fun c => negb (is_glob_meta c)) key = true ->
    host_key_matches (lower host) key = String.eqb (lower key) (lower host).
Proof.
  intros host key H. unfold host_key_matches, fnmatch, translate.
  rewrite translate_plain.
  - rewrite glob_match_literal, (String.eqb_sym (lower host)).
    apply orb_diag.
  - clear -H. induction key as [|c key IH]; cbn [lower all_chars] in *;
      [reflexivity|].
    apply andb_prop in H as [Hc Hk].
    now rewrite is_glob_meta_lower_char, Hc, IH.
Qed.

Lemma plain_host_key_matches_by_equality_witness :
  host_key_matches (lower "DB-1.Example.Org") "db-1.example.org.evil" = false.
Proof.
  rewrite (plain_host_key_matches_by_equality
             "DB-1.Example.Org" "db-1.example.org.evil"); reflexivity.
Defined.

(** *** Patterns that end a host name *)

Lemma glob_star_unfold (items : list GlobItem) (name : string) :
  glob_match (GStar :: items) name
  = glob_match items name
    || match name with
       | EmptyString => false
       | String _ name' => glob_match (GStar :: items) name'
       end.
Proof. destruct name; reflexivity. Qed.

Lemma glob_star (items : list GlobItem) (name : string) :
  glob_match (GStar :: items) name = true <->
  exists a b, name = (a ++ b)%string /\ glob_match items b = true.
Proof.
  induction name as [|c name IH]; rewrite glob_star_unfold.
  - rewrite orb_false_r. split.
    + intros H. now exists EmptyString, EmptyString.
    + intros (a & b & E & H). destruct a; [|discriminate].
      cbn [String.append] in E. now subst b.
  - split.
    + intros H. apply orb_prop in H as [H|H].
      * now exists EmptyString, (String c name).
      * apply IH in H as (a & b & -> & H).
        now exists (String c a), b.
    + intros (a & b & E & H). apply orb_true_iff.
      destruct a as [|d a].
      * left. cbn [String.append] in E. now subst b.
      * right. cbn [String.append] in E. injection E as -> ->.
        apply IH. now exists a, b.
Qed.

(** X22.  A key of [hosts] made of a star and a text without pattern characters
    matches exactly the host names that end with that text, case ignored;
    the key that is only a star matches every host name. *)
Theorem suffix_host_key :
  forall host suffix : string,
    all_chars (fun c => negb (is_glob_meta c)) suffix = true ->
    (host_key_matches (lower host) (String "*"%char suffix) = true <->
     exists a, lower host = (a ++ lower suffix)%string)
    /\ host_key_matches (lower host) "*" = true.
Proof.
  intros host suffix H.
  assert (Hplain : all_chars (fun c => negb (is_glob_meta c)) (lower suffix)
                   = true).
  { clear -H. induction suffix as [|c s IH]; cbn [lower all_chars] in *;
      [reflexivity|].
    apply andb_prop in H as [Hc Hs].
    now rewrite is_glob_meta_lower_char, Hc, IH. }
  assert (Hglob : forall name,
             fnmatch name (String "*"%char (lower suffix)) = true <->
             exists a, name = (a ++ lower suffix)%string).
  { intros name. unfold fnmatch, translate. cbn [translate_from].
    change (Ascii.eqb "*"%char "*"%char) with true. cbv iota.
    rewrite (translate_plain _ Hplain), glob_star. split.
    - intros (a & b & -> & Hb). rewrite glob_match_literal in Hb.
      apply String.eqb_eq in Hb. subst b. now exists a.
    - intros (a & ->). exists a, (lower suffix). split; [reflexivity|].
      rewrite glob_match_literal. apply String.eqb_refl. }
  split.
  - unfold host_key_matches. cbn [lower].
    change (lower_char "*"%char) with "*"%char.
    rewrite orb_true_iff, Hglob. split.
    + intros [E|E]; [|exact E]. apply String.eqb_eq in E.
      exists (String "*"%char EmptyString). now rewrite <- E.
    + intros E. now right.
  - unfold host_key_matches. apply orb_true_iff. right.
    unfold fnmatch, translate. apply glob_star.
    exists (lower host), EmptyString. split; [|reflexivity].
    now rewrite append_empty_r.
Qed.

Lemma suffix_host_key_witness :
  host_key_matches (lower "Build7.CI.Example.Net") "*.ci.Example.net" = true.
Proof.
  destruct (suffix_host_key "Build7.CI.Example.Net" ".ci.Example.net"
                            eq_refl) as [[_ H] _].
  apply H. exists "build7". reflexivity.
Defined.

(** *** Where a match comes from *)

(** X23.  A title-pattern result comes from a pattern that was found: the title
    is not empty, the pattern is a key of the [title] mapping of a detailed
    entry of [icons], it has at most 500 characters and the search finds it
    in the title; the result carries that pattern's icon and the entry's
    [icon-color], and no ring or alert colour. *)
Theorem match_title_patterns_sound :
  forall (rt : Runtime) (title : string) (icons : dict Value)
         (cfg : IconConfig) (r : IconResult),
    _match_title_patterns rt title icons cfg = Ok (Some r) ->
    nonempty title = true
    /\ exists app d title_patterns pattern icon,
         In (app, Dict d) icons
         /\ dict_get d "title" = Some (Dict title_patterns)
         /\ In (pattern, icon) title_patterns
         /\ String.length pattern <= 500
         /\ re_search rt pattern title = Found
         /\ r = {| IconResolver.icon := Str (py_str rt icon);
                   ring_color := None;
                   IconResolver.icon_color := dict_get d "icon-color";
                   IconResolver.alert_color := None;
                   source := SrcTitlePattern |}.
Proof.
  intros rt title icons cfg r. unfold _match_title_patterns.
  destruct (nonempty title); cbn [negb]; [|discriminate].
  intros H. split; [reflexivity|]. revert H.
  assert (Hinner : forall d tp,
             _match_title_patterns_inner rt title d tp = Ok (Some r) ->
             exists pattern icon,
               In (pattern, icon) tp
               /\ String.length pattern <= 500
               /\ re_search rt pattern title = Found
               /\ r = {| IconResolver.icon := Str (py_str rt icon);
                         ring_color := None;
                         IconResolver.icon_color := dict_get d "icon-color";
                         IconResolver.alert_color := None;
                         source := SrcTitlePattern |}).
  { intros d. induction tp as [|[pattern icon] tp IH];
      cbn [_match_title_patterns_inner]; [discriminate|].
    assert (Hrest : _match_title_patterns_inner rt title d tp = Ok (Some r) ->
                    exists pattern0 icon0,
                      In (pattern0, icon0) ((pattern, icon) :: tp)
                      /\ String.length pattern0 <= 500
                      /\ re_search rt pattern0 title = Found
                      /\ r = {| IconResolver.icon := Str (py_str rt icon0);
                                ring_color := None;
                                IconResolver.icon_color :=
                                  dict_get d "icon-color";
                                IconResolver.alert_color := None;
                                source := SrcTitlePattern |}).
    { intros H. destruct (IH H) as (p & i & Hin & Hrest).
      exists p, i. split; [now right|exact Hrest]. }
    destruct (_MAX_PATTERN_LENGTH <? String.length pattern) eqn:Hlen;
      [exact Hrest|].
    apply Nat.ltb_ge in Hlen.
    destruct (re_search rt pattern title) eqn:Hre;
      [|exact Hrest|exact Hrest|discriminate].
    intros [= <-]. exists pattern, icon.
    repeat split; [now left|exact Hlen|exact Hre]. }
  induction icons as [|[app value] icons IH];
    cbn [_match_title_patterns_loop]; [discriminate|].
  assert (Hrest : _match_title_patterns_loop rt title icons = Ok (Some r) ->
                  exists app0 d title_patterns pattern icon,
                    In (app0, Dict d) ((app, value) :: icons)
                    /\ dict_get d "title" = Some (Dict title_patterns)
                    /\ In (pattern, icon) title_patterns
                    /\ String.length pattern <= 500
                    /\ re_search rt pattern title = Found
                    /\ r = {| IconResolver.icon := Str (py_str rt icon);
                              ring_color := None;
                              IconResolver.icon_color :=
                                dict_get d "icon-color";
                              IconResolver.alert_color := None;
                              source := SrcTitlePattern |}).
  { intros H. destruct (IH H) as (a & d & tp & p & i & Hin & Hrest).
    exists a, d, tp, p, i. split; [now right|exact Hrest]. }
  destruct value as [s|d]; [exact Hrest|].
  destruct (dict_get d "title") as [[s|tp]|] eqn:Hget; try exact Hrest.
  destruct (negb (dict_nonempty tp)); [exact Hrest|].
  destruct (_match_title_patterns_inner rt title d tp) as [[r'|]|e] eqn:Hin;
    [|exact Hrest|discriminate].
  intros [= ->]. destruct (Hinner d tp Hin) as (p & i & Hp & Hl & Hre & Hr).
  exists app, d, tp, p, i. repeat split; try assumption. now left.
Qed.

Lemma match_title_patterns_sound_witness :
  exists app d title_patterns pattern icon,
    In (app, Dict d)
       [("nvim", Dict [("icon", Str "N"); ("icon-color", Str "#0f0");
                       ("title", Dict [("make", Str "M"); ("git", Str "G")])])]
    /\ dict_get d "title" = Some (Dict title_patterns)
    /\ In (pattern, icon) title_patterns
    /\ String.length pattern <= 500
    /\ re_search literal_runtime pattern "Git: status" = Found
    /\ {| IconResolver.icon := Str "G";
          ring_color := None;
          IconResolver.icon_color := Some (Str "#0f0");
          IconResolver.alert_color := None;
          source := SrcTitlePattern |}
       = {| IconResolver.icon := Str (py_str literal_runtime icon);
            ring_color := None;
            IconResolver.icon_color := dict_get d "icon-color";
            IconResolver.alert_color := None;
            source := SrcTitlePattern |}.
Proof.
  destruct (match_title_patterns_sound
              literal_runtime "Git: status"
              [("nvim", Dict [("icon", Str "N"); ("icon-color", Str "#0f0");
                              ("title", Dict [("make", Str "M");
                                              ("git", Str "G")])])]
              IconConfig_default
              {| IconResolver.icon := Str "G";
                 ring_color := None;
                 IconResolver.icon_color := Some (Str "#0f0");
                 IconResolver.alert_color := None;
                 source := SrcTitlePattern |}
              eq_refl) as [_ H].
  exact H.
Defined.

(** X24.  A title-icon result comes from an entry of [title_icons] whose key,
    lower-cased, is a part of the lower-cased title. *)
Theorem match_title_icons_sound :
  forall (title : string) (title_icons : dict string) (cfg : IconConfig)
         (r : IconResult),
    _match_title_icons title title_icons cfg = Some r ->
    exists key icon,
      In (key, icon) title_icons
      /\ contains (lower key) (lower title) = true
      /\ r = simple_result icon SrcTitleIcon.
Proof.
  intros title title_icons cfg r. unfold _match_title_icons.
  destruct (negb (nonempty title) || negb (dict_nonempty title_icons));
    [discriminate|].
  set (tokens := filter nonempty (split_runs is_title_sep (lower title))).
  assert (Htok : forall ts,
             (forall t, In t ts -> In t tokens) ->
             _match_title_icons_tokens ts title_icons = Some r ->
             exists key icon,
               In (key, icon) title_icons
               /\ contains (lower key) (lower title) = true
               /\ r = simple_result icon SrcTitleIcon).
  { induction ts as [|t ts IH]; intros Hsub;
      cbn [_match_title_icons_tokens]; [discriminate|].
    destruct (dict_get title_icons t) as [icon|] eqn:Hget.
    - intros [= <-]. exists t, icon.
      destruct (token_of_lower is_title_sep title t
                               (Hsub t (or_introl eq_refl)))
        as (Hlow & Hpart & _).
      repeat split; [now apply dict_get_In|now rewrite Hlow].
    - apply IH. intros t' Ht'. apply Hsub. now right. }
  destruct (_match_title_icons_tokens tokens title_icons) as [r'|] eqn:E.
  - intros [= ->]. exact (Htok tokens (fun t Ht => Ht) E).
  - clear. induction title_icons as [|[key icon] ti IH];
      cbn [_match_title_icons_substr]; [discriminate|].
    destruct (contains (lower key) (lower title)) eqn:Hc.
    + intros [= <-]. exists key, icon. repeat split; [now left|exact Hc].
    + intros H. destruct (IH H) as (k & i & Hin & Hrest).
      exists k, i. split; [now right|exact Hrest].
Qed.

Lemma match_title_icons_sound_witness :
  exists key icon,
    In (key, icon) [("Top", "T"); ("htop", "H")]
    /\ contains (lower key) (lower "~ HTOP (1)") = true
    /\ simple_result "H" SrcTitleIcon = simple_result icon SrcTitleIcon.
Proof.
  apply (match_title_icons_sound "~ HTOP (1)" [("Top", "T"); ("htop", "H")]
                                 IconConfig_default).
  reflexivity.
Defined.

(** *** The process tier *)

(** X25.  The process tier answers from the first entry of [icons] whose key
    equals the process name, case ignored, and from no entry when the name
    is empty or no key equals it.  A plain entry gives its icon and no
    colour; a detailed entry gives its [icon], or the fallback icon when it
    has none, and its [icon-color]; the result never has a ring or an alert
    colour. *)
Theorem match_process_first_entry :
  forall (process : string) (icons : dict Value) (cfg : IconConfig),
    (_match_process process icons cfg = None <->
     nonempty process = false
     \/ forall kv, In kv icons ->
                   String.eqb (lower (fst kv)) (lower process) = false)
    /\ (forall r,
          _match_process process icons cfg = Some r ->
          exists pre key value post,
            icons = pre ++ (key, value) :: post
            /\ (forall kv, In kv pre ->
                           String.eqb (lower (fst kv)) (lower process) = false)
            /\ lower key = lower process
            /\ source r = SrcProcess
            /\ ring_color r = None
            /\ IconResolver.alert_color r = None
            /\ match value with
               | Str s =>
                   IconResolver.icon r = Str s
                   /\ IconResolver.icon_color r = None
               | Dict d =>
                   IconResolver.icon r
                   = match dict_get d "icon" with
                     | Some v => v
                     | None => Str (fallback_icon cfg)
                     end
                   /\ IconResolver.icon_color r = dict_get d "icon-color"
               end).
Proof.
  intros process icons cfg. unfold _match_process.
  destruct (nonempty process); cbn [negb].
  2:{ split; [split; [now left|reflexivity]|discriminate]. }
  split.
  - split.
    + intros H. right.
      induction icons as [|[key value] icons IH]; [now intros kv []|].
      revert H. cbn [_match_process_loop].
      destruct (String.eqb (lower key) (lower process)) eqn:E; cbn [negb].
      * destruct value; discriminate.
      * intros H kv [<-|Hin]; [exact E|now apply IH].
    + intros [H|H]; [discriminate|].
      induction icons as [|[key value] icons IH];
        cbn [_match_process_loop]; [reflexivity|].
      pose proof (H (key, value) (or_introl eq_refl)) as E.
      cbn [fst] in E. rewrite E. cbn [negb].
      apply IH. intros kv Hkv. apply H. now right.
  - induction icons as [|[key value] icons IH]; intros r;
      cbn [_match_process_loop]; [discriminate|].
    destruct (String.eqb (lower key) (lower process)) eqn:E; cbn [negb].
    + intros H. exists [], key, value, icons.
      split; [reflexivity|]. split; [now intros kv []|].
      split; [now apply String.eqb_eq|].
      destruct value; injection H as <-; now repeat split.
    + intros H.
      destruct (IH r H) as (pre & k & v & post & -> & Hpre & Hrest).
      exists ((key, value) :: pre), k, v, post.
      split; [reflexivity|]. split; [|exact Hrest].
      intros kv [<-|Hin]; [exact E|now apply Hpre].
Qed.

Lemma match_process_first_entry_witness :
  _match_process "bash" [("zsh", Str "Z"); ("Fish", Str "F")]
                 IconConfig_default = None.
Proof.
  apply (proj1 (match_process_first_entry
                  "bash" [("zsh", Str "Z"); ("Fish", Str "F")]
                  IconConfig_default)).
  right. intros kv [<-|[<-|[]]]; reflexivity.
Defined.

End IconResolverMore.

(** ** More on lines and keys *)

Module YamlLineFacts.
Import PyStr PyStrFacts Notions PyStrMore YamlParser YamlValueFacts.

Lemma lstrip_pad (s : string) :
  exists pad,
    s = (pad ++ lstrip s)%string
    /\ String.length pad = String.length s - String.length (lstrip s)
    /\ all_chars is_space pad = true.
Proof.
  induction s as [|c s (pad & Hp & Hl & Hs)]; cbn [lstrip].
  - now exists EmptyString.
  - destruct (is_space c) eqn:E.
    + exists (String c pad). cbn [String.append String.length all_chars].
      rewrite E, Hs. split; [now rewrite <- Hp|]. split; [|reflexivity].
      assert (String.length s
              = String.length pad + String.length (lstrip s)) as Hlen.
      { rewrite Hp at 1. clear. induction pad; cbn; [reflexivity|].
        now rewrite IHpad. }
      lia.
    + exists EmptyString. repeat split. cbn. lia.
Qed.

(** X26.  The indent of a line is the length of its leading run of whitespace,
    a tab counting as one: the line is that run followed by text that is
    empty or starts with a character that is not whitespace. *)
Theorem indent_level_is_leading_whitespace :
  forall line : string,
    exists pad,
      line = (pad ++ lstrip line)%string
      /\ String.length pad = _get_indent_level line
      /\ all_chars is_space pad = true
      /\ starts_clean (lstrip line).
Proof.
  intros line. destruct (lstrip_pad line) as (pad & Hp & Hl & Hs).
  exists pad. repeat split; try assumption. apply lstrip_starts_clean.
Qed.

(** X27.  A key between two single or two double quotes is the text between
    them, as it is or lower-cased as asked. *)
Theorem normalize_yaml_key_unquotes :
  forall (s : string) (q : ascii) (lowercase : bool),
    is_quote q = true ->
    _normalize_yaml_key (String q (s ++ String q EmptyString)) lowercase
    = if lowercase then lower s else s.
Proof.
  intros s q lowercase Hq. unfold _normalize_yaml_key.
  pose proof (is_quote_not_space q Hq) as Hsp.
  assert (E : strip (String q (s ++ String q EmptyString))
              = String q (s ++ String q EmptyString)).
  { unfold strip. cbn [lstrip]. rewrite Hsp.
    change (String q (s ++ String q EmptyString))
      with ((String q s) ++ String q EmptyString)%string.
    now apply rstrip_app_clean. }
  rewrite E. cbn [has_matching_quotes String.length].
  rewrite Hq, last_char_app, Ascii.eqb_refl.
  replace (2 <=? S (String.length (s ++ String q EmptyString))) with true.
  - cbn [andb strip_ends]. now rewrite drop_last_app.
  - symmetry. apply Nat.leb_le.
    destruct s; cbn [String.append String.length]; lia.
Qed.

Lemma normalize_yaml_key_unquotes_witness :
  _normalize_yaml_key "'Fire Fox '" false = "Fire Fox ".
Proof.
  apply (normalize_yaml_key_unquotes "Fire Fox " "039"%char false).
  reflexivity.
Defined.

End YamlLineFacts.
